(** * Chango-Assistant: persistent tools, telemetry ledger, webhook adapter
      and sentinel, embedded in Rocq.

    Go values are modelled as the code has them: [string] is a sequence of
    bytes ([String.string]), [int] and [int64] are [Z] with the 64-bit
    wrap-around written out, Go maps are [gmap]s, slices are lists.  Files
    are modelled by their decoded contents; the clock, the random source and
    functions of the Go standard library whose tables are not part of the
    repository are parameters of the sections that use them. *)

From Stdlib Require Import ZArith Ascii Lia Bool Floats.
From stdpp Require Import gmap strings list fin_maps.

Local Open Scope Z_scope.

(** ** Go primitives *)

Module Go.

(** [int] / [int64]: two's complement on 64 bits. *)
Definition wrap64 (z : Z) : Z := (z + 2 ^ 63) mod 2 ^ 64 - 2 ^ 63.
Definition add64 (a b : Z) : Z := wrap64 (a + b).
Definition MaxInt64 : Z := 2 ^ 63 - 1.
Definition MinInt64 : Z := - 2 ^ 63.
Definition in_int64 (z : Z) : Prop := MinInt64 <= z <= MaxInt64.

(** Byte-wise string comparison, as Go's [<] and [>=] on strings. *)
Definition str_lt (a b : string) : bool := String.ltb a b.
Definition str_ge (a b : string) : bool := negb (String.ltb a b).

(** [strings.Join]. *)
Fixpoint Join (elems : list string) (sep : string) : string :=
  match elems with
  | [] => ""
  | [e] => e
  | e :: rest => e +:+ sep +:+ Join rest sep
  end.

(** [strings.HasSuffix]. *)
Definition HasSuffix (s suf : string) : bool :=
  let n := String.length s in
  let k := String.length suf in
  (k <=? n)%nat && String.eqb (String.substring (n - k) k s) suf.

(** Decimal rendering of [%d]. *)
Definition digit_char (d : Z) : ascii := ascii_of_nat (48 + Z.to_nat d).

Fixpoint digits_fuel (fuel : nat) (n : Z) (acc : string) : string :=
  match fuel with
  | O => acc
  | S fuel' =>
      let acc' := String (digit_char (n mod 10)) acc in
      if n <? 10 then acc' else digits_fuel fuel' (n / 10) acc'
  end.

Definition utoa (n : Z) : string := digits_fuel (S (Z.to_nat (Z.log2 n))) n "".

Definition itoa (z : Z) : string :=
  if z <? 0 then String "-" (utoa (- z)) else utoa z.

(** [strconv.Atoi]: optional sign, at least one digit, only digits, and the
    value must fit in an [int]. *)
Definition digit_val (c : ascii) : option Z :=
  let n := Z.of_nat (nat_of_ascii c) in
  if (48 <=? n) && (n <=? 57) then Some (n - 48) else None.

Fixpoint parse_digits (s : string) (acc : Z) : option Z :=
  match s with
  | EmptyString => Some acc
  | String c rest =>
      match digit_val c with
      | Some d => parse_digits rest (acc * 10 + d)
      | None => None
      end
  end.

Definition parse_unsigned (s : string) : option Z :=
  match s with
  | EmptyString => None
  | _ => parse_digits s 0
  end.

Definition Atoi (s : string) : option Z :=
  let signed :=
    match s with
    | String "-" rest => (fun z => - z) <$> parse_unsigned rest
    | String "+" rest => parse_unsigned rest
    | _ => parse_unsigned s
    end in
  match signed with
  | Some z => if (MinInt64 <=? z) && (z <=? MaxInt64) then Some z else None
  | None => None
  end.

(** The line feed the format strings write as a backslash escape. *)
Definition nl : string := String (ascii_of_nat 10) "".

(** A string between double quotes. *)
Definition dquote : string := String (ascii_of_nat 34) "".
Definition quoted (s : string) : string := dquote +:+ s +:+ dquote.

(** [strings.ToUpper] on strings of ASCII bytes (used by the examples). *)
Definition upper_byte (c : ascii) : ascii :=
  let n := nat_of_ascii c in
  if (97 <=? n)%nat && (n <=? 122)%nat then ascii_of_nat (n - 32) else c.

Fixpoint ToUpperASCII (s : string) : string :=
  match s with
  | EmptyString => ""
  | String c rest => String (upper_byte c) (ToUpperASCII rest)
  end.

(** [hex.EncodeToString]. *)
Definition hex_digit (n : N) : ascii :=
  (if n <? 10 then ascii_of_N (48 + n) else ascii_of_N (87 + n))%N.

Fixpoint hex_EncodeToString (b : string) : string :=
  match b with
  | EmptyString => ""
  | String c rest =>
      let n := N_of_ascii c in
      String (hex_digit (n / 16)%N)
        (String (hex_digit (n mod 16)%N) (hex_EncodeToString rest))
  end.

End Go.

(** ** Tool results and arguments *)

(** Modelled from the spec: the [ToolResult] type and its constructors
    [SilentResult], [MediaResult] and [ErrorResult] are declared outside the
    files at hand; the spec gives the variant
    [Silent{text} | Media{text, urls} | Error{text}]. *)
Inductive ToolResult :=
| SilentResult (text : string)
| MediaResult (text : string) (urls : list string)
| ErrorResult (text : string).

Definition is_error (r : ToolResult) : bool :=
  match r with ErrorResult _ => true | _ => false end.

(** A decoded JSON argument, the dynamic type behind [interface{}]. *)
#[local] Unset Elimination Schemes.
Inductive value :=
| VString (s : string)
| VArray (items : list value)
| VOther.
#[local] Set Elimination Schemes.

(** [args[k].(string)] with the comma-ok result dropped: the empty string
    when the key is absent or holds another type. *)
Definition arg_string (args : gmap string value) (k : string) : string :=
  match args !! k with
  | Some (VString s) => s
  | _ => ""
  end.

(** [args[k].(string)] with its comma-ok result. *)
Definition arg_string_ok (args : gmap string value) (k : string) : option string :=
  match args !! k with
  | Some (VString s) => Some s
  | _ => None
  end.

(** The tag-collecting loop shared by the save and add actions. *)
Definition arg_tags (args : gmap string value) : list string :=
  match args !! "tags" with
  | Some (VArray raw) =>
      omap (fun rt => match rt with VString s => Some s | _ => None end) raw
  | _ => []
  end.

(** Arguments of the examples: a delete of the note or snippet "pw", and a
    delete of a task by its ID. *)
Definition delete_pw : gmap string value :=
  <["action" := VString "delete"]>
    (<["key" := VString "pw"]> (<["name" := VString "pw"]> ∅)).

Definition delete_task : gmap string value :=
  <["action" := VString "delete"]> (<["id" := VString "a1b2c3d4e5f6"]> ∅).

(** A JSON file as the tools see it: absent, present but not decodable into
    the expected type, or holding a value.  For a file that cannot be
    decoded, [err] is the decoder's error text and [partial] is what
    [json.Unmarshal] has left in the target when it returns the error: the
    zero value after a syntax error, the elements decoded so far after a
    type error.  Reads fail only for absent files and writes succeed. *)
Inductive file (A : Type) :=
| NoFile
| BadJSON (err : string) (partial : A)
| Stored (a : A).
Arguments NoFile {A}.
Arguments BadJSON {A} err partial.
Arguments Stored {A} a.

(** The text of the error [os.ReadFile] returns for an absent file. *)
Definition ErrNotExist (path : string) : string :=
  "open " +:+ path +:+ ": no such file or directory".

(** ** C1: how the stores write their files *)

Module AtomicWrite.

(** The two file-system calls the save paths make. *)
Inductive fs_op :=
| WriteFile (path : string) (data : string)
| Rename (oldpath newpath : string).

(** [os.WriteFile] opens with O_TRUNC and then writes: a concurrent reader
    or a crash can see the file empty or holding a proper prefix of the
    data.  [os.Rename] switches the name in one step. *)
Fixpoint prefixes (d : string) : list string :=
  match d with
  | EmptyString => [""]
  | String c rest => "" :: map (String c) (prefixes rest)
  end.

Definition apply_op (σ : gmap string string) (op : fs_op) : gmap string string :=
  match op with
  | WriteFile p d => <[p := d]> σ
  | Rename a b =>
      match σ !! a with
      | Some c => <[b := c]> (delete a σ)
      | None => σ
      end
  end.

Definition states_during (σ : gmap string string) (op : fs_op)
  : list (gmap string string) :=
  match op with
  | WriteFile p d => map (fun pre => <[p := pre]> σ) (prefixes d)
  | Rename _ _ => [apply_op σ op]
  end.

(** Every file system a reader can see while the operations run. *)
Fixpoint observable (σ : gmap string string) (ops : list fs_op)
  : list (gmap string string) :=
  match ops with
  | [] => [σ]
  | op :: rest => σ :: states_during σ op ++ observable (apply_op σ op) rest
  end.

(** [SnippetTool.saveSnippets], [TasksTool.saveTasks], [MemoryTool.saveNotes]
    (and the inlined writes of [MemoryTool.save] and [MemoryTool.del]):
    [os.WriteFile(t.filePath, data, 0644)]. *)
Definition saveSnippets (filePath data : string) : list fs_op :=
  [WriteFile filePath data].
Definition saveTasks (filePath data : string) : list fs_op :=
  [WriteFile filePath data].
Definition saveNotes (filePath data : string) : list fs_op :=
  [WriteFile filePath data].

(** [ReminderTool.saveRemindersLocked], [Tracker.Flush] and
    [Service.saveState]: write [filePath + ".tmp"], then rename. *)
Definition saveRemindersLocked (filePath data : string) : list fs_op :=
  let tmpPath := filePath +:+ ".tmp" in
  [WriteFile tmpPath data; Rename tmpPath filePath].
Definition flushWrite (filePath data : string) : list fs_op :=
  let tmpPath := filePath +:+ ".tmp" in
  [WriteFile tmpPath data; Rename tmpPath filePath].
Definition saveState (filePath data : string) : list fs_op :=
  let tmpPath := filePath +:+ ".tmp" in
  [WriteFile tmpPath data; Rename tmpPath filePath].

(** A reader of [path] only ever sees the old contents or the new ones. *)
Definition never_partial (σ : gmap string string) (path data : string)
           (ops : list fs_op) : Prop :=
  ∀ σ', σ' ∈ observable σ ops → σ' !! path = σ !! path ∨ σ' !! path = Some data.

End AtomicWrite.

(** Modelled from the spec: [bus.OutboundMessage] is declared outside the
    files at hand; the spec gives [{channel, chat_id, content, media_urls?}]. *)
Record OutboundMessage := mkOutbound {
  out_Channel : string;
  out_ChatID : string;
  out_Content : string
}.

(** ** C2: the reminder tool *)

Module Reminder.

Record reminder := mkReminder {
  ID : string;
  Message : string;
  DueAt : string;
  Channel : string;
  ChatID : string;
  CreatedAt : string;
  Fired : bool
}.

(** What a timer's callback captured: the arguments of [fireReminder]. *)
Record timer := mkTimer {
  fire_at : Z;
  t_id : string;
  t_message : string;
  t_channel : string;
  t_chatID : string
}.

(** The fields of [ReminderTool]; [msgBus] records whether the bus is set. *)
Record ReminderTool := mkTool {
  msgBus : bool;
  channel : string;
  chatID : string;
  nextID : Z;
  timers : gmap string timer
}.

(** [NewReminderTool]: [nextID] starts at Go's zero value. *)
Definition NewReminderTool (bus : bool) : ReminderTool :=
  {| msgBus := bus; channel := ""; chatID := ""; nextID := 0; timers := ∅ |}.

Definition SetContext (t : ReminderTool) (ch cid : string) : ReminderTool :=
  {| msgBus := msgBus t; channel := ch; chatID := cid;
     nextID := nextID t; timers := timers t |}.

(** [loadRemindersLocked]: an absent or undecodable file reads as no
    reminders. *)
Definition loadRemindersLocked (disk : file (list reminder)) : list reminder :=
  match disk with
  | Stored l => l
  | _ => []
  end.

(** [saveRemindersLocked]: what the file holds afterwards (how it is
    written is in [AtomicWrite]). *)
Definition saveRemindersLocked (reminders : list reminder) : file (list reminder) :=
  Stored reminders.

Definition Hour : Z := 3600 * 1000000000.

(** The part of a string before and after its first [c]
    ([strings.SplitN(s, c, 2)] when [s] contains [c]). *)
Fixpoint split_first (c : ascii) (s : string) : option (string * string) :=
  match s with
  | EmptyString => None
  | String a rest =>
      if Ascii.eqb a c then Some ("", rest)
      else match split_first c rest with
           | Some (l, r) => Some (String a l, r)
           | None => None
           end
  end.

(** Mark the first reminder whose ID is [id] (and which passes [ok]) as
    fired; the flag tells whether one was found. *)
Fixpoint mark_fired (ok : reminder → bool) (id : string) (l : list reminder)
  : list reminder * bool :=
  match l with
  | [] => ([], false)
  | r :: rest =>
      if String.eqb (ID r) id && ok r then
        ({| ID := ID r; Message := Message r; DueAt := DueAt r;
            Channel := Channel r; ChatID := ChatID r;
            CreatedAt := CreatedAt r; Fired := true |} :: rest, true)
      else
        let '(rest', found) := mark_fired ok id rest in (r :: rest', found)
  end.

Section WithTime.
(** The Go library functions the tool calls. *)
Variable strings_ToLower : string → string.
Variable strings_TrimSpace : string → string.
Variable time_ParseDuration : string → string + Z.
Variable time_ParseRFC3339 : string → option Z.
Variable format_RFC3339 : Z → string.
Variable format_HHMM : Z → string.

(** [parseDuration]: the error text on the left, the duration on the
    right. *)
Definition parseDuration (s0 : string) : string + Z :=
  let s := strings_TrimSpace (strings_ToLower s0) in
  match split_first "d" s with
  | Some (days_s, rest) =>
      match Go.Atoi days_s with
      | None => inl ("invalid days: " +:+ days_s)
      | Some days =>
          let remainder := strings_TrimSpace rest in
          let dur := Go.wrap64 (days * 24 * Hour) in
          if String.eqb remainder "" then inr dur
          else match time_ParseDuration remainder with
               | inl err => inl err
               | inr extra => inr (Go.add64 dur extra)
               end
      end
  | None => time_ParseDuration s
  end.

(** One iteration of the loop of [StartPendingReminders]: the running
    maximum, the timer map and the reminders to fire at once. *)
Definition start_step (now : Z) (acc : Z * gmap string timer * list timer)
           (r : reminder) : Z * gmap string timer * list timer :=
  let '(maxID, tm, due_now) := acc in
  if Fired r then acc
  else
    let maxID' :=
      match Go.Atoi (ID r) with
      | Some id => if maxID <? id then id else maxID
      | None => maxID
      end in
    match time_ParseRFC3339 (DueAt r) with
    | None => (maxID', tm, due_now)
    | Some dueAt =>
        let tmr := mkTimer dueAt (ID r) (Message r) (Channel r) (ChatID r) in
        if dueAt - now <=? 0 then (maxID', tm, due_now ++ [tmr])
        else (maxID', <[ID r := tmr]> tm, due_now)
    end.

(** [StartPendingReminders]: the tool afterwards and the reminders whose
    firing was started in the background. *)
Definition StartPendingReminders (t : ReminderTool)
           (disk : file (list reminder)) (now : Z)
  : ReminderTool * list timer :=
  let reminders := loadRemindersLocked disk in
  let '(maxID, tm, due_now) :=
    foldl (start_step now) (0, timers t, []) reminders in
  ({| msgBus := msgBus t; channel := channel t; chatID := chatID t;
      nextID := Go.add64 maxID 1; timers := tm |}, due_now).

(** [set]. *)
Definition set (t : ReminderTool) (disk : file (list reminder))
           (args : gmap string value) (now : Z)
  : ToolResult * ReminderTool * file (list reminder) :=
  let message := arg_string args "message" in
  let durationStr := arg_string args "duration" in
  if String.eqb message "" || String.eqb durationStr "" then
    (ErrorResult "message and duration are required for set", t, disk)
  else
    match parseDuration durationStr with
    | inl err =>
        (ErrorResult ("invalid duration '" +:+ durationStr +:+ "': " +:+ err),
         t, disk)
    | inr dur =>
        let id := Go.itoa (nextID t) in
        let dueAt := now + dur in
        let r := {| ID := id; Message := message;
                    DueAt := format_RFC3339 dueAt;
                    Channel := channel t; ChatID := chatID t;
                    CreatedAt := format_RFC3339 now; Fired := false |} in
        let reminders := loadRemindersLocked disk ++ [r] in
        let tmr := mkTimer dueAt id message (channel t) (chatID t) in
        (SilentResult ("Reminder #" +:+ id +:+ " set for " +:+ format_HHMM dueAt
                       +:+ " (" +:+ durationStr +:+ " from now): " +:+ message),
         {| msgBus := msgBus t; channel := channel t; chatID := chatID t;
            nextID := Go.add64 (nextID t) 1;
            timers := <[id := tmr]> (timers t) |},
         saveRemindersLocked reminders)
    end.

End WithTime.

(** [cancel]. *)
Definition cancel (t : ReminderTool) (disk : file (list reminder))
           (args : gmap string value)
  : ToolResult * ReminderTool * file (list reminder) :=
  let id := arg_string args "id" in
  if String.eqb id "" then (ErrorResult "id is required for cancel", t, disk)
  else
    let t' := {| msgBus := msgBus t; channel := channel t; chatID := chatID t;
                 nextID := nextID t; timers := delete id (timers t) |} in
    let '(reminders, found) :=
      mark_fired (fun r => negb (Fired r)) id (loadRemindersLocked disk) in
    if found then
      (SilentResult ("Reminder #" +:+ id +:+ " cancelled"), t',
       saveRemindersLocked reminders)
    else
      (SilentResult ("Reminder #" +:+ id +:+ " not found or already fired"), t', disk).

(** [fireReminder]: the message published (if any), the tool and the file. *)
Definition fireReminder (t : ReminderTool) (disk : file (list reminder))
           (id message ch cid : string)
  : list OutboundMessage * ReminderTool * file (list reminder) :=
  let sent :=
    if msgBus t && negb (String.eqb ch "") && negb (String.eqb cid "") then
      [mkOutbound ch cid ("Recordatorio: " +:+ message)]
    else [] in
  let t' := {| msgBus := msgBus t; channel := channel t; chatID := chatID t;
               nextID := nextID t; timers := delete id (timers t) |} in
  let '(reminders, _) :=
    mark_fired (fun _ => true) id (loadRemindersLocked disk) in
  (sent, t', saveRemindersLocked reminders).

(** The IDs present in the reminders file. *)
Definition stored_ids (disk : file (list reminder)) : list string :=
  map ID (loadRemindersLocked disk).

(** Data of the examples: a file with one reminder of ID "1" that has
    fired, the arguments of a [set], and a duration parser that knows the
    one duration the examples use. *)
Definition fired_one : reminder :=
  mkReminder "1" "stand up" "2024-06-10T09:00:00Z" "telegram" "42"
             "2024-06-10T08:00:00Z" true.

Definition set_args : gmap string value :=
  <["action" := VString "set"]>
    (<["message" := VString "call mum"]> (<["duration" := VString "30m"]> ∅)).

Definition parse_30m (s : string) : string + Z :=
  if String.eqb s "30m" then inr (1800 * 1000000000)
  else inl "unknown unit in duration".

(** Whether a byte occurs in a string ([strings.Contains] for one byte). *)
Fixpoint has_byte (c : ascii) (s : string) : bool :=
  match s with
  | EmptyString => false
  | String a rest => Ascii.eqb a c || has_byte c rest
  end.

(** The same reminder later on: nothing changed, except that it may have
    fired in the meantime. *)
Definition ages (r r' : reminder) : Prop :=
  ID r' = ID r ∧ Message r' = Message r ∧ DueAt r' = DueAt r
  ∧ Channel r' = Channel r ∧ ChatID r' = ChatID r ∧ CreatedAt r' = CreatedAt r
  ∧ (Fired r = true → Fired r' = true).

(** A reminder list that keeps the old entries, aged, in their places and
    may have new ones at the end. *)
Definition extends (old new : list reminder) : Prop :=
  ∃ kept added, new = kept ++ added ∧ Forall2 ages old kept.

(** The reminders with the given ID that have not fired. *)
Definition pending_with (id : string) (l : list reminder) : list reminder :=
  filter (fun r => ID r = id ∧ Fired r = false) l.

(** Arguments of the examples: a cancel of reminder "1", and a reminder "1"
    that is still pending. *)
Definition cancel_one : gmap string value :=
  <["action" := VString "cancel"]> (<["id" := VString "1"]> ∅).

Definition pending_one : reminder :=
  mkReminder "1" "stand up" "2024-06-10T09:00:00Z" "telegram" "42"
             "2024-06-10T08:00:00Z" false.

End Reminder.

(** ** C3, C4: the telemetry ledger *)

Module Telemetry.

Record FeatureBucket := mkFB {
  PromptTokens : Z;
  CompletionTokens : Z;
  TotalTokens : Z;
  Calls : Z
}.

Record DayBucket := mkDay {
  Date : string;
  Features : gmap string FeatureBucket;
  Totals : FeatureBucket
}.

(** [Tracker]; [data] is [t.data.Days], oldest first. *)
Record Tracker := mkTracker {
  data : list DayBucket;
  filePath : string;
  dirty : bool
}.

(** What the tracker asks of [time.Time]: [Format("2006-01-02")] and
    [AddDate(0, 0, n)]. *)
Class Clock (Time : Type) := {
  FormatDate : Time → string;
  AddDays : Time → Z → Time
}.

Definition fb_zero : FeatureBucket := mkFB 0 0 0 0.

(** The four [+=] / [++] of [Record] on one bucket. *)
Definition fb_bump (fb : FeatureBucket) (prompt completion total : Z)
  : FeatureBucket :=
  {| PromptTokens := Go.add64 (PromptTokens fb) prompt;
     CompletionTokens := Go.add64 (CompletionTokens fb) completion;
     TotalTokens := Go.add64 (TotalTokens fb) total;
     Calls := Go.add64 (Calls fb) 1 |}.

(** Field-wise [int64] sum of two buckets. *)
Definition fb_add (a b : FeatureBucket) : FeatureBucket :=
  {| PromptTokens := Go.add64 (PromptTokens a) (PromptTokens b);
     CompletionTokens := Go.add64 (CompletionTokens a) (CompletionTokens b);
     TotalTokens := Go.add64 (TotalTokens a) (TotalTokens b);
     Calls := Go.add64 (Calls a) (Calls b) |}.

(** The field-wise sum over all entries of a [Features] map. *)
Definition sum_features (m : gmap string FeatureBucket) : FeatureBucket :=
  map_fold (fun _ fb acc => fb_add fb acc) fb_zero m.

(** The exact (unbounded) sum of one field over a [Features] map. *)
Definition sum_field (field : FeatureBucket → Z) (m : gmap string FeatureBucket) : Z :=
  map_fold (fun _ fb acc => field fb + acc) 0 m.

(** A bucket whose totals are the sum of its features. *)
Definition consistent (d : DayBucket) : Prop :=
  Totals d = sum_features (Features d).

(** Index of the first bucket of the given date: the pointer
    [getOrCreateDay] returns when the day exists. *)
Fixpoint find_day (date : string) (days : list DayBucket) : option nat :=
  match days with
  | [] => None
  | d :: rest =>
      if String.eqb (Date d) date then Some O
      else S <$> find_day date rest
  end.

(** [getOrCreateDay]: the day list and the position of the bucket. *)
Definition getOrCreateDay (days : list DayBucket) (date : string)
  : list DayBucket * nat :=
  match find_day date days with
  | Some i => (days, i)
  | None => (days ++ [mkDay date ∅ fb_zero], length days)
  end.

(** The body of [Record] on the bucket it obtained. *)
Definition record_into (feature : string) (prompt completion total : Z)
           (bucket : DayBucket) : DayBucket :=
  let fb := default fb_zero (Features bucket !! feature) in
  {| Date := Date bucket;
     Features := <[feature := fb_bump fb prompt completion total]> (Features bucket);
     Totals := fb_bump (Totals bucket) prompt completion total |}.

(** [NewTracker] with [load]: an absent or undecodable file starts fresh. *)
Definition NewTracker (fp : string) (disk : file (list DayBucket)) : Tracker :=
  {| data := match disk with Stored days => days | _ => [] end;
     filePath := fp; dirty := false |}.

(** [GetDay]: the first bucket of that date (a copy, here a value). *)
Definition GetDay (t : Tracker) (date : string) : option DayBucket :=
  match find_day date (data t) with
  | Some i => data t !! i
  | None => None
  end.

Section WithRuntime.
(** The largest capacity [make] accepts for a slice of pointers; it depends
    on the platform. *)
Variable maxSliceCap : Z.

(** The loop of [GetLastNDays]: [i] runs down from the last index while the
    result is shorter than [n]. *)
Fixpoint last_days_loop (fuel : nat) (days : list DayBucket) (i n : Z)
         (result : list DayBucket) : list DayBucket :=
  match fuel with
  | O => result
  | S fuel' =>
      if (0 <=? i) && (Z.of_nat (length result) <? n) then
        match days !! Z.to_nat i with
        | Some d => last_days_loop fuel' days (i - 1) n (result ++ [d])
        | None => result
        end
      else result
  end.

(** [GetLastNDays]; [make] panics on a negative or too large capacity,
    which [None] stands for. *)
Definition GetLastNDays (t : Tracker) (n : Z) : option (list DayBucket) :=
  if (n <? 0) || (maxSliceCap <? n) then None
  else Some (last_days_loop (length (data t)) (data t)
                            (Z.of_nat (length (data t)) - 1) n []).

End WithRuntime.

Section WithClock.
Context {Time : Type} `{Clock Time}.
Variable json_MarshalIndent : list DayBucket → string.

(** [Record]. *)
Definition Record_ (t : Tracker) (now : Time) (feature : string)
           (prompt completion total : Z) : Tracker :=
  if (total =? 0) && (prompt =? 0) && (completion =? 0) then t
  else
    let today := FormatDate now in
    let '(days, i) := getOrCreateDay (data t) today in
    {| data := alter (record_into feature prompt completion total) i days;
       filePath := filePath t; dirty := true |}.

Definition GetToday (t : Tracker) (now : Time) : option DayBucket :=
  GetDay t (FormatDate now).

(** [prune]. *)
Definition prune (days : list DayBucket) (now : Time) (keepDays : Z)
  : list DayBucket :=
  let cutoff := FormatDate (AddDays now (- keepDays)) in
  filter (fun d => Go.str_ge (Date d) cutoff = true) days.

(** [Flush]: the tracker afterwards and the file-system calls made. *)
Definition Flush (t : Tracker) (now : Time)
  : Tracker * list AtomicWrite.fs_op :=
  if negb (dirty t) then (t, [])
  else
    let days := prune (data t) now 30 in
    ({| data := days; filePath := filePath t; dirty := false |},
     AtomicWrite.flushWrite (filePath t) (json_MarshalIndent days)).

(** A call of [Record] with its arguments and the time it ran at. *)
Record call := mkCall {
  c_now : Time;
  c_feature : string;
  c_prompt : Z;
  c_completion : Z;
  c_total : Z
}.

Definition run (t : Tracker) (calls : list call) : Tracker :=
  foldl (fun t c => Record_ t (c_now c) (c_feature c)
                            (c_prompt c) (c_completion c) (c_total c))
        t calls.

(** A call that [Record] does not ignore. *)
Definition counted (c : call) : Prop :=
  ¬ (c_total c = 0 ∧ c_prompt c = 0 ∧ c_completion c = 0).

(** The cut-off date of [Flush]: today minus 30 days. *)
Definition cutoff30 (now : Time) : string := FormatDate (AddDays now (- 30)).

(** What the tracker is asked to do over its life: record a call, or flush
    at some time. *)
Inductive op :=
| DoRecord (c : call)
| DoFlush (now : Time).

Definition play (t : Tracker) (ops : list op) : Tracker :=
  foldl (fun t o =>
           match o with
           | DoRecord c => Record_ t (c_now c) (c_feature c)
                                   (c_prompt c) (c_completion c) (c_total c)
           | DoFlush now => (Flush t now).1
           end)
        t ops.

(** The test [Record] makes before it counts a call. *)
Definition is_counted (c : call) : bool :=
  negb ((c_total c =? 0) && (c_prompt c =? 0) && (c_completion c =? 0)).

(** The calls that are counted on a given day, and those of one feature. *)
Definition calls_on (date : string) (calls : list call) : list call :=
  filter (fun c => is_counted c = true ∧ FormatDate (c_now c) = date) calls.

Definition calls_for (feature : string) (calls : list call) : list call :=
  filter (fun c => c_feature c = feature) calls.

(** The bucket additions of a list of calls, and the exact sum of one
    argument over the calls. *)
Definition bump_all (fb : FeatureBucket) (calls : list call) : FeatureBucket :=
  foldl (fun fb c => fb_bump fb (c_prompt c) (c_completion c) (c_total c)) fb calls.

Definition record_calls (b : DayBucket) (calls : list call) : DayBucket :=
  foldl (fun b c => record_into (c_feature c) (c_prompt c) (c_completion c)
                                (c_total c) b) b calls.

Definition sum_over (f : call → Z) (calls : list call) : Z :=
  foldr (fun c acc => f c + acc) 0 calls.

End WithClock.

(** The tracker of a workspace that has no telemetry file yet. *)
Definition empty_tracker (fp : string) : Tracker := NewTracker fp NoFile.

(** A clock for the examples: days since 1970-01-01 in the proleptic
    Gregorian calendar, years 0000 to 9999. *)
Definition pad2 (n : Z) : string :=
  String (Go.digit_char (n / 10)) (String (Go.digit_char (n mod 10)) "").
Definition pad4 (n : Z) : string := pad2 (n / 100) +:+ pad2 (n mod 100).

Definition civil_from_days (z0 : Z) : Z * Z * Z :=
  let z := z0 + 719468 in
  let era := z / 146097 in
  let doe := z - era * 146097 in
  let yoe := (doe - doe / 1460 + doe / 36524 - doe / 146096) / 365 in
  let doy := doe - (365 * yoe + yoe / 4 - yoe / 100) in
  let mp := (5 * doy + 2) / 153 in
  let d := doy - (153 * mp + 2) / 5 + 1 in
  let m := if mp <? 10 then mp + 3 else mp - 9 in
  let y := yoe + era * 400 + (if m <=? 2 then 1 else 0) in
  (y, m, d).

Definition format_day (z : Z) : string :=
  let '(y, m, d) := civil_from_days z in
  pad4 y +:+ "-" +:+ pad2 m +:+ "-" +:+ pad2 d.

#[global] Instance day_clock : Clock Z :=
  {| FormatDate := format_day; AddDays := fun t n => t + n |}.

(** Data of the examples: 10 June 2024 as a day number, a telemetry file
    holding one day of January 2020, and one call of [Record]. *)
Definition june_10_2024 : Z := 19884.

Definition stale_file : file (list DayBucket) :=
  Stored [mkDay "2020-01-01" ∅ fb_zero].

Definition chat_call : call := mkCall june_10_2024 "chat" 10 5 15.

End Telemetry.

(** ** C5: the note store ([MemoryTool]) *)

Module Notes.

Record memoryNote := mkNote {
  Key : string;
  Content : string;
  Tags : list string;
  CreatedAt : string;
  UpdatedAt : string
}.

(** [loadNotes]: an absent file is an empty store, an undecodable one an
    error. *)
Definition loadNotes (disk : file (list memoryNote)) : string + list memoryNote :=
  match disk with
  | NoFile => inr []
  | BadJSON err _ => inl err
  | Stored notes => inr notes
  end.

(** [os.ReadFile] followed by a [json.Unmarshal] whose error is dropped, as
    in [save] and [del]: after a failed decode the code goes on with what
    the decoder has left in the slice. *)
Definition decode_lenient (disk : file (list memoryNote)) : list memoryNote :=
  match disk with
  | NoFile => []
  | BadJSON _ partial => partial
  | Stored notes => notes
  end.

(** The update loop of [save]: the first note with that key gets the new
    content, tags and update time. *)
Fixpoint update_first (key content : string) (tags : list string) (now : string)
         (notes : list memoryNote) : list memoryNote * bool :=
  match notes with
  | [] => ([], false)
  | n :: rest =>
      if String.eqb (Key n) key then
        ({| Key := Key n; Content := content; Tags := tags;
            CreatedAt := CreatedAt n; UpdatedAt := now |} :: rest, true)
      else
        let '(rest', found) := update_first key content tags now rest in
        (n :: rest', found)
  end.

(** [save]; [now] is [time.Now().Format(time.RFC3339)]. *)
Definition save (disk : file (list memoryNote)) (args : gmap string value)
           (now : string) : ToolResult * file (list memoryNote) :=
  let key := arg_string args "key" in
  let content := arg_string args "content" in
  if String.eqb key "" || String.eqb content "" then
    (ErrorResult "key and content are required for save", disk)
  else
    let tags := arg_tags args in
    let notes := decode_lenient disk in
    let '(notes1, found) := update_first key content tags now notes in
    let notes2 :=
      if found then notes1
      else notes ++ [{| Key := key; Content := content; Tags := tags;
                        CreatedAt := now; UpdatedAt := now |}] in
    (SilentResult (if found then "Note '" +:+ key +:+ "' updated"
                   else "Note '" +:+ key +:+ "' saved"),
     Stored notes2).

(** The text [recall] returns for a note. *)
Definition render (n : memoryNote) : string :=
  "Key: " +:+ Key n +:+ Go.nl +:+ "Content: " +:+ Content n +:+
  (if (0 <? length (Tags n))%nat
   then Go.nl +:+ "Tags: " +:+ Go.Join (Tags n) ", " else "").

Fixpoint find_note (key : string) (notes : list memoryNote) : option memoryNote :=
  match notes with
  | [] => None
  | n :: rest => if String.eqb (Key n) key then Some n else find_note key rest
  end.

(** [recall]. *)
Definition recall (disk : file (list memoryNote)) (args : gmap string value)
  : ToolResult :=
  let key := arg_string args "key" in
  if String.eqb key "" then ErrorResult "key is required for recall"
  else
    match loadNotes disk with
    | inl err => ErrorResult ("failed to load notes: " +:+ err)
    | inr notes =>
        match find_note key notes with
        | Some n => SilentResult (render n)
        | None => SilentResult ("No note found with key '" +:+ key +:+ "'")
        end
    end.

(** [del]; [fp] is the tool's [filePath], which the read error quotes. *)
Definition del (fp : string) (disk : file (list memoryNote))
           (args : gmap string value) : ToolResult * file (list memoryNote) :=
  let key := arg_string args "key" in
  if String.eqb key "" then (ErrorResult "key is required for delete", disk)
  else
    match disk with
    | NoFile => (ErrorResult ("failed to load notes: " +:+ ErrNotExist fp), disk)
    | _ =>
        let notes := decode_lenient disk in
        let found := existsb (fun n => String.eqb (Key n) key) notes in
        let filtered := filter (fun n => Key n ≠ key) notes in
        if found then
          (SilentResult ("Note '" +:+ key +:+ "' deleted"), Stored filtered)
        else
          (SilentResult ("No note found with key '" +:+ key +:+ "'"), disk)
    end.

(** Arguments of the examples: the note of the spec's round trip. *)
Definition save_pw : gmap string value :=
  <["action" := VString "save"]>
    (<["key" := VString "pw"]>
       (<["content" := VString "hunter2"]>
          (<["tags" := VArray [VString "x"]]> ∅))).

(** A notes file whose second element is a number: the decoder reports a
    type error and leaves the first note and a zero note in the slice. *)
Definition half_decoded : file (list memoryNote) :=
  BadJSON "json: cannot unmarshal number into Go value of type tools.memoryNote"
          [mkNote "pw" "" [] "" ""; mkNote "" "" [] "" ""].

(** [list]. *)
Definition list_line (n : memoryNote) : string :=
  "- " +:+ Key n +:+
  (if (0 <? length (Tags n))%nat
   then " [" +:+ Go.Join (Tags n) ", " +:+ "]" else "").

Definition list (disk : file (list memoryNote)) : ToolResult :=
  match loadNotes disk with
  | inl err => ErrorResult ("failed to load notes: " +:+ err)
  | inr notes =>
      if (length notes =? 0)%nat then SilentResult "No notes saved"
      else SilentResult (Go.itoa (Z.of_nat (length notes)) +:+ " note(s):" +:+ Go.nl
                         +:+ Go.Join (map list_line notes) Go.nl)
  end.

End Notes.

(** ** C5: the snippet store *)

Module Snippets.

Record snippet := mkSnippet {
  Content : string;
  Tags : list string;
  CreatedAt : string;
  UpdatedAt : string
}.

(** [loadSnippets]: an absent or undecodable file is an empty map. *)
Definition loadSnippets (disk : file (gmap string snippet)) : gmap string snippet :=
  match disk with
  | Stored m => m
  | _ => ∅
  end.

(** [save]. *)
Definition save (disk : file (gmap string snippet)) (args : gmap string value)
           (now : string) : ToolResult * file (gmap string snippet) :=
  let name := arg_string args "name" in
  let content := arg_string args "content" in
  if String.eqb name "" || String.eqb content "" then
    (ErrorResult "name and content are required for save", disk)
  else
    let tags := arg_tags args in
    let snippets := loadSnippets disk in
    let created :=
      match snippets !! name with
      | Some old => CreatedAt old
      | None => now
      end in
    let snippets' :=
      <[name := {| Content := content; Tags := tags;
                   CreatedAt := created; UpdatedAt := now |}]> snippets in
    (SilentResult (if bool_decide (is_Some (snippets !! name))
                   then "Snippet '" +:+ name +:+ "' updated"
                   else "Snippet '" +:+ name +:+ "' saved"),
     Stored snippets').

(** The text [get] returns for a snippet. *)
Definition render (name : string) (s : snippet) : string :=
  "Snippet '" +:+ name +:+ "':" +:+ Go.nl +:+ Content s +:+
  (if (0 <? length (Tags s))%nat
   then Go.nl +:+ "Tags: " +:+ Go.Join (Tags s) ", " else "").

(** [get]. *)
Definition get (disk : file (gmap string snippet)) (args : gmap string value)
  : ToolResult :=
  let name := arg_string args "name" in
  if String.eqb name "" then ErrorResult "name is required for get"
  else
    match loadSnippets disk !! name with
    | None => SilentResult ("No snippet found with name '" +:+ name +:+ "'")
    | Some s => SilentResult (render name s)
    end.

(** [del]. *)
Definition del (disk : file (gmap string snippet)) (args : gmap string value)
  : ToolResult * file (gmap string snippet) :=
  let name := arg_string args "name" in
  if String.eqb name "" then (ErrorResult "name is required for delete", disk)
  else
    let snippets := loadSnippets disk in
    match snippets !! name with
    | None => (SilentResult ("No snippet found with name '" +:+ name +:+ "'"), disk)
    | Some _ =>
        (SilentResult ("Snippet '" +:+ name +:+ "' deleted"),
         Stored (delete name snippets))
    end.

(** Arguments of the examples: two saves of the snippet "sig". *)
Definition save_sig : gmap string value :=
  <["action" := VString "save"]>
    (<["name" := VString "sig"]> (<["content" := VString "Regards"]> ∅)).

Definition save_sig_again : gmap string value :=
  <["action" := VString "save"]>
    (<["name" := VString "sig"]> (<["content" := VString "Cheers"]> ∅)).

End Snippets.

(** ** C5, C6: the task store *)

Module Tasks.

Record Task := mkTask {
  ID : string;
  Title : string;
  Description : string;
  Status : string;
  Priority : string;
  DueDate : string;
  Tags : list string;
  Notes : string;
  GoalID : string;
  CreatedAt : string;
  UpdatedAt : string
}.

(** [generateTaskID] on the six bytes [rand.Read] delivered. *)
Definition generateTaskID (rnd : string) : string := Go.hex_EncodeToString rnd.

(** [loadTasks]. *)
Definition loadTasks (disk : file (list Task)) : string + list Task :=
  match disk with
  | NoFile => inr []
  | BadJSON err _ => inl err
  | Stored tasks => inr tasks
  end.

(** [add]. *)
Definition add (disk : file (list Task)) (args : gmap string value)
           (now rnd : string) : ToolResult * file (list Task) :=
  let title := arg_string args "title" in
  if String.eqb title "" then (ErrorResult "title is required for add", disk)
  else
    let description := arg_string args "description" in
    let priority :=
      if String.eqb (arg_string args "priority") "" then "medium"
      else arg_string args "priority" in
    let dueDate := arg_string args "due_date" in
    let notes := arg_string args "notes" in
    let goalID := arg_string args "goal_id" in
    let tags := arg_tags args in
    match disk with
    | BadJSON err _ => (ErrorResult ("corrupted tasks file: " +:+ err), disk)
    | _ =>
        let tasks := match disk with Stored l => l | _ => [] end in
        let task := {| ID := generateTaskID rnd; Title := title;
                       Description := description; Status := "pending";
                       Priority := priority; DueDate := dueDate; Tags := tags;
                       Notes := notes; GoalID := goalID;
                       CreatedAt := now; UpdatedAt := now |} in
        (SilentResult ("Task created: " +:+ Title task +:+ " (ID: " +:+ ID task
                       +:+ ", priority: " +:+ Priority task
                       +:+ (if String.eqb dueDate "" then ""
                            else ", due: " +:+ dueDate)
                       +:+ ")"),
         Stored (tasks ++ [task]))
    end.

(** The overdue test of [list]. *)
Definition is_overdue (today : string) (task : Task) : bool :=
  negb (String.eqb (DueDate task) "") && Go.str_lt (DueDate task) today
  && negb (String.eqb (Status task) "done")
  && negb (String.eqb (Status task) "cancelled").

(** [formatTask]; [today] is [time.Now().Format("2006-01-02")]. *)
Definition formatTask (today : string) (task : Task) : string :=
  let lines :=
    ["ID: " +:+ ID task; "Title: " +:+ Title task;
     "Status: " +:+ Status task; "Priority: " +:+ Priority task]
    ++ (if String.eqb (Description task) "" then []
        else ["Description: " +:+ Description task])
    ++ (if String.eqb (DueDate task) "" then []
        else ("Due Date: " +:+ DueDate task)
             :: (if Go.str_lt (DueDate task) today
                    && negb (String.eqb (Status task) "done")
                    && negb (String.eqb (Status task) "cancelled")
                 then ["** OVERDUE **"] else []))
    ++ (if (0 <? length (Tags task))%nat
        then ["Tags: " +:+ Go.Join (Tags task) ", "] else [])
    ++ (if String.eqb (Notes task) "" then [] else ["Notes: " +:+ Notes task])
    ++ (if String.eqb (GoalID task) "" then []
        else ["Goal ID: " +:+ GoalID task])
    ++ ["Created: " +:+ CreatedAt task; "Updated: " +:+ UpdatedAt task] in
  Go.Join lines Go.nl.

Fixpoint find_task (id : string) (tasks : list Task) : option Task :=
  match tasks with
  | [] => None
  | task :: rest => if String.eqb (ID task) id then Some task else find_task id rest
  end.

(** [get]. *)
Definition get (disk : file (list Task)) (args : gmap string value)
           (today : string) : ToolResult :=
  let id := arg_string args "id" in
  if String.eqb id "" then ErrorResult "id is required for get"
  else
    match loadTasks disk with
    | inl err => ErrorResult ("failed to load tasks: " +:+ err)
    | inr tasks =>
        match find_task id tasks with
        | Some task => SilentResult (formatTask today task)
        | None => SilentResult ("No task found with ID '" +:+ id +:+ "'")
        end
    end.

(** The field assignments of [update] on the task it found. *)
Definition apply_update (args : gmap string value) (now : string) (task : Task)
  : Task :=
  let nonempty (o : option string) (old : string) :=
    match o with
    | Some s => if String.eqb s "" then old else s
    | None => old
    end in
  {| ID := ID task;
     Title := nonempty (arg_string_ok args "title") (Title task);
     Description := default (Description task) (arg_string_ok args "description");
     Status := nonempty (arg_string_ok args "status") (Status task);
     Priority := nonempty (arg_string_ok args "priority") (Priority task);
     DueDate := default (DueDate task) (arg_string_ok args "due_date");
     Tags := match args !! "tags" with
             | Some (VArray _) => arg_tags args
             | _ => Tags task
             end;
     Notes := default (Notes task) (arg_string_ok args "notes");
     GoalID := default (GoalID task) (arg_string_ok args "goal_id");
     CreatedAt := CreatedAt task;
     UpdatedAt := now |}.

Fixpoint update_first (id : string) (f : Task → Task) (tasks : list Task)
  : list Task * bool :=
  match tasks with
  | [] => ([], false)
  | task :: rest =>
      if String.eqb (ID task) id then (f task :: rest, true)
      else let '(rest', found) := update_first id f rest in (task :: rest', found)
  end.

(** [update]. *)
Definition update (fp : string) (disk : file (list Task))
           (args : gmap string value) (now : string)
  : ToolResult * file (list Task) :=
  let id := arg_string args "id" in
  if String.eqb id "" then (ErrorResult "id is required for update", disk)
  else
    match disk with
    | NoFile => (ErrorResult ("failed to load tasks: " +:+ ErrNotExist fp), disk)
    | BadJSON err _ => (ErrorResult ("corrupted tasks file: " +:+ err), disk)
    | Stored tasks =>
        let '(tasks', found) := update_first id (apply_update args now) tasks in
        if found then (SilentResult ("Task '" +:+ id +:+ "' updated"), Stored tasks')
        else (SilentResult ("No task found with ID '" +:+ id +:+ "'"), disk)
    end.

(** [complete] and [cancelTask]. *)
Definition complete (fp : string) (disk : file (list Task))
           (args : gmap string value) (now : string) :=
  if String.eqb (arg_string args "id") ""
  then (ErrorResult "id is required for complete", disk)
  else update fp disk (<["status" := VString "done"]> args) now.

Definition cancelTask (fp : string) (disk : file (list Task))
           (args : gmap string value) (now : string) :=
  if String.eqb (arg_string args "id") ""
  then (ErrorResult "id is required for cancel", disk)
  else update fp disk (<["status" := VString "cancelled"]> args) now.

(** [del]. *)
Definition del (fp : string) (disk : file (list Task)) (args : gmap string value)
  : ToolResult * file (list Task) :=
  let id := arg_string args "id" in
  if String.eqb id "" then (ErrorResult "id is required for delete", disk)
  else
    match disk with
    | NoFile => (ErrorResult ("failed to load tasks: " +:+ ErrNotExist fp), disk)
    | BadJSON err _ => (ErrorResult ("corrupted tasks file: " +:+ err), disk)
    | Stored tasks =>
        let found := existsb (fun task => String.eqb (ID task) id) tasks in
        let filtered := filter (fun task => ID task ≠ id) tasks in
        if found then (SilentResult ("Task '" +:+ id +:+ "' deleted"), Stored filtered)
        else (SilentResult ("No task found with ID '" +:+ id +:+ "'"), disk)
    end.

(** A lower-case hexadecimal digit, and a test of all bytes of a string. *)
Definition is_hex_lower (c : ascii) : bool :=
  let n := nat_of_ascii c in
  ((48 <=? n)%nat && (n <=? 57)%nat) || ((97 <=? n)%nat && (n <=? 102)%nat).

Fixpoint all_bytes (P : ascii → bool) (s : string) : bool :=
  match s with
  | EmptyString => true
  | String c rest => P c && all_bytes P rest
  end.

(** A task that [list] prints: neither done nor cancelled. *)
Definition is_active (task : Task) : bool :=
  negb (String.eqb (Status task) "done" || String.eqb (Status task) "cancelled").

(** A line of the listing that carries the overdue tag. *)
Definition tagged (line : string) : bool := Go.HasSuffix line " [OVERDUE]".

(** Tasks of the examples: a pending task due on 9 June 2024 and the same
    task with a status outside the four the tool's schema lists. *)
Definition pay_bill : Task :=
  mkTask "a1b2c3d4e5f6" "pay bill" "" "pending" "medium" "2024-06-09" [] "" ""
         "2024-06-01T10:00:00Z" "2024-06-01T10:00:00Z".

Definition block_args : gmap string value :=
  <["action" := VString "update"]>
    (<["id" := VString "a1b2c3d4e5f6"]> (<["status" := VString "blocked"]> ∅)).

Section Listing.
Variable strings_ToUpper : string → string.

(** The line [list] prints for an active task. *)
Definition task_line (today : string) (task : Task) : string :=
  "- [" +:+ strings_ToUpper (Status task) +:+ "] " +:+ Title task
  +:+ " (ID: " +:+ ID task +:+ ", status: " +:+ Status task
  +:+ ", priority: " +:+ Priority task
  +:+ (if String.eqb (DueDate task) "" then "" else ", due: " +:+ DueDate task)
  +:+ (if String.eqb (GoalID task) "" then "" else ", goal: " +:+ GoalID task)
  +:+ ")" +:+ (if is_overdue today task then " [OVERDUE]" else "").

(** One iteration of the loop of [list]: the lines so far and
    [overdueCount]. *)
Definition list_step (today : string) (acc : list string * Z) (task : Task)
  : list string * Z :=
  let '(lines, overdueCount) := acc in
  if String.eqb (Status task) "done" || String.eqb (Status task) "cancelled"
  then acc
  else (lines ++ [task_line today task],
        if is_overdue today task then overdueCount + 1 else overdueCount).

Definition list_header (lines : list string) (overdueCount : Z) : string :=
  Go.itoa (Z.of_nat (length lines)) +:+ " active task(s)"
  +:+ (if 0 <? overdueCount
       then " (" +:+ Go.itoa overdueCount +:+ " overdue)" else "").

(** [list]. *)
Definition list (disk : file (list Task)) (today : string) : ToolResult :=
  match loadTasks disk with
  | inl err => ErrorResult ("failed to load tasks: " +:+ err)
  | inr tasks =>
      if (length tasks =? 0)%nat then SilentResult "No tasks found"
      else
        let '(lines, overdueCount) := foldl (list_step today) ([], 0) tasks in
        if (length lines =? 0)%nat then SilentResult "No active tasks"
        else SilentResult (list_header lines overdueCount +:+ ":" +:+ Go.nl
                           +:+ Go.Join lines Go.nl)
  end.

End Listing.

End Tasks.

(** ** Go's [strings.EqualFold] *)

Module GoStrings.

Definition byte (c : ascii) : Z := Z.of_N (N_of_ascii c).
Definition RuneSelf : Z := 128.
Definition RuneError : Z := 65533.

Fixpoint drop_bytes (n : nat) (s : string) : string :=
  match n, s with
  | S n', String _ rest => drop_bytes n' rest
  | _, _ => s
  end.

(** The [first] table of package [utf8]: an ASCII byte, an invalid lead
    byte, or a lead byte with the sequence length and the range accepted
    for the second byte. *)
Inductive first_info :=
| AsciiByte
| Invalid
| Lead (size : nat) (lo hi : Z).

Definition first (b : Z) : first_info :=
  if b <? 128 then AsciiByte
  else if b <? 194 then Invalid
  else if b <? 224 then Lead 2 128 191
  else if b =? 224 then Lead 3 160 191
  else if b <? 237 then Lead 3 128 191
  else if b =? 237 then Lead 3 128 159
  else if b <? 240 then Lead 3 128 191
  else if b =? 240 then Lead 4 144 191
  else if b <? 244 then Lead 4 128 191
  else if b =? 244 then Lead 4 128 143
  else Invalid.

Definition cont (b : Z) : Z := Z.land b 63.

(** [utf8.DecodeRuneInString]: the rune and its width in bytes. *)
Definition DecodeRuneInString (s : string) : Z * nat :=
  match s with
  | EmptyString => (RuneError, O)
  | String c0 rest =>
      let s0 := byte c0 in
      match first s0 with
      | AsciiByte => (s0, 1%nat)
      | Invalid => (RuneError, 1%nat)
      | Lead sz lo hi =>
          if (String.length s <? sz)%nat then (RuneError, 1%nat)
          else
            match rest with
            | EmptyString => (RuneError, 1%nat)
            | String c1 rest1 =>
                let s1 := byte c1 in
                if (s1 <? lo) || (hi <? s1) then (RuneError, 1%nat)
                else if (sz <=? 2)%nat then
                  (Z.lor (Z.shiftl (Z.land s0 31) 6) (cont s1), 2%nat)
                else
                  match rest1 with
                  | EmptyString => (RuneError, 1%nat)
                  | String c2 rest2 =>
                      let s2 := byte c2 in
                      if (s2 <? 128) || (191 <? s2) then (RuneError, 1%nat)
                      else if (sz <=? 3)%nat then
                        (Z.lor (Z.lor (Z.shiftl (Z.land s0 15) 12)
                                      (Z.shiftl (cont s1) 6)) (cont s2), 3%nat)
                      else
                        match rest2 with
                        | EmptyString => (RuneError, 1%nat)
                        | String c3 _ =>
                            let s3 := byte c3 in
                            if (s3 <? 128) || (191 <? s3) then (RuneError, 1%nat)
                            else
                              (Z.lor (Z.lor (Z.lor (Z.shiftl (Z.land s0 7) 18)
                                                   (Z.shiftl (cont s1) 12))
                                            (Z.shiftl (cont s2) 6)) (cont s3),
                               4%nat)
                        end
                  end
            end
      end
  end.

(** The runes of a string, as a [range] loop over it yields them: every
    byte that does not start a valid UTF-8 sequence comes out as U+FFFD. *)
Fixpoint runes_fuel (fuel : nat) (s : string) : list Z :=
  match fuel, s with
  | S fuel', String _ _ =>
      let '(r, size) := DecodeRuneInString s in
      r :: runes_fuel fuel' (drop_bytes size s)
  | _, _ => []
  end.

Definition runes (s : string) : list Z := runes_fuel (String.length s) s.

(** The ASCII test of [EqualFold] once the two runes are ordered:
    ['A' <= sr && sr <= 'Z' && tr == sr+'a'-'A']. *)
Definition ascii_case_pair (sr tr : Z) : bool :=
  (65 <=? sr) && (sr <=? 90) && (tr =? sr + 32).

Section Fold.
(** The general case: walking [unicode.SimpleFold] from the smaller rune
    [sr] while the result is below [tr], and testing whether the walk
    lands on [tr].  The folding tables are the Unicode library's. *)
Variable simple_fold_reaches : Z → Z → bool.

(** The comparison of two distinct runes. *)
Definition runes_fold_equal (sr0 tr0 : Z) : bool :=
  let sr := Z.min sr0 tr0 in
  let tr := Z.max sr0 tr0 in
  if tr <? RuneSelf then ascii_case_pair sr tr
  else simple_fold_reaches sr tr.

(** The loop after the label [hasUnicode]; [fuel] bounds the number of
    runes of [s]. *)
Fixpoint equalFold_unicode (fuel : nat) (s t : string) : bool :=
  match s with
  | EmptyString => (String.length t =? 0)%nat
  | String _ _ =>
      match fuel with
      | O => false
      | S fuel' =>
          let '(sr, size) := DecodeRuneInString s in
          match t with
          | EmptyString => false
          | String d t1 =>
              let '(tr, t') :=
                if byte d <? RuneSelf then (byte d, t1)
                else let '(r, sz) := DecodeRuneInString t in
                     (r, drop_bytes sz t) in
              if tr =? sr then equalFold_unicode fuel' (drop_bytes size s) t'
              else if runes_fold_equal sr tr
                   then equalFold_unicode fuel' (drop_bytes size s) t'
                   else false
          end
      end
  end.

(** [strings.EqualFold]: the byte loop for ASCII, leaving for the rune
    loop at the first byte that is not ASCII. *)
Fixpoint EqualFold (s t : string) : bool :=
  match s, t with
  | String a s', String b t' =>
      let sr := byte a in
      let tr := byte b in
      if RuneSelf <=? Z.lor sr tr then equalFold_unicode (String.length s) s t
      else if tr =? sr then EqualFold s' t'
      else if ascii_case_pair (Z.min sr tr) (Z.max sr tr) then EqualFold s' t'
      else false
  | EmptyString, EmptyString => true
  | _, _ => false
  end.

(** Equality under case folding in the words of the spec, to be compared
    with [EqualFold]: two runes match when they are equal or one another's
    case, and two strings when they have the same number of runes and match
    rune by rune. *)
Definition rune_fold_eq (a b : Z) : bool := (b =? a) || runes_fold_equal a b.

Definition fold_equal (s t : string) : Prop :=
  Forall2 (fun a b => rune_fold_eq a b = true) (runes s) (runes t).
End Fold.

(** Two bytes that are equal or the two cases of one ASCII letter. *)
Definition same_letter (a b : ascii) : Prop :=
  a = b ∨ ascii_case_pair (Z.min (byte a) (byte b)) (Z.max (byte a) (byte b)) = true.

(** Two strings that differ at most in the case of ASCII letters. *)
Fixpoint case_variant (s t : string) : Prop :=
  match s, t with
  | EmptyString, EmptyString => True
  | String a s', String b t' => same_letter a b ∧ case_variant s' t'
  | _, _ => False
  end.

(** A string that holds ASCII bytes only. *)
Fixpoint is_ascii (s : string) : bool :=
  match s with
  | EmptyString => true
  | String c rest => (byte c <? 128) && is_ascii rest
  end.

End GoStrings.

(** ** C7, C10: the webhook channel *)

(** Modelled from the spec: [bus.InboundMessage] is declared outside the
    files at hand; the spec gives
    [{channel, sender_id, chat_id, content, attachments?, metadata}]. *)
Record InboundMessage := mkInbound {
  in_Channel : string;
  in_SenderID : string;
  in_ChatID : string;
  in_Content : string;
  in_Media : list string;
  in_Metadata : gmap string string
}.

Module Webhook.

Record webhookPayload := mkPayload {
  Source : string;
  Event : string;
  Content : string;
  Metadata : gmap string string
}.

(** The field of [config.WebhookConfig] the handler reads. *)
Record WebhookConfig := mkConfig {
  Secret : string
}.

(** What the handler reads of an [http.Request]: the method, the
    Authorization header ([Header.Get], empty when absent) and the body as
    [io.ReadAll] returns it (an error text on the left). *)
Record Request := mkRequest {
  Method : string;
  Authorization : string;
  Body : string + string
}.

Record Response := mkResponse {
  StatusCode : Z;
  ResponseBody : string
}.

(** The raw string literal the handler writes on success:
    an object with the one member status, whose value is ok. *)
Definition status_ok : string :=
  "{" +:+ Go.quoted "status" +:+ ":" +:+ Go.quoted "ok" +:+ "}".

(** [http.Error]: the status and the message followed by a line feed. *)
Definition http_Error (msg : string) (code : Z) : Response :=
  mkResponse code (msg +:+ Go.nl).

(** Modelled from the spec: [BaseChannel.HandleMessage] is declared outside
    the files at hand.  The webhook channel is built with the name
    ["webhook"] and no allow-list, and the adapter turns the call into an
    [InboundMessage] on the bus. *)
Definition HandleMessage (senderID chatID content : string) (media : list string)
           (metadata : gmap string string) : InboundMessage :=
  mkInbound "webhook" senderID chatID content media metadata.

(** [processEvent]. *)
Definition processEvent (payload : webhookPayload) : InboundMessage :=
  let content := "[Webhook: " +:+ Source payload +:+ "/" +:+ Event payload
                 +:+ "] " +:+ Content payload in
  let senderID := "webhook:" +:+ Source payload in
  let chatID := "webhook:" +:+ Source payload +:+ ":" +:+ Event payload in
  let metadata : gmap string string :=
    <["platform" := "webhook"]>
      (<["source" := Source payload]> (<["event" := Event payload]> ∅)) in
  HandleMessage senderID chatID content [] (Metadata payload ∪ metadata).

(** Data of the examples: the push event of the spec's scenario, the body
    that carries it, and a decoder that knows this one body. *)
Definition push_event : webhookPayload := mkPayload "gh" "push" "ok" ∅.

Definition push_body : string :=
  "{" +:+ Go.quoted "source" +:+ ":" +:+ Go.quoted "gh" +:+ ","
  +:+ Go.quoted "event" +:+ ":" +:+ Go.quoted "push" +:+ ","
  +:+ Go.quoted "content" +:+ ":" +:+ Go.quoted "ok" +:+ "}".

Definition decode_push (body : string) : string + webhookPayload :=
  if String.eqb body push_body then inr push_event
  else inl "unexpected end of JSON input".

Section Handler.
Variable simple_fold_reaches : Z → Z → bool.
(** [json.Unmarshal] into a [webhookPayload]: an error text on the left. *)
Variable json_Unmarshal : string → string + webhookPayload.

Definition authorized (cfg : WebhookConfig) (r : Request) : bool :=
  String.eqb (Secret cfg) ""
  || GoStrings.EqualFold simple_fold_reaches (Authorization r)
                         ("Bearer " +:+ Secret cfg).

(** [handler]: the response written and, when the event is accepted, the
    payload handed to the [processEvent] goroutine. *)
Definition handler (cfg : WebhookConfig) (r : Request)
  : Response * option webhookPayload :=
  if negb (String.eqb (Method r) "POST") then
    (http_Error "Method not allowed" 405, None)
  else if negb (authorized cfg r) then
    (http_Error "Unauthorized" 401, None)
  else
    match Body r with
    | inl _ => (http_Error "Bad request" 400, None)
    | inr body =>
        match json_Unmarshal body with
        | inl _ => (http_Error "Bad request" 400, None)
        | inr payload =>
            if String.eqb (Content payload) "" then
              (http_Error "content is required" 400, None)
            else
              (mkResponse 200 status_ok, Some payload)
        end
    end.

(** The inbound message a request ends up putting on the bus. *)
Definition inbound_of (cfg : WebhookConfig) (r : Request) : option InboundMessage :=
  processEvent <$> (handler cfg r).2.

(** The bearer check in the words of the spec, to be compared with
    [authorized]: no secret is configured, or the header equals
    "Bearer <secret>" rune by rune up to case. *)
Definition bearer_matches (cfg : WebhookConfig) (r : Request) : Prop :=
  Secret cfg = ""
  ∨ GoStrings.fold_equal simple_fold_reaches (Authorization r)
                         ("Bearer " +:+ Secret cfg).
End Handler.

(** Data of the examples: a secret and a header that end in two different
    bytes, neither of which is valid UTF-8. *)
Definition secret_FE : WebhookConfig := mkConfig (String (ascii_of_nat 254) "").

Definition bearer_FF : Request :=
  mkRequest "POST" ("Bearer " +:+ String (ascii_of_nat 255) "") (inr push_body).

End Webhook.

(** ** C8, C9: the sentinel *)

Module Sentinel.

Record SentinelState := mkState {
  LastCheck : Z;
  UptimeSeconds : Z;
  CPUTempC : float;
  RAMTotalMB : Z;
  RAMAvailableMB : Z;
  RAMUsedPercent : float;
  DiskTotalGB : float;
  DiskFreeGB : float;
  DiskUsedPercent : float;
  Alerts : list string
}.

(** What [readCPUTemp], [readRAM] and [readDisk] returned on a tick. *)
Record readings := mkReadings {
  r_cpu : float;
  r_ramTotalMB : Z;
  r_ramAvailableMB : Z;
  r_ramUsedPct : float;
  r_diskTotalGB : float;
  r_diskFreeGB : float;
  r_diskUsedPct : float
}.

(** [Service]: [bus] records whether [SetBus] supplied a bus,
    [lastAlertTime] maps an alert string to an instant in nanoseconds. *)
Record Service := mkService {
  Workspace : string;
  bus : bool;
  startTime : Z;
  lastAlertTime : gmap string Z
}.

(** The service with what it has done so far: the number of clock readings
    taken, the messages published on the bus (with the instant the rate
    limiter recorded for them) and the file-system calls made, newest
    last. *)
Record World := mkWorld {
  svc : Service;
  reads : nat;
  published : list (Z * OutboundMessage);
  fs_log : list AtomicWrite.fs_op
}.

Definition Hour : Z := 3600 * 1000000000.

(** [NewService]. *)
Definition NewService (workspace : string) : Service :=
  mkService workspace false 0 ∅.

(** [SetBus]. *)
Definition SetBus (s : Service) (b : bool) : Service :=
  mkService (Workspace s) b (startTime s) (lastAlertTime s).

(** [parseLastChannel]. *)
Definition parseLastChannel (lastChannel : string) : string * string :=
  if String.eqb lastChannel "" then ("", "")
  else
    match Reminder.split_first ":" lastChannel with
    | Some (platform, userID) =>
        if String.eqb platform "" || String.eqb userID "" then ("", "")
        else (platform, userID)
    | None => ("", "")
    end.

(** The prefix [sendAlert] puts before the alert. *)
Definition warning_prefix : string := "⚠️ ".

Section WithEnvironment.
(** [time.Now()], as the sequence of its successive readings. *)
Variable clock : nat → Z.
(** [state.Manager.GetLastChannel()], read at a given moment. *)
Variable GetLastChannel : nat → string.
(** [constants.IsInternalChannel]. *)
Variable IsInternalChannel : string → bool.
(** [fmt.Sprintf] of a float under the verb with one decimal. *)
Variable format_1f : float → string.
Variable json_MarshalIndent : SentinelState → string.
Variable filepath_Join : string → string → string.

(** Whether [sendAlert] gets past its delivery checks, and to whom. *)
Definition delivery_target (s : Service) (lastChannel : string)
  : option (string * string) :=
  if negb (bus s) then None
  else if String.eqb lastChannel "" then None
  else
    let '(platform, userID) := parseLastChannel lastChannel in
    if String.eqb platform "" || String.eqb userID ""
       || IsInternalChannel platform
    then None
    else Some (platform, userID).

(** The part of [sendAlert] after the rate limiter let the alert
    through; [n] clock readings have been taken so far. *)
Definition emit (w : World) (n : nat) (alert : string) : World :=
  let s := svc w in
  let t_store := clock n in
  let s' := mkService (Workspace s) (bus s) (startTime s)
                      (<[alert := t_store]> (lastAlertTime s)) in
  match delivery_target s (GetLastChannel (S n)) with
  | None => mkWorld s' (S n) (published w) (fs_log w)
  | Some (platform, userID) =>
      mkWorld s' (S n)
              (published w ++
                 [(t_store, mkOutbound platform userID (warning_prefix +:+ alert))])
              (fs_log w)
  end.

(** [sendAlert]; [time.Since] reads the clock only when the alert has an
    entry in [lastAlertTime]. *)
Definition sendAlert (w : World) (alert : string) : World :=
  match lastAlertTime (svc w) !! alert with
  | Some lastTime =>
      if clock (reads w) - lastTime <? Hour then
        mkWorld (svc w) (S (reads w)) (published w) (fs_log w)
      else emit w (S (reads w)) alert
  | None => emit w (reads w) alert
  end.

(** The threshold checks of [collect]. *)
Definition build_alerts (r : readings) : list string :=
  (if PrimFloat.ltb 80 (r_cpu r)
   then ["CPU temperatura alta: " +:+ format_1f (r_cpu r) +:+ "°C"] else [])
  ++ (if PrimFloat.ltb 90 (r_ramUsedPct r)
      then ["RAM crítica: " +:+ format_1f (r_ramUsedPct r) +:+ "% usada"] else [])
  ++ (if PrimFloat.ltb 95 (r_diskUsedPct r)
      then ["Disco casi lleno: " +:+ format_1f (r_diskUsedPct r) +:+ "% usado"]
      else []).

(** The snapshot [collect] builds from two clock readings and the
    metrics. *)
Definition snapshot (s : Service) (t_now t_since : Z) (r : readings)
  : SentinelState :=
  {| LastCheck := t_now;
     UptimeSeconds := Z.quot (t_since - startTime s) 1000000000;
     CPUTempC := r_cpu r;
     RAMTotalMB := r_ramTotalMB r;
     RAMAvailableMB := r_ramAvailableMB r;
     RAMUsedPercent := r_ramUsedPct r;
     DiskTotalGB := r_diskTotalGB r;
     DiskFreeGB := r_diskFreeGB r;
     DiskUsedPercent := r_diskUsedPct r;
     Alerts := build_alerts r |}.

Definition state_file (s : Service) : string :=
  filepath_Join (filepath_Join (Workspace s) "state") "sentinel.json".

(** [saveState]. *)
Definition saveState (s : Service) (st : SentinelState)
  : list AtomicWrite.fs_op :=
  AtomicWrite.saveState (state_file s) (json_MarshalIndent st).

(** [collect]: one tick. *)
Definition collect (w : World) (r : readings) : World :=
  let st := snapshot (svc w) (clock (reads w)) (clock (S (reads w))) r in
  let w1 := mkWorld (svc w) (S (S (reads w))) (published w)
                    (fs_log w ++ saveState (svc w) st) in
  foldl sendAlert w1 (Alerts st).

(** What happens to a running service: a tick of the loop, or a call of
    [SetBus]. *)
Inductive event :=
| Tick (r : readings)
| BusSet (b : bool).

Definition step (w : World) (e : event) : World :=
  match e with
  | Tick r => collect w r
  | BusSet b => mkWorld (SetBus (svc w) b) (reads w) (published w) (fs_log w)
  end.

Definition run (w : World) (events : list event) : World :=
  foldl step w events.

(** The number of ticks among the events. *)
Definition is_tick (e : event) : bool :=
  match e with Tick _ => true | BusSet _ => false end.

Definition ticks (events : list event) : nat :=
  length (filter (fun e => is_tick e = true) events).

(** The clock never runs backwards. *)
Definition monotone : Prop := ∀ i j : nat, (i <= j)%nat → clock i <= clock j.

(** What the rate limiter maintains: recorded instants are in the past,
    every published alert has an entry at or after its instant, and two
    published alerts with the same content are an hour apart. *)
Definition inv (w : World) : Prop :=
  (∀ a t0, lastAlertTime (svc w) !! a = Some t0 → t0 <= clock (reads w))
  ∧ (∀ t m, (t, m) ∈ published w →
            ∃ a t0, out_Content m = warning_prefix +:+ a
                    ∧ lastAlertTime (svc w) !! a = Some t0 ∧ t <= t0)
  ∧ (∀ i j t1 m1 t2 m2,
       (i < j)%nat → published w !! i = Some (t1, m1) →
       published w !! j = Some (t2, m2) →
       out_Content m1 = out_Content m2 → t1 + Hour <= t2).

(** The published alerts with the given content whose recorded instant lies
    in the window of one hour that starts at [x]. *)
Definition in_window (content : string) (x : Z) (w : World)
  : list (Z * OutboundMessage) :=
  filter (fun p => out_Content p.2 = content ∧ x <= p.1 < x + Hour) (published w).

(** Events among which no [SetBus] supplies a bus. *)
Definition bus_never_set (events : list event) : Prop :=
  Forall (fun e => e ≠ BusSet true) events.

(** A published alert that went to the external channel of some reading of
    the last channel. *)
Definition well_targeted (m : OutboundMessage) : Prop :=
  IsInternalChannel (out_Channel m) = false
  ∧ out_Channel m ≠ "" ∧ out_ChatID m ≠ ""
  ∧ Reminder.has_byte ":" (out_Channel m) = false
  ∧ (∃ n, GetLastChannel n = out_Channel m +:+ ":" +:+ out_ChatID m)
  ∧ (∃ alert, out_Content m = warning_prefix +:+ alert).

End WithEnvironment.

(** [Start]: the world of a service whose loop is about to run its first
    [collect]; the start time is the first clock reading. *)
Definition start (clock : nat → Z) (workspace : string) (b : bool) : World :=
  mkWorld (mkService workspace b (clock O) ∅) 1%nat [] [].

(** The environment of the examples: a clock that advances one second per
    reading, the channels the spec names as internal, and readings with 99 %
    of the memory in use. *)
Definition second_clock (n : nat) : Z := Z.of_nat n * 1000000000.

Definition spec_internal (platform : string) : bool :=
  String.eqb platform "cron" || String.eqb platform "webhook".

Definition ram_99 : readings :=
  mkReadings 45 4096 41 99 100 50 50.

Definition slash_join (a b : string) : string := a +:+ "/" +:+ b.

End Sentinel.

(** * Properties *)

(** ** Arithmetic on [int64] and strings *)

Lemma wrap64_small z : Go.in_int64 z → Go.wrap64 z = z.
Proof.
  unfold Go.in_int64, Go.MinInt64, Go.MaxInt64, Go.wrap64. intros Hz.
  rewrite Z.mod_small by lia. lia.
Qed.

Lemma wrap64_add_l x y : Go.wrap64 (Go.wrap64 x + y) = Go.wrap64 (x + y).
Proof.
  unfold Go.wrap64. f_equal.
  replace ((x + 2 ^ 63) mod 2 ^ 64 - 2 ^ 63 + y + 2 ^ 63)
    with ((x + 2 ^ 63) mod 2 ^ 64 + y) by lia.
  rewrite Zplus_mod_idemp_l. f_equal. lia.
Qed.

Lemma wrap64_add_r x y : Go.wrap64 (x + Go.wrap64 y) = Go.wrap64 (x + y).
Proof. rewrite (Z.add_comm x), wrap64_add_l. f_equal. lia. Qed.

Lemma add64_comm a b : Go.add64 a b = Go.add64 b a.
Proof. unfold Go.add64. f_equal. lia. Qed.

Lemma add64_assoc a b c : Go.add64 a (Go.add64 b c) = Go.add64 (Go.add64 a b) c.
Proof.
  unfold Go.add64. rewrite wrap64_add_r, wrap64_add_l. f_equal. lia.
Qed.

Lemma append_cons c (s t : string) : String c s +:+ t = String c (s +:+ t).
Proof. reflexivity. Qed.

Lemma append_nil_l (s : string) : "" +:+ s = s.
Proof. reflexivity. Qed.

Lemma append_length (s t : string) :
  String.length (s +:+ t) = (String.length s + String.length t)%nat.
Proof.
  induction s as [|c s IH]; [done |]. rewrite append_cons. simpl. by rewrite IH.
Qed.

Lemma append_nil_r (s : string) : s +:+ "" = s.
Proof. induction s as [|c s IH]; [done |]. rewrite append_cons. by f_equal. Qed.

Lemma append_assoc (s t u : string) : (s +:+ t) +:+ u = s +:+ (t +:+ u).
Proof. induction s as [|c s IH]; [done |]. rewrite !append_cons. by f_equal. Qed.

Lemma append_inj_l (p s t : string) : p +:+ s = p +:+ t → s = t.
Proof.
  induction p as [|c p IH]; [done |]. rewrite !append_cons. intros [= Heq]. auto.
Qed.

Lemma tmp_path_differs (fp : string) : fp +:+ ".tmp" ≠ fp.
Proof.
  intros Heq. apply (f_equal String.length) in Heq.
  rewrite append_length in Heq. simpl in Heq. lia.
Qed.

Lemma eqb_false_iff (s t : string) : String.eqb s t = false ↔ s ≠ t.
Proof. apply String.eqb_neq. Qed.

(** ** Temp-then-rename writes *)

Section AtomicWriteFacts.
Import AtomicWrite.

Lemma never_partial_tmp_rename σ fp data :
  never_partial σ fp data [WriteFile (fp +:+ ".tmp") data; Rename (fp +:+ ".tmp") fp].
Proof.
  pose proof (tmp_path_differs fp) as Hne.
  intros σ' Hin. simpl in Hin.
  rewrite lookup_insert_eq in Hin.
  rewrite !elem_of_cons, !elem_of_app, !elem_of_cons, list_elem_of_fmap in Hin.
  destruct Hin as [-> | [(pre & -> & _) | [-> | [-> | [-> | Hnil]]]]].
  - by left.
  - left. by rewrite lookup_insert_ne.
  - left. by rewrite lookup_insert_ne.
  - right. by rewrite lookup_insert_eq.
  - right. by rewrite lookup_insert_eq.
  - by apply elem_of_nil in Hnil.
Qed.

(** The reminder file, the telemetry file and the sentinel snapshot are
    replaced in one step. *)
Lemma reminders_write_atomic σ fp data :
  never_partial σ fp data (saveRemindersLocked fp data).
Proof. apply never_partial_tmp_rename. Qed.

Lemma telemetry_write_atomic σ fp data :
  never_partial σ fp data (flushWrite fp data).
Proof. apply never_partial_tmp_rename. Qed.

Lemma sentinel_write_atomic σ fp data :
  never_partial σ fp data (saveState fp data).
Proof. apply never_partial_tmp_rename. Qed.

(** A direct [os.WriteFile] lets a reader see the file truncated. *)
Lemma direct_write_shows_truncated σ fp old data :
  σ !! fp = Some old → old ≠ "" → data ≠ "" →
  ¬ never_partial σ fp data [WriteFile fp data].
Proof.
  intros Hold Hne1 Hne2 Hnp.
  destruct (Hnp (<[fp := ""]> σ)) as [H | H].
  - simpl. apply elem_of_cons. right. apply elem_of_app. left.
    apply list_elem_of_fmap. exists "". split; [done |].
    destruct data; simpl; apply elem_of_cons; by left.
  - rewrite lookup_insert_eq, Hold in H. congruence.
  - rewrite lookup_insert_eq in H. congruence.
Qed.

(** C1 (evaluated on the code): saving snippets, tasks or notes over an
    existing file writes the final path directly, so a reader can see a
    file that holds neither the old nor the new contents; the write is not
    a temp-then-rename. *)
Theorem C1_direct_writes_not_atomic :
  let σ : gmap string string := {[ "store.json" := "[1]" ]} in
  saveSnippets "store.json" "[1,2]" = [WriteFile "store.json" "[1,2]"]
  ∧ saveTasks "store.json" "[1,2]" = [WriteFile "store.json" "[1,2]"]
  ∧ saveNotes "store.json" "[1,2]" = [WriteFile "store.json" "[1,2]"]
  ∧ <["store.json" := ""]> σ ∈ observable σ (saveSnippets "store.json" "[1,2]")
  ∧ ¬ never_partial σ "store.json" "[1,2]" (saveSnippets "store.json" "[1,2]")
  ∧ ¬ never_partial σ "store.json" "[1,2]" (saveTasks "store.json" "[1,2]")
  ∧ ¬ never_partial σ "store.json" "[1,2]" (saveNotes "store.json" "[1,2]").
Proof.
  intros σ.
  assert (Hnp : ¬ never_partial σ "store.json" "[1,2]"
                    [WriteFile "store.json" "[1,2]"]).
  { apply (direct_write_shows_truncated σ "store.json" "[1]");
      [apply lookup_singleton_eq | done | done]. }
  repeat split; try done.
  simpl. apply elem_of_cons. right. apply elem_of_cons. by left.
Qed.

End AtomicWriteFacts.

(** ** Reminder IDs *)

Section ReminderFacts.
Import Reminder.
Variable strings_ToLower : string → string.
Variable strings_TrimSpace : string → string.
Variable time_ParseDuration : string → string + Z.
Variable time_ParseRFC3339 : string → option Z.
Variable format_RFC3339 : Z → string.
Variable format_HHMM : Z → string.

Abbreviation start_step := (start_step time_ParseRFC3339).
Abbreviation StartPendingReminders := (StartPendingReminders time_ParseRFC3339).
Abbreviation parseDuration :=
  (parseDuration strings_ToLower strings_TrimSpace time_ParseDuration).
Abbreviation set :=
  (set strings_ToLower strings_TrimSpace time_ParseDuration
       format_RFC3339 format_HHMM).

(** The running maximum of the start-up loop only grows, and ends at or
    above the numeric ID of every reminder that has not fired. *)
Lemma start_fold_max_mono now l acc :
  acc.1.1 <= (foldl (start_step now) acc l).1.1.
Proof.
  revert acc. induction l as [|r l IH]; intros acc; simpl; [lia |].
  etrans; [| apply IH].
  destruct acc as [[m tm] dn]. unfold Reminder.start_step. simpl.
  destruct (Fired r); simpl; [lia |].
  assert (m <= match Go.Atoi (ID r) with
               | Some id => if m <? id then id else m
               | None => m
               end) as Hle.
  { destruct (Go.Atoi (ID r)) as [id|]; [| lia].
    destruct (Z.ltb_spec m id); lia. }
  destruct (time_ParseRFC3339 (DueAt r)) as [due|]; simpl; [| done].
  destruct (due - now <=? 0); simpl; done.
Qed.

Lemma start_fold_max_above now l acc r id :
  r ∈ l → Fired r = false → Go.Atoi (ID r) = Some id →
  id <= (foldl (start_step now) acc l).1.1.
Proof.
  revert acc. induction l as [|r0 l IH]; intros acc Hin Hf Hid.
  - by apply elem_of_nil in Hin.
  - apply elem_of_cons in Hin as [<- | Hin]; simpl.
    + etrans; [| apply start_fold_max_mono].
      destruct acc as [[m tm] dn]. unfold Reminder.start_step.
      rewrite Hf, Hid.
      assert (id <= (if m <? id then id else m)) as Hle
          by (destruct (Z.ltb_spec m id); lia).
      destruct (time_ParseRFC3339 (DueAt r)) as [due|]; simpl; [| done].
      destruct (due - now <=? 0); simpl; done.
    + by apply IH.
Qed.

(** Fired reminders do not take part in the maximum. *)
Lemma start_fold_all_fired now l acc :
  Forall (fun r => Fired r = true) l → foldl (start_step now) acc l = acc.
Proof.
  intros Hall. revert acc. induction Hall as [|r l Hr _ IH]; intros acc; [done |].
  simpl. rewrite <- (IH acc) at 2. f_equal.
  destruct acc as [[m tm] dn]. unfold Reminder.start_step. by rewrite Hr.
Qed.

(** After start-up the next ID is above the numeric ID of every reminder
    that has not fired. *)
Lemma start_nextID_above_unfired t disk now r id :
  r ∈ loadRemindersLocked disk → Fired r = false →
  Go.Atoi (ID r) = Some id → id < Go.MaxInt64 →
  (∀ r' id', r' ∈ loadRemindersLocked disk → Go.Atoi (ID r') = Some id' →
             id' < Go.MaxInt64) →
  id < nextID (StartPendingReminders t disk now).1.
Proof.
  intros Hin Hf Hid Hlt Hbound. unfold Reminder.StartPendingReminders.
  pose proof (start_fold_max_above now (loadRemindersLocked disk)
                (0, timers t, []) r id Hin Hf Hid) as Hge.
  assert (Hup : ∀ l acc, (∀ r' id', r' ∈ l → Go.Atoi (ID r') = Some id' →
                                    id' < Go.MaxInt64) →
                         acc.1.1 < Go.MaxInt64 →
                         (foldl (start_step now) acc l).1.1 < Go.MaxInt64).
  { clear. induction l as [|r0 l IH]; intros acc Hb Hacc; simpl; [done |].
    apply IH; [intros; eapply Hb; [by apply elem_of_cons; right | done] |].
    destruct acc as [[m tm] dn]. unfold Reminder.start_step. simpl in *.
    destruct (Fired r0); simpl; [done |].
    assert (match Go.Atoi (ID r0) with
            | Some id => if m <? id then id else m
            | None => m
            end < Go.MaxInt64) as Hlt.
    { destruct (Go.Atoi (ID r0)) as [id|] eqn:E; [| done].
      destruct (Z.ltb_spec m id); [| done].
      eapply Hb; [by apply elem_of_cons; left | done]. }
    destruct (time_ParseRFC3339 (DueAt r0)) as [due|]; simpl; [| done].
    destruct (due - now <=? 0); simpl; done. }
  specialize (Hup (loadRemindersLocked disk) (0, timers t, []) Hbound).
  destruct (foldl (start_step now) (0, timers t, []) (loadRemindersLocked disk))
    as [[m tm] dn] eqn:E.
  simpl in *. unfold Go.add64.
  assert (0 <= m) as H0.
  { pose proof (start_fold_max_mono now (loadRemindersLocked disk)
                  (0, timers t, [])) as Hm. rewrite E in Hm. done. }
  rewrite wrap64_small; [lia |].
  unfold Go.in_int64, Go.MinInt64, Go.MaxInt64 in *.
  specialize (Hup ltac:(lia)). lia.
Qed.

(** C2 (evaluated on the code): start-up skips fired reminders before it
    looks at their IDs, so when every stored reminder has fired the counter
    restarts at 1 and [set] hands out "1" again, whatever IDs the file
    already holds. *)
Theorem C2_fired_ids_are_reused t disk now now' args dur :
  Forall (fun r => Fired r = true) (loadRemindersLocked disk) →
  arg_string args "message" ≠ "" →
  arg_string args "duration" ≠ "" →
  parseDuration (arg_string args "duration") = inr dur →
  let t1 := (StartPendingReminders t disk now).1 in
  nextID t1 = 1
  ∧ stored_ids (set t1 disk args now').2 = stored_ids disk ++ ["1"].
Proof.
  intros Hall Hm Hd Hp t1.
  assert (Hn : nextID t1 = 1).
  { unfold t1, Reminder.StartPendingReminders.
    rewrite start_fold_all_fired by done. reflexivity. }
  split; [done |].
  unfold Reminder.set.
  apply eqb_false_iff in Hm, Hd. rewrite Hm, Hd. simpl.
  rewrite Hp, Hn. simpl.
  unfold stored_ids. simpl. by rewrite map_app.
Qed.

End ReminderFacts.

(** A reminder that reuses the ID of a fired one is never marked as fired:
    [fireReminder] stops at the first entry with that ID. *)
Lemma reused_id_stays_unfired t r_old r_new :
  Reminder.ID r_old = Reminder.ID r_new → Reminder.Fired r_old = true →
  (Reminder.fireReminder t (Stored [r_old; r_new]) (Reminder.ID r_new)
     (Reminder.Message r_new) (Reminder.Channel r_new) (Reminder.ChatID r_new)).2
  = Stored [r_old; r_new].
Proof.
  intros Hid Hf. unfold Reminder.fireReminder. simpl.
  rewrite Hid, String.eqb_refl. simpl.
  destruct r_old; simpl in *. by subst.
Qed.

Lemma C2_fired_ids_are_reused_witness :
  let t1 := (Reminder.StartPendingReminders (fun _ => None)
               (Reminder.NewReminderTool true) (Stored [Reminder.fired_one]) 0).1 in
  Reminder.nextID t1 = 1
  ∧ Reminder.stored_ids
      (Reminder.set id id Reminder.parse_30m (fun _ => "") (fun _ => "")
                    t1 (Stored [Reminder.fired_one]) Reminder.set_args 5).2
    = Reminder.stored_ids (Stored [Reminder.fired_one]) ++ ["1"].
Proof.
  apply (C2_fired_ids_are_reused id id Reminder.parse_30m (fun _ => None)
           (fun _ => "") (fun _ => "") (Reminder.NewReminderTool true)
           (Stored [Reminder.fired_one]) 0 5 Reminder.set_args
           (1800 * 1000000000)).
  - repeat constructor.
  - vm_compute. discriminate.
  - vm_compute. discriminate.
  - vm_compute. reflexivity.
Defined.

(** ** The telemetry ledger *)

Section TelemetryFacts.
Import Telemetry.
Context {Time : Type} `{Clock Time}.
Variable json_MarshalIndent : list DayBucket → string.

Lemma fb_add_bump a b p c t :
  fb_add (fb_bump a p c t) b = fb_bump (fb_add a b) p c t.
Proof.
  unfold fb_add, fb_bump. simpl.
  f_equal; rewrite <- !add64_assoc; f_equal; apply add64_comm.
Qed.

Lemma fb_add_comm_acc (a b acc : FeatureBucket) :
  fb_add a (fb_add b acc) = fb_add b (fb_add a acc).
Proof.
  unfold fb_add. simpl.
  f_equal; rewrite !add64_assoc; f_equal; apply add64_comm.
Qed.

Lemma sum_features_empty : sum_features ∅ = fb_zero.
Proof. apply map_fold_empty. Qed.

Lemma sum_features_insert_fresh (m : gmap string FeatureBucket) k fb :
  m !! k = None → sum_features (<[k := fb]> m) = fb_add fb (sum_features m).
Proof.
  intros Hk. unfold sum_features.
  apply (map_fold_insert_L (fun (_ : string) fb acc => fb_add fb acc)
           fb_zero k fb m); [| done].
  intros. apply fb_add_comm_acc.
Qed.

Lemma sum_features_insert_present (m : gmap string FeatureBucket) k old fb :
  m !! k = Some old →
  sum_features m = fb_add old (sum_features (delete k m))
  ∧ sum_features (<[k := fb]> m) = fb_add fb (sum_features (delete k m)).
Proof.
  intros Hk. split.
  - unfold sum_features.
    apply (map_fold_delete_L (fun (_ : string) fb acc => fb_add fb acc)
             fb_zero k old m); [| done].
    intros. apply fb_add_comm_acc.
  - rewrite <- insert_delete_eq.
    apply sum_features_insert_fresh, lookup_delete_eq.
Qed.

Lemma record_into_consistent feature p c t d :
  consistent d → consistent (record_into feature p c t d).
Proof.
  unfold consistent, record_into. simpl. intros ->.
  destruct (Features d !! feature) as [old|] eqn:E; simpl.
  - destruct (sum_features_insert_present (Features d) feature old
                (fb_bump old p c t) E) as [-> ->].
    by rewrite fb_add_bump.
  - rewrite sum_features_insert_fresh by done.
    rewrite fb_add_bump. f_equal.
    assert (fb_add fb_zero (sum_features (Features d)) = sum_features (Features d))
      as Hz; [| done].
    clear E. unfold sum_features.
    apply (map_fold_weak_ind (fun r _ => fb_add fb_zero r = r)); [done |].
    intros k x m r _ IH. by rewrite fb_add_comm_acc, IH.
Qed.

Lemma getOrCreateDay_consistent days date :
  Forall consistent days → Forall consistent (getOrCreateDay days date).1.
Proof.
  intros Hall. unfold getOrCreateDay.
  destruct (find_day date days); simpl; [done |].
  apply Forall_app_2; [done |]. constructor; [| constructor].
  unfold consistent. simpl. by rewrite sum_features_empty.
Qed.

Lemma Record_consistent t now feature p c tot :
  Forall consistent (data t) →
  Forall consistent (data (Record_ t now feature p c tot)).
Proof.
  intros Hall. unfold Record_.
  destruct ((tot =? 0) && (p =? 0) && (c =? 0)); [done |].
  pose proof (getOrCreateDay_consistent (data t) (FormatDate now) Hall) as Hg.
  destruct (getOrCreateDay (data t) (FormatDate now)) as [days i]. simpl in *.
  apply Forall_alter; [done |].
  intros d _ Hd. by apply record_into_consistent.
Qed.

Lemma run_consistent t calls :
  Forall consistent (data t) → Forall consistent (data (run t calls)).
Proof.
  revert t. induction calls as [|c calls IH]; intros t Hall; simpl; [done |].
  apply IH. by apply Record_consistent.
Qed.

(** The [int64] sum is the exact sum reduced to 64 bits. *)
Lemma sum_features_exact (m : gmap string FeatureBucket) :
  sum_features m
  = mkFB (Go.wrap64 (sum_field PromptTokens m))
         (Go.wrap64 (sum_field CompletionTokens m))
         (Go.wrap64 (sum_field TotalTokens m))
         (Go.wrap64 (sum_field Calls m)).
Proof.
  unfold sum_features, sum_field. rewrite !map_fold_foldr.
  induction (map_to_list m) as [|[k fb] l IH]; [done |].
  simpl. rewrite IH. unfold fb_add, Go.add64. simpl.
  by rewrite !wrap64_add_r.
Qed.

Lemma find_day_lookup date days i :
  find_day date days = Some i → ∃ d, days !! i = Some d ∧ Date d = date.
Proof.
  revert i. induction days as [|d days IH]; intros i; simpl; [done |].
  destruct (String.eqb_spec (Date d) date) as [Heq | Hne].
  - intros [= <-]. by exists d.
  - destruct (find_day date days) as [j|]; simpl; [| done].
    intros [= <-]. destruct (IH j eq_refl) as (d' & ? & ?). by exists d'.
Qed.

Lemma GetDay_elem t date d : GetDay t date = Some d → d ∈ data t ∧ Date d = date.
Proof.
  unfold GetDay. destruct (find_day date (data t)) as [i|] eqn:E; [| done].
  intros Hd. destruct (find_day_lookup _ _ _ E) as (d' & Hd' & Hdate).
  rewrite Hd in Hd'. injection Hd' as <-.
  split; [by eapply list_elem_of_lookup_2 | done].
Qed.

(** C4: after any sequence of [Record] calls on an empty tracker, every day
    bucket (today's, as [GetToday] returns it, among them) has totals equal
    to the field-wise [int64] sum of its feature buckets: prompt, completion
    and total tokens, and the call count.  Each total is the exact sum over
    the features reduced to 64 bits. *)
Theorem C4_totals_equal_sum_of_features (fp : string) (calls : list call) :
  let t := run (empty_tracker fp) calls in
  let holds (d : DayBucket) :=
    Totals d = sum_features (Features d)
    ∧ Calls (Totals d) = Calls (sum_features (Features d))
    ∧ PromptTokens (Totals d) = Go.wrap64 (sum_field PromptTokens (Features d))
    ∧ CompletionTokens (Totals d) = Go.wrap64 (sum_field CompletionTokens (Features d))
    ∧ TotalTokens (Totals d) = Go.wrap64 (sum_field TotalTokens (Features d))
    ∧ Calls (Totals d) = Go.wrap64 (sum_field Calls (Features d)) in
  Forall holds (data t) ∧ ∀ now, from_option holds True (GetToday t now).
Proof.
  intros t holds.
  assert (Hall : Forall consistent (data t)).
  { apply run_consistent. constructor. }
  assert (Himp : ∀ d, consistent d → holds d).
  { intros d Hd. unfold holds. rewrite Hd, sum_features_exact. simpl. done. }
  split.
  - eapply Forall_impl; [exact Hall | exact Himp].
  - intros now. unfold GetToday.
    destruct (GetDay t (FormatDate now)) as [d|] eqn:E; simpl; [| done].
    apply GetDay_elem in E as [Hin _].
    rewrite Forall_forall in Hall. by apply Himp, Hall.
Qed.

(** ** Pruning at flush *)

Lemma prune_keeps_recent days now keep :
  Forall (fun d => Go.str_lt (Date d) (FormatDate (AddDays now (- keep))) = false)
         (prune days now keep).
Proof.
  apply Forall_forall. intros d Hd. unfold prune in Hd.
  apply list_elem_of_filter in Hd as [Hge _].
  unfold Go.str_ge in Hge. unfold Go.str_lt.
  by destruct (String.ltb (Date d) (FormatDate (AddDays now (- keep)))).
Qed.

Lemma Record_dirty t now feature p c tot :
  dirty t = true ∨ ¬ (tot = 0 ∧ p = 0 ∧ c = 0) →
  dirty (Record_ t now feature p c tot) = true.
Proof.
  intros Hd. unfold Record_.
  destruct (Z.eqb_spec tot 0), (Z.eqb_spec p 0), (Z.eqb_spec c 0); simpl;
    try (by destruct (getOrCreateDay (data t) (FormatDate now))).
  destruct Hd as [Hd | Hd]; [done | tauto].
Qed.

Lemma run_dirty t calls :
  dirty t = true ∨ Exists counted calls → dirty (run t calls) = true.
Proof.
  revert t. induction calls as [|c calls IH]; intros t Hd; simpl.
  - destruct Hd as [Hd | Hd]; [done | by apply Exists_nil in Hd].
  - apply IH. destruct Hd as [Hd | Hd].
    + left. apply Record_dirty. by left.
    + apply Exists_cons in Hd as [Hc | Hrest]; [| by right].
      left. apply Record_dirty. by right.
Qed.

(** C3 as amended: when at least one [Record] call that counts precedes the
    flush (so that the tracker is dirty), [Flush] leaves no day whose date is
    below today minus 30 days; on a tracker that is not dirty [Flush] does
    nothing at all. *)
Theorem C3_flush_prunes_dirty_tracker t calls now :
  dirty t = true ∨ Exists counted calls →
  let t' := (Flush json_MarshalIndent (run t calls) now).1 in
  Forall (fun d => Go.str_lt (Date d) (cutoff30 now) = false) (data t')
  ∧ dirty t' = false
  ∧ ∀ t0, dirty t0 = false → Flush json_MarshalIndent t0 now = (t0, []).
Proof.
  intros Hd t'. pose proof (run_dirty t calls Hd) as Hdirty.
  unfold t', Flush. rewrite Hdirty. simpl.
  split; [apply (prune_keeps_recent _ now 30) |]. split; [done |].
  intros t0 ->. done.
Qed.

End TelemetryFacts.

(** The aggregation scenario of the spec: two calls of 10, 5 and 15 tokens
    for the chat feature. *)
Example telemetry_two_chat_calls :
  let t := Telemetry.run (Telemetry.empty_tracker "telemetry.json")
             [Telemetry.chat_call; Telemetry.chat_call] in
  Telemetry.GetToday t Telemetry.june_10_2024
  = Some (Telemetry.mkDay "2024-06-10"
            {[ "chat" := Telemetry.mkFB 20 10 30 2 ]}
            (Telemetry.mkFB 20 10 30 2)).
Proof. vm_compute. reflexivity. Qed.

(** C3 fails as stated: a tracker loaded from a file with a day of January
    2020 and flushed on 10 June 2024 with no [Record] call in between is not
    dirty, so [Flush] returns at once and the old day stays in the list. *)
Lemma C3_flush_without_record_keeps_old_day :
  let t := Telemetry.NewTracker "telemetry.json" Telemetry.stale_file in
  let t' := (Telemetry.Flush (fun _ => "") (Telemetry.run t []) Telemetry.june_10_2024).1 in
  Telemetry.cutoff30 Telemetry.june_10_2024 = "2024-05-11"
  ∧ ¬ Forall (fun d => Go.str_lt (Telemetry.Date d)
                         (Telemetry.cutoff30 Telemetry.june_10_2024) = false)
             (Telemetry.data t').
Proof.
  split; [reflexivity |].
  intros Hall. apply Forall_cons in Hall as [Hd _].
  vm_compute in Hd. discriminate.
Qed.

Lemma C3_flush_prunes_dirty_tracker_witness :
  let t := Telemetry.NewTracker "telemetry.json" Telemetry.stale_file in
  let t' := (Telemetry.Flush (fun _ => "")
               (Telemetry.run t [Telemetry.chat_call]) Telemetry.june_10_2024).1 in
  Forall (fun d => Go.str_lt (Telemetry.Date d)
                     (Telemetry.cutoff30 Telemetry.june_10_2024) = false)
         (Telemetry.data t')
  ∧ Telemetry.dirty t' = false
  ∧ ∀ t0, Telemetry.dirty t0 = false →
          Telemetry.Flush (fun _ => "") t0 Telemetry.june_10_2024 = (t0, []).
Proof.
  apply (C3_flush_prunes_dirty_tracker (fun _ => "")
           (Telemetry.NewTracker "telemetry.json" Telemetry.stale_file)
           [Telemetry.chat_call] Telemetry.june_10_2024).
  right. apply Exists_cons_hd. unfold Telemetry.counted. simpl. lia.
Defined.

(** ** Save, get and delete on the three stores *)

Section NotesFacts.
Import Notes.

Lemma update_first_found key content tags now notes :
  (update_first key content tags now notes).2 = true →
  ∃ n, find_note key (update_first key content tags now notes).1 = Some n
       ∧ Key n = key ∧ Content n = content ∧ Tags n = tags.
Proof.
  induction notes as [|n notes IH]; simpl; [done |].
  destruct (String.eqb_spec (Key n) key) as [Heq | Hne]; simpl.
  - intros _. rewrite Heq, String.eqb_refl. eexists. split; [done |]. by simpl.
  - destruct (update_first key content tags now notes) as [rest found] eqn:E.
    simpl in *. intros Hf. apply eqb_false_iff in Hne. rewrite Hne. by apply IH.
Qed.

Lemma update_first_not_found key content tags now notes :
  (update_first key content tags now notes).2 = false → find_note key notes = None.
Proof.
  induction notes as [|n notes IH]; simpl; [done |].
  destruct (String.eqb (Key n) key); simpl; [done |].
  destruct (update_first key content tags now notes) as [rest found]. simpl in *. done.
Qed.

Lemma find_note_app key l n :
  find_note key l = None → Key n = key → find_note key (l ++ [n]) = Some n.
Proof.
  intros Hl Hk. induction l as [|m l IH]; simpl in *.
  - by rewrite Hk, String.eqb_refl.
  - destruct (String.eqb (Key m) key); [done | by apply IH].
Qed.

(** A note saved under a key is what [recall] of that key returns. *)
Lemma notes_save_then_recall disk args now :
  arg_string args "key" ≠ "" → arg_string args "content" ≠ "" →
  ∃ n, recall (save disk args now).2 args = SilentResult (render n)
       ∧ Key n = arg_string args "key"
       ∧ Content n = arg_string args "content"
       ∧ Tags n = arg_tags args.
Proof.
  intros Hk Hc. unfold save, recall.
  apply eqb_false_iff in Hk, Hc. rewrite Hk, Hc. simpl.
  destruct (update_first (arg_string args "key") (arg_string args "content")
              (arg_tags args) now (decode_lenient disk)) as [notes1 found] eqn:E.
  destruct found; simpl.
  - destruct (update_first_found (arg_string args "key") (arg_string args "content")
                (arg_tags args) now (decode_lenient disk)) as (n & Hn & ?).
    { by rewrite E. }
    rewrite E in Hn. simpl in Hn. rewrite Hn. by exists n.
  - erewrite find_note_app; [eexists; split; [done |]; by simpl | | done].
    eapply update_first_not_found. by rewrite E.
Qed.

Lemma find_note_filter key (notes : Datatypes.list memoryNote) :
  find_note key (filter (fun n => Key n ≠ key) notes) = None.
Proof.
  induction notes as [|n notes IH]; [done |].
  rewrite filter_cons. destruct (decide (Key n ≠ key)) as [Hne | Heq]; [| done].
  simpl. apply eqb_false_iff in Hne. by rewrite Hne.
Qed.

Lemma find_note_existsb key notes :
  existsb (fun n => String.eqb (Key n) key) notes = false → find_note key notes = None.
Proof.
  induction notes as [|n notes IH]; simpl; [done |].
  destruct (String.eqb (Key n) key); simpl; [done | exact IH].
Qed.

(** On a decodable notes file, delete makes the key unknown to [recall], and
    deleting again reports "not found" as a silent result and leaves the
    file alone. *)
Lemma notes_delete_then_recall fp notes args :
  arg_string args "key" ≠ "" →
  let disk' := (del fp (Stored notes) args).2 in
  recall disk' args
  = SilentResult ("No note found with key '" +:+ arg_string args "key" +:+ "'")
  ∧ del fp disk' args
    = (SilentResult ("No note found with key '" +:+ arg_string args "key" +:+ "'"),
       disk').
Proof.
  intros Hk. apply eqb_false_iff in Hk. unfold del, recall. rewrite Hk. simpl.
  destruct (existsb (fun n => String.eqb (Key n) (arg_string args "key")) notes)
    eqn:E; simpl.
  - rewrite find_note_filter. split; [done |].
    assert (existsb (fun n => String.eqb (Key n) (arg_string args "key"))
              (filter (fun n => Key n ≠ arg_string args "key") notes) = false) as ->.
    { clear E. induction notes as [|n notes IH]; [done |].
      rewrite filter_cons.
      destruct (decide (Key n ≠ arg_string args "key")) as [Hne | Heq]; [| done].
      simpl. apply eqb_false_iff in Hne. by rewrite Hne. }
    done.
  - rewrite (find_note_existsb _ _ E), E. done.
Qed.

End NotesFacts.

(** The round trip of the spec: save the note "pw", list it, recall it,
    delete it, list again. *)
Example notes_round_trip :
  let now := "2024-06-10T10:00:00Z" in
  let disk1 := (Notes.save NoFile Notes.save_pw now).2 in
  let disk2 := (Notes.del "memory/notes.json" disk1 delete_pw).2 in
  Notes.list disk1 = SilentResult ("1 note(s):" +:+ Go.nl +:+ "- pw [x]")
  ∧ Notes.recall disk1 delete_pw
    = SilentResult ("Key: pw" +:+ Go.nl +:+ "Content: hunter2" +:+ Go.nl +:+ "Tags: x")
  ∧ (Notes.del "memory/notes.json" disk1 delete_pw).1
    = SilentResult "Note 'pw' deleted"
  ∧ Notes.list disk2 = SilentResult "No notes saved".
Proof. repeat split; vm_compute; reflexivity. Qed.

Section SnippetFacts.
Import Snippets.

(** A snippet saved under a name is what [get] of that name returns. *)
Lemma snippets_save_then_get disk args now :
  arg_string args "name" ≠ "" → arg_string args "content" ≠ "" →
  ∃ s, get (save disk args now).2 args
       = SilentResult (render (arg_string args "name") s)
       ∧ Content s = arg_string args "content" ∧ Tags s = arg_tags args.
Proof.
  intros Hn Hc. unfold save, get.
  apply eqb_false_iff in Hn, Hc. rewrite Hn, Hc. simpl.
  rewrite lookup_insert_eq. eexists. split; [done |]. by simpl.
Qed.

(** Delete makes the name unknown to [get]; deleting again (or deleting a
    name that was never there, or from a store with no file) reports "not
    found" as a silent result and writes nothing. *)
Lemma snippets_delete_then_get disk args :
  arg_string args "name" ≠ "" →
  let disk' := (del disk args).2 in
  get disk' args
  = SilentResult ("No snippet found with name '" +:+ arg_string args "name" +:+ "'")
  ∧ del disk' args
    = (SilentResult ("No snippet found with name '" +:+ arg_string args "name" +:+ "'"),
       disk').
Proof.
  intros Hn. apply eqb_false_iff in Hn. unfold del, get. rewrite Hn. simpl.
  destruct (loadSnippets disk !! arg_string args "name") as [s|] eqn:E; simpl.
  - by rewrite lookup_delete_eq.
  - by rewrite E.
Qed.

End SnippetFacts.

Section TaskFacts.
Import Tasks.

Lemma find_task_app id l task :
  find_task id l = None → ID task = id → find_task id (l ++ [task]) = Some task.
Proof.
  intros Hl Hk. induction l as [|m l IH]; simpl in *.
  - by rewrite Hk, String.eqb_refl.
  - destruct (String.eqb (ID m) id); [done | by apply IH].
Qed.

Lemma generateTaskID_nonempty rnd : rnd ≠ "" → generateTaskID rnd ≠ "".
Proof. destruct rnd; [done | discriminate]. Qed.

(** A task added to a store without a task of the drawn ID is what [get] of
    that ID returns. *)
Lemma tasks_add_then_get disk args now rnd today :
  arg_string args "title" ≠ "" → rnd ≠ "" →
  (∀ err partial, disk ≠ BadJSON err partial) →
  find_task (generateTaskID rnd) (match disk with Stored l => l | _ => [] end) = None →
  ∃ task, get (add disk args now rnd).2 (<["id" := VString (generateTaskID rnd)]> args) today
          = SilentResult (formatTask today task)
          ∧ ID task = generateTaskID rnd
          ∧ Title task = arg_string args "title"
          ∧ Status task = "pending".
Proof.
  intros Ht Hr Hbad Hfresh. unfold add, get.
  apply eqb_false_iff in Ht. rewrite Ht.
  assert (arg_string (<["id" := VString (generateTaskID rnd)]> args) "id"
          = generateTaskID rnd) as ->.
  { unfold arg_string. by rewrite lookup_insert_eq. }
  pose proof (generateTaskID_nonempty rnd Hr) as Hid.
  apply eqb_false_iff in Hid. rewrite Hid.
  destruct disk as [| err partial | l]; [| by destruct (Hbad err partial) |]; simpl in *.
  - rewrite String.eqb_refl. eexists. split; [done |]. by simpl.
  - erewrite find_task_app; [| done | done]. eexists. split; [done |]. by simpl.
Qed.

Lemma find_task_filter id (tasks : Datatypes.list Task) :
  find_task id (filter (fun task => ID task ≠ id) tasks) = None.
Proof.
  induction tasks as [|n tasks IH]; [done |].
  rewrite filter_cons. destruct (decide (ID n ≠ id)) as [Hne | Heq]; [| done].
  simpl. apply eqb_false_iff in Hne. by rewrite Hne.
Qed.

Lemma find_task_existsb id tasks :
  existsb (fun task => String.eqb (ID task) id) tasks = false → find_task id tasks = None.
Proof.
  induction tasks as [|n tasks IH]; simpl; [done |].
  destruct (String.eqb (ID n) id); simpl; [done | exact IH].
Qed.

(** On a decodable tasks file, delete makes the ID unknown to [get], and
    deleting again reports "not found" as a silent result and leaves the
    file alone. *)
Lemma tasks_delete_then_get fp tasks args today :
  arg_string args "id" ≠ "" →
  let disk' := (del fp (Stored tasks) args).2 in
  get disk' args today
  = SilentResult ("No task found with ID '" +:+ arg_string args "id" +:+ "'")
  ∧ del fp disk' args
    = (SilentResult ("No task found with ID '" +:+ arg_string args "id" +:+ "'"),
       disk').
Proof.
  intros Hk. apply eqb_false_iff in Hk. unfold del, get. rewrite Hk. simpl.
  destruct (existsb (fun task => String.eqb (ID task) (arg_string args "id")) tasks)
    eqn:E; simpl.
  - rewrite find_task_filter. split; [done |].
    assert (existsb (fun task => String.eqb (ID task) (arg_string args "id"))
              (filter (fun task => ID task ≠ arg_string args "id") tasks) = false) as ->.
    { clear E. induction tasks as [|n tasks IH]; [done |].
      rewrite filter_cons.
      destruct (decide (ID n ≠ arg_string args "id")) as [Hne | Heq]; [| done].
      simpl. apply eqb_false_iff in Hne. by rewrite Hne. }
    done.
  - rewrite (find_task_existsb _ _ E), E. done.
Qed.

End TaskFacts.

(** C5 (evaluated on the code): in a workspace where the notes file (or the
    tasks file) does not exist yet, delete returns an Error result, and so
    does a second delete; the snippet store reports "not found" silently in
    the same situation. *)
Theorem C5_delete_without_file_is_an_error :
  Notes.del "memory/notes.json" NoFile delete_pw
  = (ErrorResult
       "failed to load notes: open memory/notes.json: no such file or directory",
     NoFile)
  ∧ is_error (Notes.del "memory/notes.json"
                (Notes.del "memory/notes.json" NoFile delete_pw).2 delete_pw).1 = true
  ∧ Tasks.del "tasks/tasks.json" NoFile delete_task
    = (ErrorResult
         "failed to load tasks: open tasks/tasks.json: no such file or directory",
       NoFile)
  ∧ is_error (Tasks.del "tasks/tasks.json"
                (Tasks.del "tasks/tasks.json" NoFile delete_task).2 delete_task).1 = true
  ∧ Snippets.del NoFile delete_pw
    = (SilentResult "No snippet found with name 'pw'", NoFile).
Proof. repeat split; vm_compute; reflexivity. Qed.

(** ** The overdue tag of the task listing *)

Lemma append_snoc_inj (x y : string) (a b : ascii) :
  x +:+ String a "" = y +:+ String b "" → x = y ∧ a = b.
Proof.
  revert y. induction x as [|c x IH]; intros [|d y]; rewrite ?append_cons, ?append_nil_l.
  - by intros [= ->].
  - intros [= _ Hy]. destruct y; discriminate.
  - intros [= _ Hx]. destruct x; discriminate.
  - intros [= -> Hxy]. destruct (IH y Hxy) as [-> ->]. done.
Qed.

Lemma substring_all (s : string) : String.substring 0 (String.length s) s = s.
Proof. induction s as [|c s IH]; simpl; [done | by rewrite IH]. Qed.

Lemma substring_skip (x s : string) k :
  String.substring (String.length x) k (x +:+ s) = String.substring 0 k s.
Proof.
  induction x as [|c x IH]; [done |]. rewrite append_cons. simpl. exact IH.
Qed.

Lemma substring_split (s : string) i :
  (i <= String.length s)%nat →
  ∃ x, s = x +:+ String.substring i (String.length s - i) s.
Proof.
  revert i. induction s as [|c s IH]; intros i Hi; simpl in *.
  - exists "". destruct i; simpl; done.
  - destruct i as [|i]; simpl.
    + exists "". by rewrite substring_all.
    + destruct (IH i ltac:(lia)) as [x Hx]. exists (String c x).
      rewrite append_cons. by rewrite <- Hx.
Qed.

Lemma HasSuffix_append (x suf : string) : Go.HasSuffix (x +:+ suf) suf = true.
Proof.
  unfold Go.HasSuffix. rewrite append_length.
  replace (String.length x + String.length suf - String.length suf)%nat
    with (String.length x) by lia.
  rewrite substring_skip, substring_all, String.eqb_refl.
  rewrite andb_true_r. apply Nat.leb_le. lia.
Qed.

Lemma HasSuffix_inv (s suf : string) :
  Go.HasSuffix s suf = true → ∃ x, s = x +:+ suf.
Proof.
  unfold Go.HasSuffix. intros Hs. apply andb_true_iff in Hs as [Hle Heq].
  apply Nat.leb_le in Hle. apply String.eqb_eq in Heq.
  destruct (substring_split s (String.length s - String.length suf) ltac:(lia))
    as [x Hx].
  exists x. rewrite Hx at 1. f_equal.
  replace (String.length s - (String.length s - String.length suf))%nat
    with (String.length suf) by lia.
  exact Heq.
Qed.

Lemma paren_line_not_tagged (x : string) : Tasks.tagged (x +:+ ")") = false.
Proof.
  unfold Tasks.tagged. destruct (Go.HasSuffix (x +:+ ")") " [OVERDUE]") eqn:E; [| done].
  apply HasSuffix_inv in E as [y Hy].
  change " [OVERDUE]" with (" [OVERDUE" +:+ "]") in Hy.
  rewrite <- append_assoc in Hy.
  apply append_snoc_inj in Hy as [_ Hc]. discriminate.
Qed.

Section TaskListingFacts.
Import Tasks.
Variable strings_ToUpper : string → string.

Abbreviation task_line := (task_line strings_ToUpper).
Abbreviation list_step := (list_step strings_ToUpper).

(** A line ends in the tag exactly when the overdue test of the loop held. *)
Lemma task_line_tagged today task :
  tagged (task_line today task) = is_overdue today task.
Proof.
  unfold Tasks.task_line. rewrite <- !append_assoc.
  destruct (is_overdue today task).
  - unfold tagged. apply HasSuffix_append.
  - rewrite append_nil_r. apply paren_line_not_tagged.
Qed.

Lemma is_overdue_spec today task :
  is_overdue today task = true
  ↔ DueDate task ≠ "" ∧ Go.str_lt (DueDate task) today = true
    ∧ Status task ≠ "done" ∧ Status task ≠ "cancelled".
Proof.
  unfold is_overdue. rewrite !andb_true_iff, !negb_true_iff, !eqb_false_iff. tauto.
Qed.

Lemma is_overdue_active today task : is_overdue today task = true → is_active task = true.
Proof.
  unfold is_overdue, is_active. rewrite !andb_true_iff, !negb_true_iff.
  intros [[_ ->] ->]. done.
Qed.

(** The loop of [list] collects the lines of the active tasks, in order, and
    counts the overdue ones. *)
Lemma list_loop today (tasks : Datatypes.list Task) lines count :
  foldl (list_step today) (lines, count) tasks
  = (lines ++ map (task_line today) (filter (fun t => is_active t = true) tasks),
     count + Z.of_nat (length (filter (fun t => is_overdue today t = true) tasks))).
Proof.
  revert lines count. induction tasks as [|task tasks IH]; intros lines count.
  - simpl. rewrite app_nil_r. f_equal. lia.
  - cbn [foldl]. rewrite !filter_cons.
    assert (list_step today (lines, count) task
            = if is_active task
              then (lines ++ [task_line today task],
                    if is_overdue today task then count + 1 else count)
              else (lines, count)) as ->.
    { unfold Tasks.list_step, is_active.
      by destruct (String.eqb (Status task) "done"
                   || String.eqb (Status task) "cancelled"). }
    destruct (is_active task) eqn:Ha.
    + rewrite IH. rewrite decide_True by done.
      destruct (is_overdue today task) eqn:Ho.
      * rewrite decide_True by done. cbn [map length].
        rewrite <- app_assoc. simpl. f_equal. lia.
      * rewrite decide_False by done. cbn [map].
        rewrite <- app_assoc. simpl. done.
    + rewrite IH. rewrite decide_False by done.
      destruct (is_overdue today task) eqn:Ho.
      * apply is_overdue_active in Ho. congruence.
      * rewrite decide_False by done. done.
Qed.

(** C6 as amended: [list] prints one line per task that is neither done nor
    cancelled; the line of a task ends in the tag [OVERDUE] exactly when the
    task has a non-empty due date below today and a status that is neither
    done nor cancelled, and the header counts exactly those tasks.  Tasks
    that are done or cancelled have no line. *)
Theorem C6_overdue_tag_iff_due_and_not_closed (tasks : Datatypes.list Task) (today : string) :
  let lines := map (task_line today) (filter (fun t => is_active t = true) tasks) in
  let overdueCount :=
    Z.of_nat (length (filter (fun t => is_overdue today t = true) tasks)) in
  Tasks.list strings_ToUpper (Stored tasks) today
  = (if (length tasks =? 0)%nat then SilentResult "No tasks found"
     else if (length lines =? 0)%nat then SilentResult "No active tasks"
     else SilentResult (list_header lines overdueCount +:+ ":" +:+ Go.nl
                        +:+ Go.Join lines Go.nl))
  ∧ (∀ task, tagged (task_line today task) = true
             ↔ DueDate task ≠ "" ∧ Go.str_lt (DueDate task) today = true
               ∧ Status task ≠ "done" ∧ Status task ≠ "cancelled")
  ∧ (∀ task, is_overdue today task = true
             ↔ DueDate task ≠ "" ∧ Go.str_lt (DueDate task) today = true
               ∧ Status task ≠ "done" ∧ Status task ≠ "cancelled")
  ∧ (∀ task, is_active task = true ↔ Status task ≠ "done" ∧ Status task ≠ "cancelled").
Proof.
  intros lines overdueCount. split; [| split; [| split]].
  - unfold Tasks.list. simpl.
    destruct (length tasks =? 0)%nat; [done |].
    rewrite list_loop. simpl. fold lines. fold overdueCount. done.
  - intros task. rewrite task_line_tagged. apply is_overdue_spec.
  - intros task. apply is_overdue_spec.
  - intros task. unfold is_active.
    rewrite negb_true_iff, orb_false_iff, !eqb_false_iff. done.
Qed.

End TaskListingFacts.

(** The overdue scenario of the spec: one pending task due the day before. *)
Example tasks_overdue_listing :
  Tasks.list Go.ToUpperASCII (Stored [Tasks.pay_bill]) "2024-06-10"
  = SilentResult
      ("1 active task(s) (1 overdue):" +:+ Go.nl +:+
       "- [PENDING] pay bill (ID: a1b2c3d4e5f6, status: pending, priority: medium, due: 2024-06-09) [OVERDUE]").
Proof. vm_compute. reflexivity. Qed.

(** C6 fails as stated: [update] stores any non-empty status, and a task
    whose status is neither pending nor in_progress (here "blocked") with a
    due date in the past is listed with the tag and counted. *)
Lemma C6_blocked_task_is_tagged :
  let disk := (Tasks.update "tasks/tasks.json" (Stored [Tasks.pay_bill])
                 Tasks.block_args "2024-06-05T10:00:00Z").2 in
  (∃ task, disk = Stored [task] ∧ Tasks.Status task = "blocked"
           ∧ Tasks.DueDate task = "2024-06-09")
  ∧ Tasks.list Go.ToUpperASCII disk "2024-06-10"
    = SilentResult
        ("1 active task(s) (1 overdue):" +:+ Go.nl +:+
         "- [BLOCKED] pay bill (ID: a1b2c3d4e5f6, status: blocked, priority: medium, due: 2024-06-09) [OVERDUE]").
Proof.
  split.
  - eexists. split; [vm_compute; reflexivity | split; reflexivity].
  - vm_compute. reflexivity.
Qed.

(** ** Case folding of the bearer token *)

Section EqualFoldFacts.
Import GoStrings.
Variable simple_fold_reaches : Z → Z → bool.

Abbreviation equalFold_unicode := (equalFold_unicode simple_fold_reaches).
Abbreviation EqualFold := (EqualFold simple_fold_reaches).

Lemma ascii_case_pair_bounds lo hi :
  ascii_case_pair lo hi = true → 65 <= lo <= 90 ∧ hi = lo + 32.
Proof. unfold ascii_case_pair. rewrite !andb_true_iff. lia. Qed.

Lemma same_letter_cases a b :
  same_letter a b →
  a = b ∨ (byte a < 128 ∧ byte b < 128
           ∧ ascii_case_pair (Z.min (byte a) (byte b)) (Z.max (byte a) (byte b)) = true).
Proof.
  intros [-> | Hp]; [by left | right].
  pose proof (ascii_case_pair_bounds _ _ Hp). split; [lia |]. split; [lia | done].
Qed.

Lemma case_variant_length s t : case_variant s t → String.length s = String.length t.
Proof.
  revert t. induction s as [|c s IH]; intros [|d t]; simpl; try done.
  intros [_ Hst]. f_equal. by apply IH.
Qed.

Lemma case_variant_drop n s t :
  case_variant s t → case_variant (drop_bytes n s) (drop_bytes n t).
Proof.
  revert s t. induction n as [|n IH]; intros [|c s] [|d t] Hst; simpl; try done.
  destruct Hst as [_ Hst]. by apply IH.
Qed.

Lemma drop_bytes_length n s :
  String.length (drop_bytes n s) = (String.length s - n)%nat.
Proof.
  revert s. induction n as [|n IH]; intros [|c s]; simpl; try done; try lia.
Qed.

Lemma first_lead b sz lo hi : first b = Lead sz lo hi → 128 <= lo.
Proof.
  unfold first.
  repeat match goal with
         | |- context [if ?c then _ else _] => destruct c
         end; intros [= <- <- <-]; lia.
Qed.

Lemma first_ascii b : b < 128 → first b = AsciiByte.
Proof. intros Hb. unfold first. destruct (Z.ltb_spec b 128); [done | lia]. Qed.

(** A continuation check against a range above ASCII gives the same verdict
    on two bytes that are the same letter, and lets only equal bytes pass. *)
Lemma cont_check_same a b lo hi :
  128 <= lo → same_letter a b →
  ((byte a <? lo) || (hi <? byte a)) = ((byte b <? lo) || (hi <? byte b))
  ∧ (((byte a <? lo) || (hi <? byte a)) = false → a = b).
Proof.
  intros Hlo Hab. destruct (same_letter_cases a b Hab) as [-> | (Ha & Hb & _)].
  - done.
  - assert ((byte a <? lo) = true) as -> by (apply Z.ltb_lt; lia).
    assert ((byte b <? lo) = true) as -> by (apply Z.ltb_lt; lia).
    done.
Qed.

(** Decoding a rune reads the same thing from two case variants. *)
Lemma decode_case_variant c s t :
  case_variant s t →
  DecodeRuneInString (String c s) = DecodeRuneInString (String c t).
Proof.
  intros Hst. unfold DecodeRuneInString.
  destruct (first (byte c)) as [| | sz lo hi] eqn:F; [done | done |].
  apply first_lead in F.
  cbn [String.length]. rewrite (case_variant_length s t Hst).
  destruct (S (String.length t) <? sz)%nat; [done |].
  destruct s as [|c1 s1], t as [|d1 t1]; try done.
  destruct Hst as [H1 Hst].
  destruct (cont_check_same c1 d1 lo hi F H1) as [Heq1 Hsame1].
  rewrite <- Heq1.
  destruct ((byte c1 <? lo) || (hi <? byte c1)) eqn:E1; [done |].
  rewrite <- (Hsame1 eq_refl).
  destruct (sz <=? 2)%nat; [done |].
  destruct s1 as [|c2 s2], t1 as [|d2 t2]; try done.
  destruct Hst as [H2 Hst].
  destruct (cont_check_same c2 d2 128 191 ltac:(lia) H2) as [Heq2 Hsame2].
  rewrite <- Heq2.
  destruct ((byte c2 <? 128) || (191 <? byte c2)) eqn:E2; [done |].
  rewrite <- (Hsame2 eq_refl).
  destruct (sz <=? 3)%nat; [done |].
  destruct s2 as [|c3 s3], t2 as [|d3 t3]; try done.
  destruct Hst as [H3 Hst].
  destruct (cont_check_same c3 d3 128 191 ltac:(lia) H3) as [Heq3 Hsame3].
  rewrite <- Heq3.
  destruct ((byte c3 <? 128) || (191 <? byte c3)) eqn:E3; [done |].
  by rewrite <- (Hsame3 eq_refl).
Qed.

Lemma decode_width c s : (1 <= (DecodeRuneInString (String c s)).2)%nat.
Proof.
  unfold DecodeRuneInString.
  repeat match goal with
         | |- context [match ?x with _ => _ end] => destruct x
         end; simpl; lia.
Qed.

Lemma decode_ascii c s :
  byte c < 128 → DecodeRuneInString (String c s) = (byte c, 1%nat).
Proof. intros Hc. unfold DecodeRuneInString. by rewrite first_ascii. Qed.

(** The rune loop accepts case variants. *)
Lemma equalFold_unicode_case_variant fuel s t :
  (String.length s <= fuel)%nat → case_variant s t →
  equalFold_unicode fuel s t = true.
Proof.
  revert s t. induction fuel as [|fuel IH]; intros [|c s] [|d t] Hlen Hst;
    simpl in Hlen, Hst; try done; try lia.
  destruct Hst as [Hcd Hst].
  cbn [GoStrings.equalFold_unicode].
  destruct (Z.ltb_spec (byte d) RuneSelf) as [Hd | Hd]; unfold RuneSelf in Hd.
  - (* the byte of [t] is ASCII, hence so is the byte of [s] *)
    assert (byte c < 128) as Hc.
    { destruct (same_letter_cases c d Hcd) as [-> | (? & _)]; done. }
    rewrite (decode_ascii c s Hc). cbn [drop_bytes].
    destruct (byte d =? byte c) eqn:E; [apply IH; [lia | done] |].
    assert (runes_fold_equal simple_fold_reaches (byte c) (byte d) = true) as ->.
    { unfold runes_fold_equal, RuneSelf.
      destruct (same_letter_cases c d Hcd) as [-> | (_ & _ & Hp)].
      - by rewrite Z.eqb_refl in E.
      - destruct (Z.ltb_spec (Z.max (byte c) (byte d)) 128); [done | lia]. }
    apply IH; [lia | done].
  - (* a byte beyond ASCII: the two strings start with the same byte *)
    assert (c = d) as ->.
    { destruct (same_letter_cases c d Hcd) as [-> | (_ & ? & _)]; [done | lia]. }
    rewrite (decode_case_variant d s t Hst).
    pose proof (decode_width d t) as Hw.
    destruct (DecodeRuneInString (String d t)) as [r sz]. simpl in Hw.
    rewrite Z.eqb_refl.
    apply IH.
    + rewrite drop_bytes_length. simpl. lia.
    + apply case_variant_drop. simpl. split; [by left | done].
Qed.

(** [EqualFold] accepts two strings that differ only in the case of ASCII
    letters. *)
Lemma EqualFold_case_variant s t : case_variant s t → EqualFold s t = true.
Proof.
  revert t. induction s as [|c s IH]; intros [|d t] Hst; try done.
  cbn [GoStrings.EqualFold].
  destruct (RuneSelf <=? Z.lor (byte c) (byte d)).
  - apply equalFold_unicode_case_variant; [done | exact Hst].
  - destruct Hst as [Hcd Hst].
    destruct (byte d =? byte c) eqn:E; [by apply IH |].
    destruct (same_letter_cases c d Hcd) as [-> | (_ & _ & Hp)].
    + by rewrite Z.eqb_refl in E.
    + rewrite Hp. by apply IH.
Qed.

End EqualFoldFacts.

(** ** The webhook handler *)

Section WebhookFacts.
Import Webhook.
Variable simple_fold_reaches : Z → Z → bool.
Variable json_Unmarshal : string → string + webhookPayload.

Abbreviation authorized := (authorized simple_fold_reaches).
Abbreviation handler := (handler simple_fold_reaches json_Unmarshal).
Abbreviation inbound_of := (inbound_of simple_fold_reaches json_Unmarshal).


End WebhookFacts.

(** The authentication scenario of the spec: with the secret "s3cr3t", a
    POST without Authorization header is refused, and one with the header
    "bearer s3cr3t" is accepted and reaches the bus. *)
Example webhook_auth_scenario :
  let cfg := Webhook.mkConfig "s3cr3t" in
  let handle := Webhook.handler (fun _ _ => false) Webhook.decode_push cfg in
  (handle (Webhook.mkRequest "POST" "" (inr Webhook.push_body))).1
  = Webhook.mkResponse 401 ("Unauthorized" +:+ Go.nl)
  ∧ (handle (Webhook.mkRequest "GET" "bearer s3cr3t" (inr Webhook.push_body))).1
    = Webhook.mkResponse 405 ("Method not allowed" +:+ Go.nl)
  ∧ handle (Webhook.mkRequest "POST" "bearer s3cr3t" (inr Webhook.push_body))
    = (Webhook.mkResponse 200 Webhook.status_ok, Some Webhook.push_event)
  ∧ in_ChatID (Webhook.processEvent Webhook.push_event) = "webhook:gh:push"
  ∧ in_Content (Webhook.processEvent Webhook.push_event) = "[Webhook: gh/push] ok".
Proof. repeat split; vm_compute; reflexivity. Qed.


(** ** The sentinel's rate limiter *)

Lemma filter_at_most_one {A} (P : A → Prop) `{∀ x, Decision (P x)} (l : list A) :
  (∀ i j x y, (i < j)%nat → l !! i = Some x → l !! j = Some y → P x → P y → False) →
  (length (filter P l) <= 1)%nat.
Proof.
  induction l as [|a l IH]; intros Hsep; [simpl; lia |].
  rewrite filter_cons. destruct (decide (P a)) as [Ha | Hna].
  - destruct (filter P l) as [|y rest] eqn:E; [simpl; lia |].
    assert (y ∈ filter P l) as Hy by (rewrite E; apply elem_of_cons; by left).
    apply list_elem_of_filter in Hy as [HPy Hy].
    apply list_elem_of_lookup in Hy as [j Hj].
    destruct (Hsep 0%nat (S j) a y); [lia | done | done | done | done].
  - apply IH. intros i j x y Hij Hi Hj. apply (Hsep (S i) (S j)); [lia | done | done].
Qed.

Section SentinelFacts.
Import Sentinel.
Variable clock : nat → Z.
Variable GetLastChannel : nat → string.
Variable IsInternalChannel : string → bool.
Variable format_1f : float → string.
Variable json_MarshalIndent : SentinelState → string.
Variable filepath_Join : string → string → string.

Abbreviation delivery_target := (delivery_target IsInternalChannel).
Abbreviation emit := (emit clock GetLastChannel IsInternalChannel).
Abbreviation sendAlert := (sendAlert clock GetLastChannel IsInternalChannel).
Abbreviation collect :=
  (collect clock GetLastChannel IsInternalChannel format_1f json_MarshalIndent
           filepath_Join).
Abbreviation step :=
  (step clock GetLastChannel IsInternalChannel format_1f json_MarshalIndent
        filepath_Join).
Abbreviation run :=
  (run clock GetLastChannel IsInternalChannel format_1f json_MarshalIndent
       filepath_Join).
Abbreviation saveState := (saveState json_MarshalIndent filepath_Join).
Abbreviation snapshot := (snapshot format_1f).
Abbreviation inv := (inv clock).

(** *** What does not depend on the clock *)

Lemma emit_frame w n alert :
  fs_log (emit w n alert) = fs_log w
  ∧ Workspace (svc (emit w n alert)) = Workspace (svc w)
  ∧ lastAlertTime (svc (emit w n alert)) !! alert = Some (clock n).
Proof.
  unfold Sentinel.emit.
  destruct (delivery_target (svc w) (GetLastChannel (S n))) as [[p u]|]; simpl;
    by rewrite lookup_insert_eq.
Qed.

Lemma sendAlert_frame w alert :
  fs_log (sendAlert w alert) = fs_log w
  ∧ Workspace (svc (sendAlert w alert)) = Workspace (svc w).
Proof.
  unfold Sentinel.sendAlert.
  destruct (lastAlertTime (svc w) !! alert) as [t0|].
  - destruct (clock (reads w) - t0 <? Hour); [done |].
    destruct (emit_frame w (S (reads w)) alert) as (? & ? & _). done.
  - destruct (emit_frame w (reads w) alert) as (? & ? & _). done.
Qed.

Lemma sendAlerts_frame alerts w :
  fs_log (foldl sendAlert w alerts) = fs_log w
  ∧ Workspace (svc (foldl sendAlert w alerts)) = Workspace (svc w).
Proof.
  revert w. induction alerts as [|a alerts IH]; intros w; simpl; [done |].
  destruct (IH (sendAlert w a)) as [-> ->]. apply sendAlert_frame.
Qed.

(** Every tick appends the write of its own snapshot, alerts or not. *)
Lemma collect_persists w r :
  fs_log (collect w r)
  = fs_log w ++ saveState (svc w)
                  (snapshot (svc w) (clock (reads w)) (clock (S (reads w))) r)
  ∧ Workspace (svc (collect w r)) = Workspace (svc w).
Proof.
  unfold Sentinel.collect.
  destruct (sendAlerts_frame
              (Alerts (snapshot (svc w) (clock (reads w)) (clock (S (reads w))) r))
              (mkWorld (svc w) (S (S (reads w))) (published w)
                 (fs_log w ++ saveState (svc w)
                    (snapshot (svc w) (clock (reads w)) (clock (S (reads w))) r))))
    as [-> ->]. done.
Qed.

Lemma run_persists events w :
  length (fs_log (run w events)) = (length (fs_log w) + 2 * ticks events)%nat
  ∧ Workspace (svc (run w events)) = Workspace (svc w).
Proof.
  revert w. induction events as [|e events IH]; intros w.
  - simpl. unfold ticks. simpl. split; [lia | done].
  - cbn [Sentinel.run foldl]. fold (run (step w e) events).
    destruct (IH (step w e)) as [-> ->].
    unfold ticks. rewrite filter_cons. destruct e as [r | b].
    + rewrite decide_True by done. cbn [Sentinel.step].
      destruct (collect_persists w r) as [-> ->].
      rewrite length_app. simpl. split; [lia | done].
    + rewrite decide_False by done. simpl. split; [lia | done].
Qed.

(** *** The rate limiter under a clock that does not run backwards *)

Hypothesis clock_monotone : monotone clock.

Lemma inv_start workspace b : inv (start clock workspace b).
Proof.
  unfold Sentinel.inv. simpl. repeat split.
  - intros a t0 Ha. by rewrite lookup_empty in Ha.
  - intros t m Hin. by apply elem_of_nil in Hin.
  - intros i j t1 m1 t2 m2 _ Hi. by rewrite lookup_nil in Hi.
Qed.

Lemma inv_advance w n :
  inv w → (reads w <= n)%nat →
  inv (mkWorld (svc w) n (published w) (fs_log w)).
Proof.
  intros (Ha & Hb & Hc) Hn. unfold Sentinel.inv. simpl. repeat split; [| done | done].
  intros a t0 Hl. etrans; [by eapply Ha |]. by apply clock_monotone.
Qed.

Lemma inv_fs_log w log :
  inv w → inv (mkWorld (svc w) (reads w) (published w) log).
Proof. intros (Ha & Hb & Hc). unfold Sentinel.inv. simpl. done. Qed.

Lemma inv_SetBus w b :
  inv w → inv (mkWorld (SetBus (svc w) b) (reads w) (published w) (fs_log w)).
Proof. intros (Ha & Hb & Hc). unfold Sentinel.inv. simpl. done. Qed.

Lemma inv_emit w n alert :
  inv w → (reads w <= n)%nat →
  (∀ t0, lastAlertTime (svc w) !! alert = Some t0 → t0 + Hour <= clock n) →
  inv (emit w n alert).
Proof.
  intros (Ha & Hb & Hc) Hn Hsep.
  assert (Hpast : ∀ a t0, lastAlertTime (svc w) !! a = Some t0 → t0 <= clock n).
  { intros a t0 Hl. etrans; [by eapply Ha |]. by apply clock_monotone. }
  assert (Hnext : clock n <= clock (S n)) by (apply clock_monotone; lia).
  assert (Ha' : ∀ a t0, <[alert := clock n]> (lastAlertTime (svc w)) !! a = Some t0 →
                        t0 <= clock (S n)).
  { intros a t0. rewrite lookup_insert. case_decide.
    - intros [= <-]. done.
    - intros Hl. specialize (Hpast a t0 Hl). lia. }
  assert (Hb' : ∀ t m, (t, m) ∈ published w →
                       ∃ a t0, out_Content m = warning_prefix +:+ a
                               ∧ <[alert := clock n]> (lastAlertTime (svc w)) !! a = Some t0
                               ∧ t <= t0).
  { intros t m Hin. destruct (Hb t m Hin) as (a & t0 & Hm & Hl & Hle).
    exists a. destruct (decide (alert = a)) as [<- | Hne].
    - exists (clock n). rewrite lookup_insert_eq. specialize (Hpast alert t0 Hl).
      split; [done |]. split; [done | lia].
    - exists t0. by rewrite lookup_insert_ne. }
  unfold Sentinel.emit.
  destruct (delivery_target (svc w) (GetLastChannel (S n))) as [[platform userID]|];
    unfold Sentinel.inv; simpl; (split; [exact Ha' |]); split; try done.
  - intros t m Hin. apply elem_of_app in Hin as [Hin | Hin]; [by apply Hb' |].
    apply list_elem_of_singleton in Hin. injection Hin as -> ->.
    exists alert, (clock n). rewrite lookup_insert_eq. done.
  - intros i j t1 m1 t2 m2 Hij Hi Hj Hm.
    apply lookup_app_Some in Hj as [Hj | [Hlen Hj]].
    + apply lookup_app_Some in Hi as [Hi | [Hlen _]].
      * by eapply Hc.
      * apply lookup_lt_Some in Hj. lia.
    + apply list_lookup_singleton_Some in Hj as [Hj0 Hj]. injection Hj as <- <-.
      apply lookup_app_Some in Hi as [Hi | [Hlen' _]]; [| lia].
      apply list_elem_of_lookup_2 in Hi.
      destruct (Hb t1 m1 Hi) as (a & t0 & Hm1 & Hl & Hle).
      simpl in Hm. rewrite Hm1 in Hm. apply append_inj_l in Hm as ->.
      specialize (Hsep t0 Hl). lia.
Qed.

Lemma inv_sendAlert w alert : inv w → inv (sendAlert w alert).
Proof.
  intros Hw. unfold Sentinel.sendAlert.
  destruct (lastAlertTime (svc w) !! alert) as [t0|] eqn:E.
  - destruct (Z.ltb_spec (clock (reads w) - t0) Hour) as [Hlt | Hge].
    + apply inv_advance; [done | lia].
    + apply inv_emit; [done | lia |].
      intros t1 Ht1. rewrite E in Ht1. injection Ht1 as <-.
      assert (clock (reads w) <= clock (S (reads w))) by (apply clock_monotone; lia).
      lia.
  - apply inv_emit; [done | lia |]. intros t1 Ht1. by rewrite E in Ht1.
Qed.

Lemma inv_sendAlerts alerts w : inv w → inv (foldl sendAlert w alerts).
Proof.
  revert w. induction alerts as [|a alerts IH]; intros w Hw; simpl; [done |].
  by apply IH, inv_sendAlert.
Qed.

Lemma inv_collect w r : inv w → inv (collect w r).
Proof.
  intros Hw. unfold Sentinel.collect. apply inv_sendAlerts.
  apply (inv_fs_log (mkWorld (svc w) (S (S (reads w))) (published w) (fs_log w))).
  apply inv_advance; [done | lia].
Qed.

Lemma inv_run events w : inv w → inv (run w events).
Proof.
  revert w. induction events as [|e events IH]; intros w Hw; [done |].
  cbn [Sentinel.run foldl]. apply IH.
  destruct e as [r | b]; simpl; [by apply inv_collect | by apply inv_SetBus].
Qed.


(** *** Alerts that are recorded but not delivered *)

(** The four reasons for which [sendAlert] gives up after the limiter. *)
Lemma suppressed_no_target s lastChannel :
  bus s = false ∨ lastChannel = ""
  ∨ parseLastChannel lastChannel = ("", "")
  ∨ IsInternalChannel (parseLastChannel lastChannel).1 = true →
  delivery_target s lastChannel = None.
Proof.
  unfold Sentinel.delivery_target.
  intros [-> | [-> | [Hp | Hi]]]; [done | by destruct (bus s) | |].
  - destruct (bus s); [| done]. simpl. rewrite Hp. simpl.
    by destruct (String.eqb lastChannel "").
  - destruct (bus s); [| done]. simpl.
    destruct (String.eqb lastChannel ""); [done |].
    destruct (parseLastChannel lastChannel) as [platform userID]. simpl in Hi.
    rewrite Hi. by rewrite !orb_true_r.
Qed.

(** C9: [sendAlert] stores the emission time before it looks for a way to
    deliver.  When an alert passes the limiter but delivery is suppressed
    (no bus, no last channel, a malformed or an internal last channel),
    nothing is published and the time is recorded all the same; a later
    [sendAlert] for the same text less than an hour after the recorded time
    publishes nothing either, whatever bus and last channel are in place by
    then. *)
Theorem C9_suppressed_alert_still_starts_the_hour (w : World) (alert : string) :
  let n := match lastAlertTime (svc w) !! alert with
           | Some _ => S (reads w)
           | None => reads w
           end in
  let lastChannel := GetLastChannel (S n) in
  (∀ lastTime, lastAlertTime (svc w) !! alert = Some lastTime →
               Hour <= clock (reads w) - lastTime) →
  (bus (svc w) = false ∨ lastChannel = ""
   ∨ parseLastChannel lastChannel = ("", "")
   ∨ IsInternalChannel (parseLastChannel lastChannel).1 = true) →
  let w1 := sendAlert w alert in
  published w1 = published w
  ∧ lastAlertTime (svc w1) !! alert = Some (clock n)
  ∧ ∀ w2 : World,
      lastAlertTime (svc w2) !! alert = Some (clock n) →
      clock (reads w2) - clock n < Hour →
      published (sendAlert w2 alert) = published w2.
Proof.
  intros n lastChannel Hpass Hsup w1.
  pose proof (suppressed_no_target (svc w) lastChannel Hsup) as Hnone.
  assert (Hw1 : w1 = emit w n alert).
  { unfold w1, n, Sentinel.sendAlert.
    destruct (lastAlertTime (svc w) !! alert) as [t0|] eqn:E; [| done].
    specialize (Hpass t0 eq_refl).
    destruct (Z.ltb_spec (clock (reads w) - t0) Hour); [lia | done]. }
  rewrite Hw1. split; [| split].
  - unfold Sentinel.emit. fold lastChannel. by rewrite Hnone.
  - by destruct (emit_frame w n alert) as (_ & _ & ->).
  - intros w2 Hl Hlt. unfold Sentinel.sendAlert. rewrite Hl.
    destruct (Z.ltb_spec (clock (reads w2) - clock n) Hour); [done | lia].
Qed.

End SentinelFacts.

(** The throttling scenario of the spec: 99 % of the memory in use on three
    ticks in a row.  One alert goes out, three snapshots are written, and
    each snapshot lists the alert. *)
Example sentinel_throttling_scenario :
  let w := Sentinel.run Sentinel.second_clock (fun _ => "telegram:42")
             Sentinel.spec_internal (fun _ => "99.0") (fun _ => "{}")
             Sentinel.slash_join
             (Sentinel.start Sentinel.second_clock "ws" true)
             [Sentinel.Tick Sentinel.ram_99; Sentinel.Tick Sentinel.ram_99;
              Sentinel.Tick Sentinel.ram_99] in
  map snd (Sentinel.published w)
  = [mkOutbound "telegram" "42" "⚠️ RAM crítica: 99.0% usada"]
  ∧ Sentinel.fs_log w
    = [AtomicWrite.WriteFile "ws/state/sentinel.json.tmp" "{}";
       AtomicWrite.Rename "ws/state/sentinel.json.tmp" "ws/state/sentinel.json";
       AtomicWrite.WriteFile "ws/state/sentinel.json.tmp" "{}";
       AtomicWrite.Rename "ws/state/sentinel.json.tmp" "ws/state/sentinel.json";
       AtomicWrite.WriteFile "ws/state/sentinel.json.tmp" "{}";
       AtomicWrite.Rename "ws/state/sentinel.json.tmp" "ws/state/sentinel.json"]
  ∧ Sentinel.build_alerts (fun _ => "99.0") Sentinel.ram_99
    = ["RAM crítica: 99.0% usada"].
Proof. repeat split; vm_compute; reflexivity. Qed.


Lemma C9_suppressed_alert_still_starts_the_hour_witness :
  let alert := "RAM crítica: 99.0% usada" in
  let w := Sentinel.start Sentinel.second_clock "ws" false in
  let w1 := Sentinel.sendAlert Sentinel.second_clock (fun _ => "telegram:42")
              Sentinel.spec_internal w alert in
  Sentinel.published w1 = Sentinel.published w
  ∧ Sentinel.lastAlertTime (Sentinel.svc w1) !! alert
    = Some (Sentinel.second_clock 1)
  ∧ ∀ w2 : Sentinel.World,
      Sentinel.lastAlertTime (Sentinel.svc w2) !! alert
      = Some (Sentinel.second_clock 1) →
      Sentinel.second_clock (Sentinel.reads w2) - Sentinel.second_clock 1
      < Sentinel.Hour →
      Sentinel.published
        (Sentinel.sendAlert Sentinel.second_clock (fun _ => "telegram:42")
           Sentinel.spec_internal w2 alert)
      = Sentinel.published w2.
Proof.
  apply (C9_suppressed_alert_still_starts_the_hour
           Sentinel.second_clock (fun _ => "telegram:42") Sentinel.spec_internal
           (Sentinel.start Sentinel.second_clock "ws" false)
           "RAM crítica: 99.0% usada").
  - intros lastTime Hl. vm_compute in Hl. discriminate.
  - left. reflexivity.
Defined.

(** The same alert one second later, with the bus now set and an external
    last channel known: nothing goes out. *)
Example sentinel_alert_lost_for_the_hour :
  let alert := "RAM crítica: 99.0% usada" in
  let w1 := Sentinel.sendAlert Sentinel.second_clock (fun _ => "telegram:42")
              Sentinel.spec_internal
              (Sentinel.start Sentinel.second_clock "ws" false) alert in
  let w2 := Sentinel.mkWorld (Sentinel.SetBus (Sentinel.svc w1) true)
              (Sentinel.reads w1) (Sentinel.published w1) (Sentinel.fs_log w1) in
  Sentinel.delivery_target Sentinel.spec_internal (Sentinel.svc w2) "telegram:42"
  = Some ("telegram", "42")
  ∧ Sentinel.published
      (Sentinel.sendAlert Sentinel.second_clock (fun _ => "telegram:42")
         Sentinel.spec_internal w2 alert) = [].
Proof. split; vm_compute; reflexivity. Qed.

(** * Further properties of the code *)

(** ** Temp-then-rename writes, once they are done *)

(** X1: the temp-then-rename write of the reminder file, the telemetry file
    and the sentinel snapshot (the three make the same two calls) never
    shows a reader a partial file, ends with the new contents under the
    final path and no temporary file, and touches no other path. *)
Theorem X1_rename_write_commits (σ : gmap string string) (fp data : string) :
  let ops := AtomicWrite.saveRemindersLocked fp data in
  let σ' := foldl AtomicWrite.apply_op σ ops in
  AtomicWrite.flushWrite fp data = ops
  ∧ AtomicWrite.saveState fp data = ops
  ∧ AtomicWrite.never_partial σ fp data ops
  ∧ σ' !! fp = Some data
  ∧ σ' !! (fp +:+ ".tmp") = None
  ∧ ∀ other, other ≠ fp → other ≠ fp +:+ ".tmp" → σ' !! other = σ !! other.
Proof.
  intros ops σ'. pose proof (tmp_path_differs fp) as Hne.
  split; [done |]. split; [done |].
  split; [apply never_partial_tmp_rename |].
  unfold σ', ops, AtomicWrite.saveRemindersLocked. simpl.
  rewrite lookup_insert_eq.
  split; [by rewrite lookup_insert_eq |]. split.
  - rewrite lookup_insert_ne by done. by rewrite lookup_delete_eq.
  - intros other H1 H2.
    rewrite lookup_insert_ne by done. rewrite lookup_delete_ne by done.
    by rewrite lookup_insert_ne.
Qed.

(** ** The last channel and the targets of the sentinel *)

Lemma split_first_sound c s l r :
  Reminder.split_first c s = Some (l, r) →
  s = l +:+ String c r ∧ Reminder.has_byte c l = false.
Proof.
  revert l. induction s as [|a s IH]; intros l; simpl; [done |].
  destruct (Ascii.eqb a c) eqn:Hac.
  - intros [= <- <-]. apply Ascii.eqb_eq in Hac as ->. done.
  - destruct (Reminder.split_first c s) as [[l0 r0]|]; [| done].
    intros [= <- <-]. destruct (IH l0 eq_refl) as [-> Hl].
    rewrite append_cons. split; [done |]. simpl. by rewrite Hac.
Qed.

Lemma split_first_complete c l r :
  Reminder.has_byte c l = false →
  Reminder.split_first c (l +:+ String c r) = Some (l, r).
Proof.
  induction l as [|a l IH]; intros Hl.
  - rewrite append_nil_l. simpl. by rewrite Ascii.eqb_refl.
  - rewrite append_cons. simpl in *. apply orb_false_iff in Hl as [Hac Hl].
    rewrite Hac, (IH Hl). done.
Qed.

Lemma parseLastChannel_shape lastChannel :
  Sentinel.parseLastChannel lastChannel = ("", "")
  ∨ ∃ platform userID,
      Sentinel.parseLastChannel lastChannel = (platform, userID)
      ∧ platform ≠ "" ∧ userID ≠ ""
      ∧ Reminder.has_byte ":" platform = false
      ∧ lastChannel = platform +:+ ":" +:+ userID.
Proof.
  unfold Sentinel.parseLastChannel.
  destruct (String.eqb lastChannel ""); [by left |].
  destruct (Reminder.split_first ":" lastChannel) as [[platform userID]|] eqn:E;
    [| by left].
  destruct (String.eqb_spec platform "") as [-> | Hp]; [by left |].
  destruct (String.eqb_spec userID "") as [-> | Hu]; [by left |].
  right. exists platform, userID. apply split_first_sound in E as [-> Hc]. done.
Qed.

(** X2: [parseLastChannel] splits at the first colon.  It gives back the two
    parts of "platform:user" when both are non-empty and the platform holds
    no colon, and whenever it returns a platform, the input was that
    platform, a colon and a non-empty user (which may itself hold colons);
    everything else yields two empty strings. *)
Theorem X2_parseLastChannel_inverts_join :
  (∀ platform userID,
     platform ≠ "" → userID ≠ "" → Reminder.has_byte ":" platform = false →
     Sentinel.parseLastChannel (platform +:+ ":" +:+ userID) = (platform, userID))
  ∧ (∀ lastChannel,
       Sentinel.parseLastChannel lastChannel = ("", "")
       ∨ ∃ platform userID,
           Sentinel.parseLastChannel lastChannel = (platform, userID)
           ∧ platform ≠ "" ∧ userID ≠ ""
           ∧ Reminder.has_byte ":" platform = false
           ∧ lastChannel = platform +:+ ":" +:+ userID).
Proof.
  split.
  - intros platform userID Hp Hu Hc. unfold Sentinel.parseLastChannel.
    change (":" +:+ userID) with (String ":" userID).
    rewrite (split_first_complete ":" platform userID Hc).
    apply eqb_false_iff in Hp, Hu. rewrite Hp, Hu. simpl.
    destruct (String.eqb_spec (platform +:+ String ":" userID) "") as [He | _];
      [| done].
    destruct platform; discriminate.
  - apply parseLastChannel_shape.
Qed.

Section SentinelTargets.
Import Sentinel.
Variable clock : nat → Z.
Variable GetLastChannel : nat → string.
Variable IsInternalChannel : string → bool.
Variable format_1f : float → string.
Variable json_MarshalIndent : SentinelState → string.
Variable filepath_Join : string → string → string.

Abbreviation well_targeted := (well_targeted GetLastChannel IsInternalChannel).

Lemma delivery_target_Some s lastChannel platform userID :
  delivery_target IsInternalChannel s lastChannel = Some (platform, userID) →
  bus s = true ∧ IsInternalChannel platform = false
  ∧ platform ≠ "" ∧ userID ≠ ""
  ∧ Reminder.has_byte ":" platform = false
  ∧ lastChannel = platform +:+ ":" +:+ userID.
Proof.
  unfold Sentinel.delivery_target.
  destruct (bus s); [| done]. simpl.
  destruct (String.eqb lastChannel ""); [done |].
  destruct (parseLastChannel_shape lastChannel)
    as [-> | (p & u & -> & Hp & Hu & Hc & ->)]; [done |].
  apply eqb_false_iff in Hp, Hu. rewrite Hp, Hu. simpl.
  destruct (IsInternalChannel p) eqn:Hi; [done |].
  intros [= <- <-]. apply eqb_false_iff in Hp, Hu. done.
Qed.

Abbreviation emit' := (emit clock GetLastChannel IsInternalChannel).
Abbreviation sendAlert' := (sendAlert clock GetLastChannel IsInternalChannel).
Abbreviation run' :=
  (run clock GetLastChannel IsInternalChannel format_1f json_MarshalIndent
       filepath_Join).

Lemma emit_targets w n alert :
  Forall (fun p => well_targeted p.2) (published w) →
  Forall (fun p => well_targeted p.2) (published (emit' w n alert))
  ∧ bus (svc (emit' w n alert)) = bus (svc w)
  ∧ (bus (svc w) = false → published (emit' w n alert) = published w).
Proof.
  intros Hall. unfold Sentinel.emit.
  destruct (delivery_target IsInternalChannel (svc w) (GetLastChannel (S n)))
    as [[platform userID]|] eqn:E; simpl; [| done].
  apply delivery_target_Some in E as (Hb & Hi & Hp & Hu & Hc & Hl).
  split; [| split; [done | congruence]].
  apply Forall_app_2; [done |]. constructor; [| constructor].
  unfold Sentinel.well_targeted. simpl.
  repeat split; try done; [by exists (S n) | by exists alert].
Qed.

Lemma sendAlert_targets w alert :
  Forall (fun p => well_targeted p.2) (published w) →
  Forall (fun p => well_targeted p.2) (published (sendAlert' w alert))
  ∧ bus (svc (sendAlert' w alert)) = bus (svc w)
  ∧ (bus (svc w) = false → published (sendAlert' w alert) = published w).
Proof.
  intros Hall. unfold Sentinel.sendAlert.
  destruct (lastAlertTime (svc w) !! alert) as [t0|].
  - destruct (clock (reads w) - t0 <? Hour); [done |]. by apply emit_targets.
  - by apply emit_targets.
Qed.

Lemma sendAlerts_targets alerts w :
  Forall (fun p => well_targeted p.2) (published w) →
  Forall (fun p => well_targeted p.2) (published (foldl sendAlert' w alerts))
  ∧ bus (svc (foldl sendAlert' w alerts)) = bus (svc w)
  ∧ (bus (svc w) = false → published (foldl sendAlert' w alerts) = published w).
Proof.
  revert w. induction alerts as [|a alerts IH]; intros w Hall; simpl; [done |].
  destruct (sendAlert_targets w a Hall) as (H1 & H2 & H3).
  destruct (IH (sendAlert' w a) H1) as (H4 & H5 & H6).
  split; [done |]. split; [congruence |].
  intros Hb. rewrite H6 by congruence. by apply H3.
Qed.

Lemma run_targets events w :
  Forall (fun p => well_targeted p.2) (published w) →
  Forall (fun p => well_targeted p.2) (published (run' w events))
  ∧ (bus (svc w) = false → bus_never_set events →
     published (run' w events) = published w).
Proof.
  revert w. induction events as [|e events IH]; intros w Hall; [done |].
  cbn [Sentinel.run foldl]. destruct e as [r | b]; cbn [Sentinel.step].
  - unfold Sentinel.collect.
    match goal with
    | |- context [foldl _ (foldl ?f ?w1 ?alerts) events] =>
        pose proof (sendAlerts_targets alerts w1 Hall) as Hs;
        set (wa := foldl f w1 alerts) in *
    end.
    destruct Hs as (H1 & H2 & H3). destruct (IH wa H1) as (H4 & H5).
    split; [exact H4 |]. intros Hb Hn. apply Forall_cons in Hn as [_ Hn].
    unfold Sentinel.run in H5.
    rewrite H5; [by apply H3 | by rewrite H2 | done].
  - destruct (IH (mkWorld (SetBus (svc w) b) (reads w) (published w) (fs_log w)) Hall)
      as (H4 & H5).
    split; [exact H4 |]. intros Hb Hn. apply Forall_cons in Hn as [Hne Hn].
    unfold Sentinel.run in H5. rewrite H5; [done | | done].
    simpl. destruct b; [done | done].
Qed.

(** X3: every alert the sentinel publishes goes to the platform and user of
    a last channel it read, and that platform is never an internal one nor
    empty; its text is the warning sign followed by the alert.  As long as
    no bus has been supplied, nothing is published at all. *)
Theorem X3_alerts_go_to_external_last_channel
        (workspace : string) (b : bool) (events : list event) :
  let w := run' (start clock workspace b) events in
  Forall (fun p => well_targeted p.2) (published w)
  ∧ (b = false → bus_never_set events → published w = []).
Proof.
  intros w.
  destruct (run_targets events (start clock workspace b)) as [H1 H2];
    [constructor |].
  split; [exact H1 |]. intros -> Hn. by apply H2.
Qed.

End SentinelTargets.

(** ** The metadata of a webhook event *)

(** X4: the inbound message of a webhook event carries every metadata entry
    of the payload unchanged, also under the keys "platform", "source" and
    "event"; where the payload has no entry, these three keys hold
    "webhook", the source and the event, and there are no other keys. *)
Theorem X4_payload_metadata_wins (payload : Webhook.webhookPayload) (k : string) :
  let md := in_Metadata (Webhook.processEvent payload) in
  (∀ v, Webhook.Metadata payload !! k = Some v → md !! k = Some v)
  ∧ (Webhook.Metadata payload !! k = None →
     md !! k = if String.eqb k "platform" then Some "webhook"
               else if String.eqb k "source" then Some (Webhook.Source payload)
               else if String.eqb k "event" then Some (Webhook.Event payload)
               else None).
Proof.
  intros md. unfold md, Webhook.processEvent, Webhook.HandleMessage. simpl.
  split.
  - intros v Hv. by apply lookup_union_Some_l.
  - intros Hn. rewrite lookup_union_r by done.
    destruct (String.eqb_spec k "platform") as [-> | H1];
      [by rewrite lookup_insert_eq |].
    rewrite lookup_insert_ne by done.
    destruct (String.eqb_spec k "source") as [-> | H2];
      [by rewrite lookup_insert_eq |].
    rewrite lookup_insert_ne by done.
    destruct (String.eqb_spec k "event") as [-> | H3];
      [by rewrite lookup_insert_eq |].
    rewrite lookup_insert_ne by done. apply lookup_empty.
Qed.

(** ** Case folding accepts nothing but case variants on ASCII *)

Section EqualFoldExact.
Import GoStrings.
Variable simple_fold_reaches : Z → Z → bool.
Variable json_Unmarshal : string → string + Webhook.webhookPayload.

Lemma byte_range c : 0 <= byte c < 256.
Proof.
  unfold byte. pose proof (N_ascii_bounded c). lia.
Qed.

Lemma byte_inj a b : byte a = byte b → a = b.
Proof.
  unfold byte. intros Hab. apply N2Z.inj in Hab.
  rewrite <- (ascii_N_embedding a), <- (ascii_N_embedding b). by rewrite Hab.
Qed.

Lemma lor_below_128 a b : 0 <= a < 128 → 0 <= b < 128 → Z.lor a b < 128.
Proof.
  intros Ha Hb.
  assert (0 <= Z.lor a b) as Hnn by (apply Z.lor_nonneg; lia).
  destruct (Z.eq_dec (Z.lor a b) 0) as [-> | Hz]; [lia |].
  change 128 with (2 ^ 7). apply Z.log2_lt_pow2; [lia |].
  rewrite Z.log2_lor by lia.
  assert (∀ x, 0 <= x < 128 → Z.log2 x < 7) as Hlog.
  { intros x Hx. destruct (Z.eq_dec x 0) as [-> | Hx0]; [done |].
    apply Z.log2_lt_pow2; lia. }
  pose proof (Hlog a Ha). pose proof (Hlog b Hb). lia.
Qed.

(** On ASCII strings [EqualFold] holds only for case variants. *)
Lemma EqualFold_ascii_only s t :
  is_ascii s = true → is_ascii t = true →
  EqualFold simple_fold_reaches s t = true → case_variant s t.
Proof.
  revert t. induction s as [|c s IH]; intros [|d t] Hs Ht; simpl; try done.
  simpl in Hs, Ht. apply andb_true_iff in Hs as [Hc Hs], Ht as [Hd Ht].
  apply Z.ltb_lt in Hc, Hd.
  pose proof (lor_below_128 (byte c) (byte d)
                (conj (proj1 (byte_range c)) Hc) (conj (proj1 (byte_range d)) Hd)).
  destruct (Z.leb_spec RuneSelf (Z.lor (byte c) (byte d))) as [Hge | _];
    [unfold RuneSelf in Hge; lia |].
  destruct (Z.eqb_spec (byte d) (byte c)) as [Heq | Hne].
  - intros He. split; [left; symmetry; by apply byte_inj | by apply IH].
  - destruct (ascii_case_pair (Z.min (byte c) (byte d)) (Z.max (byte c) (byte d)))
      eqn:Hp; [| done].
    intros He. split; [by right | by apply IH].
Qed.

(** X5: when the Authorization header and a configured secret hold ASCII
    bytes only, the bearer check passes exactly for the headers that are
    "Bearer <secret>" up to the case of letters: same length, and byte by
    byte equal or the two cases of one letter.  Every other ASCII header is
    answered 401. *)
Theorem X5_ascii_bearer_check_is_exact (cfg : Webhook.WebhookConfig) (r : Webhook.Request) :
  Webhook.Secret cfg ≠ "" →
  is_ascii (Webhook.Authorization r) = true →
  is_ascii (Webhook.Secret cfg) = true →
  (Webhook.authorized simple_fold_reaches cfg r = true
   ↔ case_variant (Webhook.Authorization r) ("Bearer " +:+ Webhook.Secret cfg))
  ∧ (Webhook.Method r = "POST" →
     ¬ case_variant (Webhook.Authorization r) ("Bearer " +:+ Webhook.Secret cfg) →
     (Webhook.handler simple_fold_reaches json_Unmarshal cfg r).1
     = Webhook.http_Error "Unauthorized" 401).
Proof.
  intros Hs Ha Hsec.
  assert (Hiff : Webhook.authorized simple_fold_reaches cfg r = true
                 ↔ case_variant (Webhook.Authorization r)
                     ("Bearer " +:+ Webhook.Secret cfg)).
  { unfold Webhook.authorized. apply eqb_false_iff in Hs. rewrite Hs. simpl. split.
    - apply EqualFold_ascii_only; [done |]. vm_compute in Hsec |- *. exact Hsec.
    - apply EqualFold_case_variant. }
  split; [exact Hiff |].
  intros Hm Hnv. unfold Webhook.handler. rewrite Hm, String.eqb_refl. simpl.
  destruct (Webhook.authorized simple_fold_reaches cfg r) eqn:E; [| done].
  destruct Hnv. by apply Hiff.
Qed.

End EqualFoldExact.

Lemma X5_ascii_bearer_check_is_exact_witness :
  let cfg := Webhook.mkConfig "s3cr3t" in
  let r := Webhook.mkRequest "POST" "Bearer s3cr3T!" (inr Webhook.push_body) in
  (Webhook.authorized (fun _ _ => false) cfg r = true
   ↔ GoStrings.case_variant (Webhook.Authorization r)
       ("Bearer " +:+ Webhook.Secret cfg))
  ∧ (Webhook.Method r = "POST" →
     ¬ GoStrings.case_variant (Webhook.Authorization r)
         ("Bearer " +:+ Webhook.Secret cfg) →
     (Webhook.handler (fun _ _ => false) Webhook.decode_push cfg r).1
     = Webhook.http_Error "Unauthorized" 401).
Proof.
  apply (X5_ascii_bearer_check_is_exact (fun _ _ => false) Webhook.decode_push
           (Webhook.mkConfig "s3cr3t")
           (Webhook.mkRequest "POST" "Bearer s3cr3T!" (inr Webhook.push_body))).
  - discriminate.
  - reflexivity.
  - reflexivity.
Defined.

(** ** Task IDs *)

Lemma hex_digit_code k :
  (k < 16)%N →
  N_of_ascii (Go.hex_digit k) = (if (k <? 10)%N then 48 + k else 87 + k)%N.
Proof.
  intros Hk. unfold Go.hex_digit.
  destruct (k <? 10)%N; apply N_ascii_embedding; lia.
Qed.

Lemma hex_digit_inj a b :
  (a < 16)%N → (b < 16)%N → Go.hex_digit a = Go.hex_digit b → a = b.
Proof.
  intros Ha Hb Hab. apply (f_equal N_of_ascii) in Hab.
  rewrite !hex_digit_code in Hab by done.
  destruct (N.ltb_spec a 10), (N.ltb_spec b 10); lia.
Qed.

Lemma hex_digit_lower k : (k < 16)%N → Tasks.is_hex_lower (Go.hex_digit k) = true.
Proof.
  intros Hk.
  assert (k = 0 ∨ k = 1 ∨ k = 2 ∨ k = 3 ∨ k = 4 ∨ k = 5 ∨ k = 6 ∨ k = 7
          ∨ k = 8 ∨ k = 9 ∨ k = 10 ∨ k = 11 ∨ k = 12 ∨ k = 13 ∨ k = 14
          ∨ k = 15)%N as Hcases by lia.
  repeat (destruct Hcases as [-> | Hcases]; [reflexivity |]).
  by subst.
Qed.

Lemma byte_nibbles c :
  (N_of_ascii c / 16 < 16)%N ∧ (N_of_ascii c mod 16 < 16)%N.
Proof.
  pose proof (N_ascii_bounded c). split.
  - apply N.Div0.div_lt_upper_bound. lia.
  - apply N.mod_lt. lia.
Qed.


(** ** Updating, completing and deleting tasks *)

Section TaskUpdateFacts.
Import Tasks.

Lemma update_first_spec id f (tasks : Datatypes.list Task) :
  (∀ task, ID (f task) = ID task) →
  match find_task id tasks with
  | Some old =>
      (update_first id f tasks).2 = true
      ∧ length (update_first id f tasks).1 = length tasks
      ∧ find_task id (update_first id f tasks).1 = Some (f old)
  | None => update_first id f tasks = (tasks, false)
  end
  ∧ ∀ id', id' ≠ id →
           find_task id' (update_first id f tasks).1 = find_task id' tasks.
Proof.
  intros Hf. induction tasks as [|task tasks IH]; simpl; [done |].
  destruct (String.eqb_spec (ID task) id) as [Heq | Hne].
  - simpl. rewrite Hf, Heq, String.eqb_refl. split; [done |].
    intros id' Hid'.
    apply not_eq_sym, eqb_false_iff in Hid'. by rewrite Hid'.
  - destruct IH as [IH1 IH2].
    destruct (update_first id f tasks) as [rest found] eqn:E. simpl in *.
    apply eqb_false_iff in Hne. rewrite Hne. split.
    + destruct (find_task id tasks) as [old|].
      * destruct IH1 as (-> & -> & ->). done.
      * by injection IH1 as -> ->.
    + intros id' Hid'. destruct (String.eqb (ID task) id'); [done | by apply IH2].
Qed.

Lemma apply_update_keeps_id args now task : ID (apply_update args now task) = ID task.
Proof. done. Qed.

Lemma update_found fp tasks args now old :
  arg_string args "id" ≠ "" →
  find_task (arg_string args "id") tasks = Some old →
  ∃ tasks',
    update fp (Stored tasks) args now
    = (SilentResult ("Task '" +:+ arg_string args "id" +:+ "' updated"),
       Stored tasks')
    ∧ length tasks' = length tasks
    ∧ find_task (arg_string args "id") tasks' = Some (apply_update args now old)
    ∧ ∀ id', id' ≠ arg_string args "id" →
             find_task id' tasks' = find_task id' tasks.
Proof.
  intros Hid Hold. unfold update. apply eqb_false_iff in Hid. rewrite Hid.
  destruct (update_first_spec (arg_string args "id") (apply_update args now) tasks
              (apply_update_keeps_id args now)) as [H1 H2].
  rewrite Hold in H1. destruct H1 as (Hf & Hlen & Hfind).
  destruct (update_first (arg_string args "id") (apply_update args now) tasks)
    as [tasks' found]. simpl in *. subst found.
  exists tasks'. done.
Qed.

(** X7: [update] of a task that exists rewrites the first task with that ID
    and nothing else: the number of tasks, the task's ID and creation time
    and every other ID's task stay as they were, and the update time is set;
    [update] of an ID no task has reports "No task found" and leaves the
    file alone. *)
Theorem X7_update_rewrites_one_task
        (fp : string) (tasks : Datatypes.list Task)
        (args : gmap string value) (now : string) :
  arg_string args "id" ≠ "" →
  match find_task (arg_string args "id") tasks with
  | Some old =>
      ∃ tasks' new,
        update fp (Stored tasks) args now
        = (SilentResult ("Task '" +:+ arg_string args "id" +:+ "' updated"),
           Stored tasks')
        ∧ length tasks' = length tasks
        ∧ find_task (arg_string args "id") tasks' = Some new
        ∧ ID new = ID old ∧ CreatedAt new = CreatedAt old ∧ UpdatedAt new = now
        ∧ ∀ id', id' ≠ arg_string args "id" →
                 find_task id' tasks' = find_task id' tasks
  | None =>
      update fp (Stored tasks) args now
      = (SilentResult ("No task found with ID '" +:+ arg_string args "id" +:+ "'"),
         Stored tasks)
  end.
Proof.
  intros Hid. destruct (find_task (arg_string args "id") tasks) as [old|] eqn:E.
  - destruct (update_found fp tasks args now old Hid E) as (tasks' & H1 & H2 & H3 & H4).
    exists tasks', (apply_update args now old). done.
  - unfold update. apply eqb_false_iff in Hid. rewrite Hid.
    destruct (update_first_spec (arg_string args "id") (apply_update args now) tasks
                (apply_update_keeps_id args now)) as [H1 _].
    rewrite E in H1. by rewrite H1.
Qed.

Lemma closed_status_not_listed status task :
  Status task = status → status = "done" ∨ status = "cancelled" →
  is_active task = false ∧ ∀ today, is_overdue today task = false.
Proof.
  intros Hs Hst. unfold is_active, is_overdue. rewrite Hs.
  destruct Hst as [-> | ->]; simpl; (split; [done |]); intros today;
    by destruct (negb (String.eqb (DueDate task) "") && Go.str_lt (DueDate task) today).
Qed.

(** X8: [complete] and [cancel] of a task that exists set its status to
    "done" and "cancelled"; from then on the task has no line in the
    listing and is never counted overdue, whatever its due date. *)
Theorem X8_completed_tasks_leave_the_listing
        (fp : string) (tasks : Datatypes.list Task)
        (args : gmap string value) (now : string) (old : Task) :
  arg_string args "id" ≠ "" →
  find_task (arg_string args "id") tasks = Some old →
  (∃ tasks' task,
     (complete fp (Stored tasks) args now).2 = Stored tasks'
     ∧ find_task (arg_string args "id") tasks' = Some task
     ∧ Status task = "done" ∧ is_active task = false
     ∧ ∀ today, is_overdue today task = false)
  ∧ (∃ tasks' task,
       (cancelTask fp (Stored tasks) args now).2 = Stored tasks'
       ∧ find_task (arg_string args "id") tasks' = Some task
       ∧ Status task = "cancelled" ∧ is_active task = false
       ∧ ∀ today, is_overdue today task = false).
Proof.
  intros Hid Hold.
  assert (Hgo : ∀ status, status = "done" ∨ status = "cancelled" →
            ∃ tasks' task,
              (update fp (Stored tasks) (<["status" := VString status]> args) now).2
              = Stored tasks'
              ∧ find_task (arg_string args "id") tasks' = Some task
              ∧ Status task = status ∧ is_active task = false
              ∧ ∀ today, is_overdue today task = false).
  { intros status Hst.
    assert (Harg : arg_string (<["status" := VString status]> args) "id"
                   = arg_string args "id").
    { unfold arg_string. by rewrite lookup_insert_ne. }
    destruct (update_found fp tasks (<["status" := VString status]> args) now old)
      as (tasks' & H1 & _ & H3 & _); [by rewrite Harg | by rewrite Harg |].
    rewrite Harg in H3.
    exists tasks', (apply_update (<["status" := VString status]> args) now old).
    rewrite H1. split; [done |]. split; [done |].
    assert (Status (apply_update (<["status" := VString status]> args) now old)
            = status) as Hs.
    { change (Status (apply_update (<["status" := VString status]> args) now old))
        with (match arg_string_ok (<["status" := VString status]> args) "status" with
              | Some s => if String.eqb s "" then Status old else s
              | None => Status old
              end).
      unfold arg_string_ok. rewrite lookup_insert_eq.
      destruct Hst as [-> | ->]; done. }
    split; [done |]. by apply (closed_status_not_listed status). }
  apply eqb_false_iff in Hid.
  split; unfold complete, cancelTask; rewrite Hid; apply Hgo; auto.
Qed.

Lemma find_task_app_l id (l k : Datatypes.list Task) x :
  find_task id l = Some x → find_task id (l ++ k) = Some x.
Proof.
  induction l as [|task l IH]; simpl; [done |].
  destruct (String.eqb (ID task) id); [done | exact IH].
Qed.

Lemma find_task_filter_ne id id' (tasks : Datatypes.list Task) :
  id' ≠ id →
  find_task id' (filter (fun task => ID task ≠ id) tasks) = find_task id' tasks.
Proof.
  intros Hne. induction tasks as [|task tasks IH]; [done |].
  rewrite filter_cons. destruct (decide (ID task ≠ id)) as [Hk | Hk]; simpl.
  - by rewrite IH.
  - apply dec_stable in Hk.
    assert (String.eqb (ID task) id' = false) as ->
        by (apply eqb_false_iff; congruence).
    exact IH.
Qed.

(** X9: adding a task never changes what [get] returns for an ID that
    already has a task (not even when the drawn ID is that very ID), and
    deleting an ID never changes what [get] returns for a different ID. *)
Theorem X9_add_and_delete_leave_other_tasks
        (fp : string) (tasks : Datatypes.list Task)
        (args query : gmap string value) (now rnd today : string) :
  (arg_string args "title" ≠ "" →
   is_Some (find_task (arg_string query "id") tasks) →
   get (add (Stored tasks) args now rnd).2 query today
   = get (Stored tasks) query today)
  ∧ (arg_string query "id" ≠ arg_string args "id" →
     get (del fp (Stored tasks) args).2 query today
     = get (Stored tasks) query today).
Proof.
  split.
  - intros Ht [x Hx]. unfold add, get.
    apply eqb_false_iff in Ht. rewrite Ht. simpl.
    destruct (String.eqb (arg_string query "id") ""); [done |].
    by rewrite (find_task_app_l _ _ _ _ Hx), Hx.
  - intros Hne. unfold del.
    destruct (String.eqb (arg_string args "id") ""); [done |].
    destruct (existsb (fun task => String.eqb (ID task) (arg_string args "id")) tasks);
      [| done].
    unfold get. simpl.
    destruct (String.eqb (arg_string query "id") ""); [done |].
    by rewrite find_task_filter_ne.
Qed.

End TaskUpdateFacts.

Lemma X7_update_rewrites_one_task_witness :
  ∃ tasks' new,
    Tasks.update "tasks/tasks.json" (Stored [Tasks.pay_bill]) Tasks.block_args
                 "2024-06-05T10:00:00Z"
    = (SilentResult ("Task '" +:+ arg_string Tasks.block_args "id" +:+ "' updated"),
       Stored tasks')
    ∧ length tasks' = length [Tasks.pay_bill]
    ∧ Tasks.find_task (arg_string Tasks.block_args "id") tasks' = Some new
    ∧ Tasks.ID new = Tasks.ID Tasks.pay_bill
    ∧ Tasks.CreatedAt new = Tasks.CreatedAt Tasks.pay_bill
    ∧ Tasks.UpdatedAt new = "2024-06-05T10:00:00Z"
    ∧ ∀ id', id' ≠ arg_string Tasks.block_args "id" →
             Tasks.find_task id' tasks' = Tasks.find_task id' [Tasks.pay_bill].
Proof.
  apply (X7_update_rewrites_one_task "tasks/tasks.json" [Tasks.pay_bill]
           Tasks.block_args "2024-06-05T10:00:00Z").
  vm_compute. discriminate.
Defined.

Lemma X8_completed_tasks_leave_the_listing_witness :
  (∃ tasks' task,
     (Tasks.complete "tasks/tasks.json" (Stored [Tasks.pay_bill]) delete_task
                     "2024-06-11T10:00:00Z").2 = Stored tasks'
     ∧ Tasks.find_task (arg_string delete_task "id") tasks' = Some task
     ∧ Tasks.Status task = "done" ∧ Tasks.is_active task = false
     ∧ ∀ today, Tasks.is_overdue today task = false)
  ∧ (∃ tasks' task,
       (Tasks.cancelTask "tasks/tasks.json" (Stored [Tasks.pay_bill]) delete_task
                         "2024-06-11T10:00:00Z").2 = Stored tasks'
       ∧ Tasks.find_task (arg_string delete_task "id") tasks' = Some task
       ∧ Tasks.Status task = "cancelled" ∧ Tasks.is_active task = false
       ∧ ∀ today, Tasks.is_overdue today task = false).
Proof.
  apply (X8_completed_tasks_leave_the_listing "tasks/tasks.json" [Tasks.pay_bill]
           delete_task "2024-06-11T10:00:00Z" Tasks.pay_bill).
  - vm_compute. discriminate.
  - vm_compute. reflexivity.
Defined.

(** ** Saving a note *)

Section NoteSaveFacts.
Import Notes.

Lemma note_update_first_spec key content tags now (notes : Datatypes.list memoryNote) :
  match find_note key notes with
  | Some old =>
      (update_first key content tags now notes).2 = true
      ∧ length (update_first key content tags now notes).1 = length notes
      ∧ find_note key (update_first key content tags now notes).1
        = Some {| Key := Key old; Content := content; Tags := tags;
                  CreatedAt := CreatedAt old; UpdatedAt := now |}
  | None => update_first key content tags now notes = (notes, false)
  end
  ∧ map Key (update_first key content tags now notes).1 = map Key notes
  ∧ ∀ k', k' ≠ key →
          find_note k' (update_first key content tags now notes).1
          = find_note k' notes.
Proof.
  induction notes as [|n notes IH]; simpl; [done |].
  destruct (String.eqb_spec (Key n) key) as [Heq | Hne].
  - simpl. rewrite Heq, String.eqb_refl. split; [done |]. split; [done |].
    intros k' Hk'. apply not_eq_sym, eqb_false_iff in Hk'. by rewrite Hk'.
  - destruct IH as (IH1 & IH2 & IH3).
    destruct (update_first key content tags now notes) as [rest found] eqn:E.
    simpl in *. apply eqb_false_iff in Hne. rewrite Hne. split; [| split].
    + destruct (find_note key notes) as [old|].
      * destruct IH1 as (-> & -> & ->). done.
      * by injection IH1 as -> ->.
    + by rewrite IH2.
    + intros k' Hk'. destruct (String.eqb (Key n) k'); [done | by apply IH3].
Qed.

Lemma find_note_None_keys key (notes : Datatypes.list memoryNote) :
  find_note key notes = None → key ∉ map Key notes.
Proof.
  induction notes as [|n notes IH]; simpl; [intros _; apply not_elem_of_nil |].
  destruct (String.eqb_spec (Key n) key) as [Heq | Hne]; [done |].
  intros Hn. apply not_elem_of_cons. split; [congruence | by apply IH].
Qed.

Lemma find_note_app_ne k' (notes : Datatypes.list memoryNote) n :
  Key n ≠ k' → find_note k' (notes ++ [n]) = find_note k' notes.
Proof.
  intros Hne. induction notes as [|m notes IH]; simpl.
  - apply eqb_false_iff in Hne. by rewrite Hne.
  - destruct (String.eqb (Key m) k'); [done | exact IH].
Qed.

(** X10: [save] with a key and a content is an upsert.  If a note with the
    key exists, the first such note gets the new content, tags and update
    time and keeps its key, its creation time and its place, and no note is
    added; otherwise one note is appended.  Notes under other keys are not
    touched, and keys that were unique stay unique. *)
Theorem X10_note_save_is_an_upsert
        (disk : file (Datatypes.list memoryNote)) (args : gmap string value)
        (now : string) :
  arg_string args "key" ≠ "" → arg_string args "content" ≠ "" →
  let key := arg_string args "key" in
  let notes := decode_lenient disk in
  let notes' := decode_lenient (save disk args now).2 in
  (∀ k', k' ≠ key → find_note k' notes' = find_note k' notes)
  ∧ (NoDup (map Key notes) → NoDup (map Key notes'))
  ∧ match find_note key notes with
    | Some old =>
        length notes' = length notes
        ∧ find_note key notes'
          = Some {| Key := Key old; Content := arg_string args "content";
                    Tags := arg_tags args;
                    CreatedAt := CreatedAt old; UpdatedAt := now |}
        ∧ (save disk args now).1 = SilentResult ("Note '" +:+ key +:+ "' updated")
    | None =>
        notes' = notes ++ [{| Key := key; Content := arg_string args "content";
                              Tags := arg_tags args;
                              CreatedAt := now; UpdatedAt := now |}]
        ∧ (save disk args now).1 = SilentResult ("Note '" +:+ key +:+ "' saved")
    end.
Proof.
  intros Hk Hc key notes notes'. unfold notes', save.
  apply eqb_false_iff in Hk, Hc. rewrite Hk, Hc. simpl.
  fold key. fold notes.
  destruct (note_update_first_spec key (arg_string args "content") (arg_tags args)
              now notes) as (H1 & H2 & H3).
  destruct (update_first key (arg_string args "content") (arg_tags args) now notes)
    as [notes1 found] eqn:E. simpl in *.
  destruct (find_note key notes) as [old|] eqn:Ef.
  - destruct H1 as (-> & Hlen & Hfind). simpl.
    split; [exact H3 |]. split; [by rewrite H2 |]. done.
  - injection H1 as -> ->. simpl. split; [| split; [| done]].
    + intros k' Hk'. apply find_note_app_ne. simpl. congruence.
    + intros Hnd. rewrite map_app. simpl. apply NoDup_app. split; [done |].
      split; [| apply NoDup_singleton].
      intros x Hx Hx'. apply list_elem_of_singleton in Hx' as ->.
      by apply (find_note_None_keys key notes Ef).
Qed.

End NoteSaveFacts.

Lemma X10_note_save_is_an_upsert_witness :
  let disk := (Notes.save NoFile Notes.save_pw "2024-06-10T10:00:00Z").2 in
  let now := "2024-06-11T08:00:00Z" in
  let key := arg_string Notes.save_pw "key" in
  let notes := Notes.decode_lenient disk in
  let notes' := Notes.decode_lenient (Notes.save disk Notes.save_pw now).2 in
  (∀ k', k' ≠ key → Notes.find_note k' notes' = Notes.find_note k' notes)
  ∧ (NoDup (map Notes.Key notes) → NoDup (map Notes.Key notes'))
  ∧ length notes' = length notes
  ∧ Notes.find_note key notes'
    = Some (Notes.mkNote "pw" "hunter2" ["x"] "2024-06-10T10:00:00Z" now)
  ∧ (Notes.save disk Notes.save_pw now).1 = SilentResult "Note 'pw' updated".
Proof.
  apply (X10_note_save_is_an_upsert
           (Notes.save NoFile Notes.save_pw "2024-06-10T10:00:00Z").2
           Notes.save_pw "2024-06-11T08:00:00Z").
  - vm_compute. discriminate.
  - vm_compute. discriminate.
Defined.

(** ** Decimal IDs *)

Lemma digit_val_char d : 0 <= d <= 9 → Go.digit_val (Go.digit_char d) = Some d.
Proof.
  intros Hd. unfold Go.digit_val, Go.digit_char.
  rewrite nat_ascii_embedding by lia.
  replace (Z.of_nat (48 + Z.to_nat d)) with (48 + d) by lia.
  destruct (Z.leb_spec 48 (48 + d)); [| lia].
  destruct (Z.leb_spec (48 + d) 57); [| lia].
  simpl. f_equal. lia.
Qed.

(** The digits written for [n] read back as [n], after whatever was read
    before them. *)
Lemma digits_fuel_read fuel n acc :
  (0 < fuel)%nat → 0 <= n < 10 ^ Z.of_nat fuel →
  ∃ c d, Go.digits_fuel fuel n acc = String c d +:+ acc
         ∧ Go.digit_val c ≠ None
         ∧ ∀ a rest, Go.parse_digits (String c d +:+ rest) a
                     = Go.parse_digits rest
                         (a * 10 ^ Z.of_nat (String.length (String c d)) + n).
Proof.
  revert n acc. induction fuel as [|fuel IH]; intros n acc Hf Hn; [lia |].
  cbn [Go.digits_fuel]. destruct (Z.ltb_spec n 10) as [Hlt | Hge].
  - exists (Go.digit_char (n mod 10)), "".
    rewrite Z.mod_small by lia. split; [done |].
    split; [by rewrite digit_val_char by lia |].
    intros a rest. rewrite append_cons, append_nil_l. cbn [Go.parse_digits].
    rewrite digit_val_char by lia. f_equal; simpl; lia.
  - assert (0 < fuel)%nat as Hf'.
    { destruct fuel; [| lia]. simpl in Hn. lia. }
    assert (0 <= n / 10 < 10 ^ Z.of_nat fuel) as Hn'.
    { split; [apply Z.div_pos; lia |].
      apply Z.div_lt_upper_bound; [lia |].
      rewrite Nat2Z.inj_succ, Z.pow_succ_r in Hn by lia. lia. }
    destruct (IH (n / 10) (String (Go.digit_char (n mod 10)) acc) Hf' Hn')
      as (c & d & Heq & Hc & Hread).
    exists c, (d +:+ String (Go.digit_char (n mod 10)) "").
    split; [| split; [done |]].
    + rewrite Heq, !append_cons, append_assoc. done.
    + intros a rest.
      rewrite <- append_cons, append_assoc, Hread, append_cons, append_nil_l.
      cbn [Go.parse_digits].
      pose proof (Z.mod_pos_bound n 10 ltac:(lia)).
      rewrite digit_val_char by lia. f_equal.
      rewrite append_cons. cbn [String.length].
      rewrite append_length. cbn [String.length].
      replace (Z.of_nat (S (String.length d + 1)))
        with (Z.succ (Z.of_nat (S (String.length d)))) by lia.
      rewrite Z.pow_succ_r by lia.
      pose proof (Z.div_mod n 10 ltac:(lia)). lia.
Qed.

Lemma utoa_read n :
  0 <= n →
  ∃ c d, Go.utoa n = String c d ∧ Go.digit_val c ≠ None
         ∧ Go.parse_digits (String c d) 0 = Some n.
Proof.
  intros Hn. unfold Go.utoa.
  destruct (digits_fuel_read (S (Z.to_nat (Z.log2 n))) n "") as (c & d & Heq & Hc & Hread);
    [lia | |].
  - split; [done |]. rewrite Nat2Z.inj_succ, Z2Nat.id by apply Z.log2_nonneg.
    destruct (Z.eq_dec n 0) as [-> | Hnz]; [done |].
    eapply Z.lt_le_trans; [apply Z.log2_spec; lia |].
    apply Z.pow_le_mono_l. lia.
  - exists c, d. rewrite append_nil_r in Heq. split; [done |]. split; [done |].
    specialize (Hread 0 ""). rewrite append_nil_r in Hread. rewrite Hread. simpl.
    f_equal; lia.
Qed.

Lemma Atoi_of_digit c d :
  Go.digit_val c ≠ None →
  Go.Atoi (String c d)
  = match Go.parse_digits (String c d) 0 with
    | Some z => if (Go.MinInt64 <=? z) && (z <=? Go.MaxInt64) then Some z else None
    | None => None
    end.
Proof.
  intros Hc. unfold Go.Atoi.
  destruct c as [b0 b1 b2 b3 b4 b5 b6 b7].
  destruct b0, b1, b2, b3, b4, b5, b6, b7; try reflexivity;
    exfalso; apply Hc; reflexivity.
Qed.

(** Reading back a number written in decimal gives the number. *)
Lemma Atoi_itoa z : Go.in_int64 z → Go.Atoi (Go.itoa z) = Some z.
Proof.
  unfold Go.in_int64. intros Hz. unfold Go.itoa.
  destruct (Z.ltb_spec z 0) as [Hneg | Hpos].
  - destruct (utoa_read (- z) ltac:(lia)) as (c & d & -> & Hc & Hread).
    unfold Go.Atoi. cbn [Go.parse_unsigned]. rewrite Hread. cbn [fmap option_fmap option_map].
    replace (- - z) with z by lia.
    destruct (Z.leb_spec Go.MinInt64 z); [| lia].
    destruct (Z.leb_spec z Go.MaxInt64); [done | lia].
  - destruct (utoa_read z Hpos) as (c & d & -> & Hc & Hread).
    rewrite Atoi_of_digit, Hread by done.
    destruct (Z.leb_spec Go.MinInt64 z); [| lia].
    destruct (Z.leb_spec z Go.MaxInt64); [done | lia].
Qed.

(** ** Reminders across restarts, cancels and firings *)

Section ReminderLifeFacts.
Import Reminder.
Variable strings_ToLower : string → string.
Variable strings_TrimSpace : string → string.
Variable time_ParseDuration : string → string + Z.
Variable time_ParseRFC3339 : string → option Z.
Variable format_RFC3339 : Z → string.
Variable format_HHMM : Z → string.

Abbreviation Start := (Reminder.StartPendingReminders time_ParseRFC3339).
Abbreviation parseDuration' :=
  (Reminder.parseDuration strings_ToLower strings_TrimSpace time_ParseDuration).
Abbreviation set' :=
  (Reminder.set strings_ToLower strings_TrimSpace time_ParseDuration
                format_RFC3339 format_HHMM).

(** X11: after [StartPendingReminders], the next ID is above the numeric ID
    of every stored reminder that has not fired (numeric IDs being below
    the largest int). *)
Theorem X11_restart_reserves_pending_ids
        (t : ReminderTool) (disk : file (list reminder)) (now : Z) :
  (∀ r id, r ∈ loadRemindersLocked disk → Go.Atoi (ID r) = Some id →
           id < Go.MaxInt64) →
  ∀ r id, r ∈ loadRemindersLocked disk → Fired r = false →
          Go.Atoi (ID r) = Some id → id < nextID (Start t disk now).1.
Proof.
  intros Hbound r id Hin Hf Hid.
  eapply start_nextID_above_unfired; eauto.
Qed.

(** X12: the ID [set] assigns is the decimal form of the counter, the
    counter then moves on by one, and a restart while the new reminder is
    still pending sets the counter above that ID again: the ID is not handed
    out a second time. *)
Theorem X12_set_then_restart_keeps_the_id_reserved
        (t t2 : ReminderTool) (disk : file (list reminder))
        (args : gmap string value) (now now2 dur : Z) :
  arg_string args "message" ≠ "" → arg_string args "duration" ≠ "" →
  parseDuration' (arg_string args "duration") = inr dur →
  Go.MinInt64 <= nextID t < Go.MaxInt64 →
  (∀ r id, r ∈ loadRemindersLocked disk → Go.Atoi (ID r) = Some id →
           id < Go.MaxInt64) →
  let t1 := (set' t disk args now).1.2 in
  let disk1 := (set' t disk args now).2 in
  (∃ r, loadRemindersLocked disk1 = loadRemindersLocked disk ++ [r]
        ∧ ID r = Go.itoa (nextID t) ∧ Go.Atoi (ID r) = Some (nextID t)
        ∧ Fired r = false)
  ∧ nextID t1 = nextID t + 1
  ∧ nextID t < nextID (Start t2 disk1 now2).1.
Proof.
  intros Hm Hd Hp Hn Hbound t1 disk1.
  assert (Hround : Go.Atoi (Go.itoa (nextID t)) = Some (nextID t)).
  { apply Atoi_itoa. unfold Go.in_int64, Go.MinInt64, Go.MaxInt64 in *. lia. }
  unfold t1, disk1, Reminder.set.
  apply eqb_false_iff in Hm, Hd. rewrite Hm, Hd, Hp. simpl.
  split; [| split].
  - eexists. split; [done |]. simpl. done.
  - unfold Go.add64. apply wrap64_small.
    unfold Go.in_int64, Go.MinInt64, Go.MaxInt64 in *. lia.
  - eapply (start_nextID_above_unfired time_ParseRFC3339 t2 _ now2
              {| ID := Go.itoa (nextID t); Message := arg_string args "message";
                 DueAt := format_RFC3339 (now + dur);
                 Channel := channel t; ChatID := chatID t;
                 CreatedAt := format_RFC3339 now; Fired := false |}).
    + simpl. apply elem_of_app. right. apply list_elem_of_singleton. done.
    + done.
    + done.
    + lia.
    + simpl. intros r' id' Hin Hid'.
      apply elem_of_app in Hin as [Hin | Hin]; [by eapply Hbound |].
      apply list_elem_of_singleton in Hin as ->. simpl in Hid'.
      rewrite Hround in Hid'. injection Hid' as <-. lia.
Qed.

Lemma ages_refl r : ages r r.
Proof. unfold ages. done. Qed.

Lemma ages_all_refl l : Forall2 ages l l.
Proof. induction l; constructor; [apply ages_refl | done]. Qed.

Lemma extends_refl l : extends l l.
Proof.
  exists l, []. rewrite app_nil_r. split; [done | apply ages_all_refl].
Qed.

Lemma mark_fired_ages ok id l : Forall2 ages l (mark_fired ok id l).1.
Proof.
  induction l as [|r l IH]; simpl; [constructor |].
  destruct (String.eqb (ID r) id && ok r); simpl.
  - constructor; [by unfold ages | apply ages_all_refl].
  - destruct (mark_fired ok id l) as [rest found]. simpl in *.
    constructor; [apply ages_refl | done].
Qed.

(** X13: [set], [cancel] and [fireReminder] never remove or reorder stored
    reminders and never change an ID, message, due time or destination:
    whatever the file held stays in place, a reminder that has fired stays
    fired, and only [set] adds an entry, at the end. *)
Theorem X13_stored_reminders_only_age
        (t : ReminderTool) (disk : file (list reminder))
        (args : gmap string value) (now : Z) (id message ch cid : string) :
  extends (loadRemindersLocked disk) (loadRemindersLocked (set' t disk args now).2)
  ∧ extends (loadRemindersLocked disk) (loadRemindersLocked (cancel t disk args).2)
  ∧ extends (loadRemindersLocked disk)
            (loadRemindersLocked (fireReminder t disk id message ch cid).2)
  ∧ length (loadRemindersLocked (cancel t disk args).2)
    = length (loadRemindersLocked disk)
  ∧ length (loadRemindersLocked (fireReminder t disk id message ch cid).2)
    = length (loadRemindersLocked disk).
Proof.
  assert (Hmark : ∀ ok i, extends (loadRemindersLocked disk)
                            (mark_fired ok i (loadRemindersLocked disk)).1
                          ∧ length (mark_fired ok i (loadRemindersLocked disk)).1
                            = length (loadRemindersLocked disk)).
  { intros ok i. pose proof (mark_fired_ages ok i (loadRemindersLocked disk)) as Ha.
    split.
    - exists (mark_fired ok i (loadRemindersLocked disk)).1, [].
      by rewrite app_nil_r.
    - symmetry. by eapply Forall2_length. }
  split; [| split; [| split; [| split]]].
  - unfold Reminder.set.
    destruct (String.eqb (arg_string args "message") ""
              || String.eqb (arg_string args "duration") "");
      [apply extends_refl |].
    destruct (parseDuration' (arg_string args "duration")) as [err | dur];
      [apply extends_refl |].
    simpl. eexists (loadRemindersLocked disk), [_]. split; [done |].
    apply ages_all_refl.
  - unfold cancel. destruct (String.eqb (arg_string args "id") "");
      [apply extends_refl |].
    destruct (Hmark (fun r => negb (Fired r)) (arg_string args "id")) as [He _].
    destruct (mark_fired (fun r => negb (Fired r)) (arg_string args "id")
                (loadRemindersLocked disk)) as [l' found].
    destruct found; simpl in *; [exact He | apply extends_refl].
  - unfold fireReminder.
    destruct (Hmark (fun _ => true) id) as [He _].
    destruct (mark_fired (fun _ => true) id (loadRemindersLocked disk)) as [l' found].
    simpl in *. exact He.
  - unfold cancel. destruct (String.eqb (arg_string args "id") ""); [done |].
    destruct (Hmark (fun r => negb (Fired r)) (arg_string args "id")) as [_ Hl].
    destruct (mark_fired (fun r => negb (Fired r)) (arg_string args "id")
                (loadRemindersLocked disk)) as [l' found].
    destruct found; simpl in *; done.
  - unfold fireReminder.
    destruct (Hmark (fun _ => true) id) as [_ Hl].
    destruct (mark_fired (fun _ => true) id (loadRemindersLocked disk)) as [l' found].
    simpl in *. exact Hl.
Qed.

End ReminderLifeFacts.

Lemma X11_restart_reserves_pending_ids_witness :
  1 < Reminder.nextID
        (Reminder.StartPendingReminders (fun _ => None)
           (Reminder.NewReminderTool true) (Stored [Reminder.pending_one]) 0).1.
Proof.
  apply (X11_restart_reserves_pending_ids (fun _ => None)
           (Reminder.NewReminderTool true) (Stored [Reminder.pending_one]) 0)
    with (r := Reminder.pending_one).
  - intros r id Hin Hid. apply list_elem_of_singleton in Hin. subst r.
    vm_compute in Hid. injection Hid as <-. vm_compute. reflexivity.
  - apply list_elem_of_singleton. reflexivity.
  - reflexivity.
  - vm_compute. reflexivity.
Defined.

Lemma X12_set_then_restart_keeps_the_id_reserved_witness :
  let s := Reminder.set id id Reminder.parse_30m (fun _ => "") (fun _ => "")
             (Reminder.NewReminderTool true) (Stored [Reminder.fired_one])
             Reminder.set_args 5 in
  (∃ r, Reminder.loadRemindersLocked s.2
        = Reminder.loadRemindersLocked (Stored [Reminder.fired_one]) ++ [r]
        ∧ Reminder.ID r = Go.itoa 0 ∧ Go.Atoi (Reminder.ID r) = Some 0
        ∧ Reminder.Fired r = false)
  ∧ Reminder.nextID s.1.2 = 0 + 1
  ∧ 0 < Reminder.nextID
          (Reminder.StartPendingReminders (fun _ => None)
             (Reminder.NewReminderTool true) s.2 9).1.
Proof.
  apply (X12_set_then_restart_keeps_the_id_reserved id id Reminder.parse_30m
           (fun _ => None) (fun _ => "") (fun _ => "")
           (Reminder.NewReminderTool true) (Reminder.NewReminderTool true)
           (Stored [Reminder.fired_one]) Reminder.set_args 5 9
           (1800 * 1000000000)).
  - vm_compute. discriminate.
  - vm_compute. discriminate.
  - vm_compute. reflexivity.
  - unfold Go.MinInt64, Go.MaxInt64. simpl. lia.
  - intros r i Hin Hid. apply list_elem_of_singleton in Hin. subst r.
    vm_compute in Hid. injection Hid as <-. vm_compute. reflexivity.
Defined.

Section ReminderCancelFacts.
Import Reminder.

Lemma pending_with_cons id r l :
  pending_with id (r :: l)
  = if String.eqb (ID r) id && negb (Fired r) then r :: pending_with id l
    else pending_with id l.
Proof.
  unfold pending_with. rewrite filter_cons.
  destruct (decide (ID r = id ∧ Fired r = false)) as [[He Hf] | Hn].
  - apply String.eqb_eq in He. by rewrite He, Hf.
  - destruct (String.eqb_spec (ID r) id) as [He | Hne]; [| done].
    destruct (Fired r) eqn:Hf; [done |]. exfalso. by apply Hn.
Qed.

Lemma mark_fired_pending id l :
  (∀ id', id' ≠ id →
          pending_with id' (mark_fired (fun r => negb (Fired r)) id l).1
          = pending_with id' l)
  ∧ match pending_with id l with
    | [] => mark_fired (fun r => negb (Fired r)) id l = (l, false)
    | _ :: rest =>
        (mark_fired (fun r => negb (Fired r)) id l).2 = true
        ∧ pending_with id (mark_fired (fun r => negb (Fired r)) id l).1 = rest
    end.
Proof.
  induction l as [|r l [IHo IHp]]; [done |].
  cbn [mark_fired]. rewrite pending_with_cons.
  destruct (String.eqb (ID r) id && negb (Fired r)) eqn:Hc.
  - apply andb_true_iff in Hc as [He Hf]. apply String.eqb_eq in He.
    split.
    + intros id' Hne. cbn [fst]. rewrite !pending_with_cons. cbn [ID Fired].
      destruct (String.eqb_spec (ID r) id'); [congruence | done].
    + cbn [fst snd]. split; [done |]. rewrite pending_with_cons. cbn [ID Fired].
      by rewrite andb_false_r.
  - destruct (mark_fired (fun r => negb (Fired r)) id l) as [l' found] eqn:Hm.
    cbn [fst snd] in *. split.
    + intros id' Hne. rewrite !pending_with_cons, IHo by done. done.
    + destruct (pending_with id l) as [|p rest].
      * by injection IHp as -> ->.
      * rewrite pending_with_cons, Hc. done.
Qed.

(** X14: [cancel] with an ID stops the timer of that ID.  If no stored
    reminder with the ID is pending it reports so and leaves the file as it
    was; otherwise it fires exactly the first pending reminder with the ID.
    Pending reminders with other IDs are not touched. *)
Theorem X14_cancel_fires_the_first_pending_match
        (t : ReminderTool) (disk : file (list reminder)) (args : gmap string value) :
  arg_string args "id" ≠ "" →
  let id := arg_string args "id" in
  let res := (cancel t disk args).1.1 in
  let t' := (cancel t disk args).1.2 in
  let disk' := (cancel t disk args).2 in
  timers t' !! id = None ∧ nextID t' = nextID t
  ∧ (∀ id', id' ≠ id →
            pending_with id' (loadRemindersLocked disk')
            = pending_with id' (loadRemindersLocked disk))
  ∧ match pending_with id (loadRemindersLocked disk) with
    | [] => disk' = disk
            ∧ res = SilentResult ("Reminder #" +:+ id +:+ " not found or already fired")
    | _ :: rest =>
        pending_with id (loadRemindersLocked disk') = rest
        ∧ res = SilentResult ("Reminder #" +:+ id +:+ " cancelled")
    end.
Proof.
  intros Hid id res t' disk'. unfold res, t', disk', cancel. fold id.
  apply eqb_false_iff in Hid. fold id in Hid. rewrite Hid.
  destruct (mark_fired_pending id (loadRemindersLocked disk)) as [Ho Hp].
  destruct (mark_fired (fun r => negb (Fired r)) id (loadRemindersLocked disk))
    as [l' found] eqn:Hm.
  cbn [fst snd] in *.
  destruct (pending_with id (loadRemindersLocked disk)) as [|p rest] eqn:Hpend.
  - injection Hp as -> ->. cbn [fst snd].
    split; [apply lookup_delete_eq |]. split; [done |]. done.
  - destruct Hp as [-> Hrest]. cbn [fst snd].
    split; [apply lookup_delete_eq |]. split; [done |].
    split; [exact Ho | done].
Qed.

End ReminderCancelFacts.

Lemma X14_cancel_fires_the_first_pending_match_witness :
  let id := arg_string Reminder.cancel_one "id" in
  let c := Reminder.cancel (Reminder.NewReminderTool true)
             (Stored [Reminder.pending_one]) Reminder.cancel_one in
  Reminder.timers c.1.2 !! id = None
  ∧ Reminder.nextID c.1.2 = Reminder.nextID (Reminder.NewReminderTool true)
  ∧ (∀ id', id' ≠ id →
            Reminder.pending_with id' (Reminder.loadRemindersLocked c.2)
            = Reminder.pending_with id'
                (Reminder.loadRemindersLocked (Stored [Reminder.pending_one])))
  ∧ match Reminder.pending_with id
            (Reminder.loadRemindersLocked (Stored [Reminder.pending_one])) with
    | [] => c.2 = Stored [Reminder.pending_one]
            ∧ c.1.1 = SilentResult ("Reminder #" +:+ id +:+ " not found or already fired")
    | _ :: rest =>
        Reminder.pending_with id (Reminder.loadRemindersLocked c.2) = rest
        ∧ c.1.1 = SilentResult ("Reminder #" +:+ id +:+ " cancelled")
    end.
Proof.
  apply (X14_cancel_fires_the_first_pending_match (Reminder.NewReminderTool true)
           (Stored [Reminder.pending_one]) Reminder.cancel_one).
  vm_compute. discriminate.
Defined.

(** ** The telemetry ledger over its life *)

Section TelemetryLedgerFacts.
Import Telemetry.
Context {Time : Type} `{Clock Time}.
Variable json_MarshalIndent : Datatypes.list DayBucket → string.

Lemma find_day_None date days :
  find_day date days = None ↔ date ∉ Date <$> days.
Proof.
  induction days as [|d days IH]; simpl.
  - split; [intros _; apply not_elem_of_nil | done].
  - rewrite not_elem_of_cons.
    destruct (String.eqb_spec (Date d) date) as [Heq | Hne].
    + split; [done | intros [Hn _]; by destruct Hn].
    + destruct (find_day date days) as [j|]; simpl.
      * split; [done |]. intros [_ Hn]. by apply IH in Hn.
      * split; [| done]. intros _. split; [done | by apply IH].
Qed.

Lemma find_day_alter g date i days :
  (∀ d, Date (g d) = Date d) →
  find_day date (alter g i days) = find_day date days.
Proof.
  intros Hg. revert i. induction days as [|d days IH]; intros i; [done |].
  destruct i as [|i]; simpl.
  - by rewrite Hg.
  - by rewrite <- (IH i).
Qed.

Lemma find_day_app_Some date days x i :
  find_day date days = Some i → find_day date (days ++ [x]) = Some i.
Proof.
  revert i. induction days as [|d days IH]; intros i; simpl; [done |].
  destruct (String.eqb (Date d) date); [done |].
  destruct (find_day date days) as [j|]; simpl; [| done].
  intros [= <-]. by rewrite (IH j).
Qed.

Lemma find_day_app_None date days x :
  find_day date days = None →
  find_day date (days ++ [x])
  = if String.eqb (Date x) date then Some (length days) else None.
Proof.
  induction days as [|d days IH]; simpl.
  - intros _. by destruct (String.eqb (Date x) date).
  - destruct (String.eqb (Date d) date); [done |].
    destruct (find_day date days) as [j|]; simpl; [done |].
    intros _. rewrite IH by done. by destruct (String.eqb (Date x) date).
Qed.

Lemma alter_last {A} (g : A → A) (l : Datatypes.list A) x :
  alter g (length l) (l ++ [x]) = l ++ [g x].
Proof. induction l as [|a l IH]; simpl; [done | by rewrite <- IH]. Qed.

(** What one [Record] does to the answer of [GetDay]. *)
Lemma GetDay_Record t now feature p c tot date :
  GetDay (Record_ t now feature p c tot) date
  = if negb ((tot =? 0) && (p =? 0) && (c =? 0))
       && String.eqb (FormatDate now) date
    then Some (record_into feature p c tot
                 (default (mkDay date ∅ fb_zero) (GetDay t date)))
    else GetDay t date.
Proof.
  unfold Record_.
  destruct ((tot =? 0) && (p =? 0) && (c =? 0)); [done |].
  cbn [negb andb]. unfold getOrCreateDay.
  destruct (find_day (FormatDate now) (data t)) as [i|] eqn:Ei.
  - unfold GetDay. cbn [data]. rewrite find_day_alter by done.
    destruct (find_day_lookup _ _ _ Ei) as (d & Hd & Hdate).
    destruct (String.eqb_spec (FormatDate now) date) as [<- | Hne].
    + rewrite Ei, list_lookup_alter_eq, Hd. done.
    + destruct (find_day date (data t)) as [j|] eqn:Ej; [| done].
      apply list_lookup_alter_ne. intros ->.
      destruct (find_day_lookup _ _ _ Ej) as (d' & Hd' & Hdate').
      congruence.
  - unfold GetDay. cbn [data]. rewrite alter_last.
    destruct (find_day date (data t)) as [j|] eqn:Ej.
    + rewrite (find_day_app_Some _ _ _ _ Ej).
      destruct (String.eqb_spec (FormatDate now) date) as [<- | Hne];
        [congruence |].
      destruct (find_day_lookup _ _ _ Ej) as (d' & Hd' & _).
      apply lookup_app_l. by eapply lookup_lt_Some.
    + rewrite find_day_app_None by done. cbn [record_into Date].
      destruct (String.eqb_spec (FormatDate now) date) as [<- | Hne]; [| done].
      by rewrite list_lookup_middle.
Qed.

Lemma calls_on_cons date (c : @call Time) cs :
  calls_on date (c :: cs)
  = if is_counted c && String.eqb (FormatDate (c_now c)) date
    then c :: calls_on date cs else calls_on date cs.
Proof.
  unfold calls_on. rewrite filter_cons.
  destruct (decide (is_counted c = true ∧ FormatDate (c_now c) = date))
    as [[Hc Hd] | Hn].
  - apply String.eqb_eq in Hd. by rewrite Hc, Hd.
  - destruct (is_counted c); [| done].
    destruct (String.eqb_spec (FormatDate (c_now c)) date); [| done].
    exfalso. by apply Hn.
Qed.

Lemma calls_for_cons f (c : @call Time) cs :
  calls_for f (c :: cs)
  = if String.eqb (c_feature c) f then c :: calls_for f cs else calls_for f cs.
Proof.
  unfold calls_for. rewrite filter_cons.
  destruct (decide (c_feature c = f)) as [He | Hne].
  - apply String.eqb_eq in He. by rewrite He.
  - by destruct (String.eqb_spec (c_feature c) f).
Qed.

(** [GetDay] after a run of calls, from [GetDay] before it. *)
Lemma GetDay_run t (calls : Datatypes.list (@call Time)) date :
  GetDay (run t calls) date
  = match calls_on date calls with
    | [] => GetDay t date
    | cs => Some (record_calls (default (mkDay date ∅ fb_zero) (GetDay t date)) cs)
    end.
Proof.
  revert t. induction calls as [|c calls IH]; intros t; [done |].
  cbn [run foldl]. fold (run (Record_ t (c_now c) (c_feature c) (c_prompt c)
                                      (c_completion c) (c_total c)) calls).
  rewrite IH, GetDay_Record, calls_on_cons. fold (is_counted c).
  destruct (is_counted c && String.eqb (FormatDate (c_now c)) date); [| done].
  by destruct (calls_on date calls).
Qed.

Lemma record_calls_date b (cs : Datatypes.list (@call Time)) :
  Date (record_calls b cs) = Date b.
Proof.
  revert b. induction cs as [|c cs IH]; intros b; [done |].
  cbn [record_calls foldl]. fold (record_calls (record_into (c_feature c) (c_prompt c)
                                    (c_completion c) (c_total c) b) cs).
  by rewrite IH.
Qed.

Lemma record_calls_totals b (cs : Datatypes.list (@call Time)) :
  Totals (record_calls b cs) = bump_all (Totals b) cs.
Proof.
  revert b. induction cs as [|c cs IH]; intros b; [done |].
  cbn [record_calls bump_all foldl].
  fold (record_calls (record_into (c_feature c) (c_prompt c)
                        (c_completion c) (c_total c) b) cs).
  by rewrite IH.
Qed.

Lemma record_calls_features b (cs : Datatypes.list (@call Time)) f :
  Features (record_calls b cs) !! f
  = match calls_for f cs with
    | [] => Features b !! f
    | fcs => Some (bump_all (default fb_zero (Features b !! f)) fcs)
    end.
Proof.
  revert b. induction cs as [|c cs IH]; intros b; [done |].
  cbn [record_calls foldl].
  fold (record_calls (record_into (c_feature c) (c_prompt c)
                        (c_completion c) (c_total c) b) cs).
  rewrite IH, calls_for_cons. cbn [record_into Features].
  destruct (String.eqb_spec (c_feature c) f) as [<- | Hne].
  - rewrite lookup_insert_eq. by destruct (calls_for (c_feature c) cs).
  - by rewrite lookup_insert_ne.
Qed.

Lemma bump_all_exact (cs : Datatypes.list (@call Time)) fb :
  PromptTokens (bump_all fb cs)
  = (if cs is [] then PromptTokens fb
     else Go.wrap64 (PromptTokens fb + sum_over c_prompt cs))
  ∧ CompletionTokens (bump_all fb cs)
    = (if cs is [] then CompletionTokens fb
       else Go.wrap64 (CompletionTokens fb + sum_over c_completion cs))
  ∧ TotalTokens (bump_all fb cs)
    = (if cs is [] then TotalTokens fb
       else Go.wrap64 (TotalTokens fb + sum_over c_total cs))
  ∧ Calls (bump_all fb cs)
    = (if cs is [] then Calls fb
       else Go.wrap64 (Calls fb + Z.of_nat (length cs))).
Proof.
  revert fb. induction cs as [|c cs IH]; intros fb; [done |].
  cbn [bump_all foldl].
  fold (bump_all (fb_bump fb (c_prompt c) (c_completion c) (c_total c)) cs).
  destruct (IH (fb_bump fb (c_prompt c) (c_completion c) (c_total c)))
    as (Hp & Hc & Ht & Hn).
  rewrite Hp, Hc, Ht, Hn. cbn [fb_bump PromptTokens CompletionTokens TotalTokens Calls].
  unfold Go.add64. destruct cs as [|c' cs].
  - cbn [sum_over foldr length]. rewrite !Z.add_0_r. done.
  - rewrite !wrap64_add_l.
    repeat split; f_equal; cbn [sum_over foldr length]; lia.
Qed.

(** X16: after any calls of [Record] on an empty tracker, [GetDay] knows a
    date exactly when some counted call was made on it, and then the day's
    totals, and each feature's bucket, are the token arguments of the calls
    of that day (of that feature) added up and reduced to 64 bits, with
    [Calls] their number.  Calls with three zeros and calls of other days
    do not show. *)
Theorem X16_day_totals_aggregate_the_calls
        (fp : string) (calls : Datatypes.list (@call Time)) (date : string) :
  let t := run (empty_tracker fp) calls in
  let cs := calls_on date calls in
  let sums (fb : FeatureBucket) (l : Datatypes.list (@call Time)) :=
    PromptTokens fb = Go.wrap64 (sum_over c_prompt l)
    ∧ CompletionTokens fb = Go.wrap64 (sum_over c_completion l)
    ∧ TotalTokens fb = Go.wrap64 (sum_over c_total l)
    ∧ Calls fb = Go.wrap64 (Z.of_nat (length l)) in
  match GetDay t date with
  | None => cs = []
  | Some d =>
      cs ≠ [] ∧ Date d = date ∧ sums (Totals d) cs
      ∧ ∀ f, match Features d !! f with
             | None => calls_for f cs = []
             | Some fb => calls_for f cs ≠ [] ∧ sums fb (calls_for f cs)
             end
  end.
Proof.
  intros t cs sums. unfold t. rewrite GetDay_run. fold cs.
  assert (Hsums : ∀ l, l ≠ [] → sums (bump_all fb_zero l) l).
  { intros l Hl. destruct (bump_all_exact l fb_zero) as (Hp & Hc & Ht & Hn).
    unfold sums. rewrite Hp, Hc, Ht, Hn. destruct l; [done |]. done. }
  destruct cs as [|c cs'] eqn:Hcs; [done |].
  change (GetDay (empty_tracker fp) date) with (@None DayBucket).
  cbn [default].
  split; [done |]. split; [by rewrite record_calls_date |].
  split.
  - rewrite record_calls_totals. by apply Hsums.
  - intros f. rewrite record_calls_features. cbn [Features].
    rewrite lookup_empty. cbn [default].
    destruct (calls_for f (c :: cs')) as [|c1 l1] eqn:Hf; [done |].
    split; [done |]. by apply Hsums.
Qed.

End TelemetryLedgerFacts.

Section TelemetryLifeFacts.
Import Telemetry.
Context {Time : Type} `{Clock Time}.
Variable json_MarshalIndent : Datatypes.list DayBucket → string.
Variable maxSliceCap : Z.

Lemma dates_alter g i (days : Datatypes.list DayBucket) :
  (∀ d, Date (g d) = Date d) → Date <$> alter g i days = Date <$> days.
Proof.
  intros Hg. revert i. induction days as [|d days IH]; intros i; [done |].
  destruct i as [|i]; simpl.
  - by rewrite Hg.
  - f_equal. apply IH.
Qed.

Lemma Record_dates_unique t now feature p c tot :
  NoDup (Date <$> data t) →
  NoDup (Date <$> data (Record_ t now feature p c tot)).
Proof.
  intros Hnd. unfold Record_.
  destruct ((tot =? 0) && (p =? 0) && (c =? 0)); [done |].
  unfold getOrCreateDay.
  destruct (find_day (FormatDate now) (data t)) as [i|] eqn:Ei; cbn [data].
  - by rewrite dates_alter.
  - rewrite alter_last, fmap_app. apply NoDup_app.
    split; [done |]. split; [| apply NoDup_singleton].
    intros x Hx Hin. apply list_elem_of_singleton in Hin. subst x.
    apply find_day_None in Ei. by apply Ei.
Qed.

Lemma Flush_keeps_invariants t now :
  NoDup (Date <$> data t) → Forall consistent (data t) →
  NoDup (Date <$> data (Flush json_MarshalIndent t now).1)
  ∧ Forall consistent (data (Flush json_MarshalIndent t now).1).
Proof.
  intros Hnd Hall. unfold Flush. destruct (dirty t); cbn [negb fst data]; [| done].
  unfold prune. split.
  - eapply sublist_NoDup; [exact Hnd |]. apply fmap_sublist, sublist_filter.
  - apply Forall_forall. intros d Hd. apply list_elem_of_filter in Hd as [_ Hd].
    rewrite Forall_forall in Hall. by apply Hall.
Qed.

Lemma GetDay_of_unique_date t d :
  NoDup (Date <$> data t) → d ∈ data t → GetDay t (Date d) = Some d.
Proof.
  unfold GetDay. generalize (data t). clear t.
  intros days. induction days as [|d0 days IH]; intros Hnd Hin.
  - by apply elem_of_nil in Hin.
  - rewrite fmap_cons in Hnd. apply NoDup_cons in Hnd as [Hfresh Hnd].
    apply elem_of_cons in Hin as [-> | Hin].
    + cbn [find_day]. by rewrite String.eqb_refl.
    + cbn [find_day].
      destruct (String.eqb_spec (Date d0) (Date d)) as [Heq | Hne].
      * exfalso. apply Hfresh. rewrite Heq. by apply list_elem_of_fmap_2.
      * specialize (IH Hnd Hin).
        destruct (find_day (Date d) days) as [i|]; [| done]. exact IH.
Qed.

(** X15: however calls of [Record] and [Flush] alternate on a tracker that
    started empty, no two day buckets have the same date, the totals of
    every day are the sum of its features, and every stored day is the one
    [GetDay] returns for its date. *)
Theorem X15_ledger_invariants_survive_flushes
        (fp : string) (ops : Datatypes.list (@op Time)) :
  let t := play json_MarshalIndent (empty_tracker fp) ops in
  NoDup (Date <$> data t)
  ∧ Forall consistent (data t)
  ∧ ∀ d, d ∈ data t → GetDay t (Date d) = Some d.
Proof.
  intros t.
  assert (Hinv : NoDup (Date <$> data t) ∧ Forall consistent (data t)).
  { unfold t.
    assert (Hstart : NoDup (Date <$> data (empty_tracker fp))
                     ∧ Forall consistent (data (empty_tracker fp))).
    { split; [apply NoDup_nil_2 | constructor]. }
    revert Hstart. generalize (empty_tracker fp).
    induction ops as [|o ops IH]; intros t0 [Hnd Hall]; [done |].
    cbn [play foldl]. apply IH. destruct o as [c | now].
    - split; [by apply Record_dates_unique | by apply Record_consistent].
    - by apply Flush_keeps_invariants. }
  destruct Hinv as [Hnd Hall]. split; [done |]. split; [done |].
  intros d Hd. by apply GetDay_of_unique_date.
Qed.

Lemma last_days_loop_spec days n k :
  ∀ fuel result,
    (k <= fuel)%nat → (k <= length days)%nat →
    last_days_loop fuel days (Z.of_nat k - 1) n result
    = result ++ take (Z.to_nat (n - Z.of_nat (length result)))
                     (reverse (take k days)).
Proof.
  induction k as [|k IH]; intros fuel result Hf Hk.
  - rewrite take_0, reverse_nil, take_nil, app_nil_r.
    destruct fuel; [done |]. cbn [last_days_loop].
    destruct (Z.leb_spec 0 (Z.of_nat 0 - 1)); [lia | done].
  - destruct fuel as [|fuel]; [lia |]. cbn [last_days_loop].
    destruct (Z.leb_spec 0 (Z.of_nat (S k) - 1)); [| lia].
    replace (Z.to_nat (Z.of_nat (S k) - 1)) with k by lia.
    destruct (lookup_lt_is_Some_2 days k ltac:(lia)) as [d Hd].
    rewrite Hd, (take_S_r _ _ _ Hd), reverse_snoc.
    destruct (Z.ltb_spec (Z.of_nat (length result)) n) as [Hlt | Hge]; cbn [andb].
    + replace (Z.of_nat (S k) - 1 - 1) with (Z.of_nat k - 1) by lia.
      rewrite IH by lia. rewrite length_app. cbn [length].
      replace (Z.to_nat (n - Z.of_nat (length result)))
        with (S (Z.to_nat (n - Z.of_nat (length result + 1)))) by lia.
      cbn [take]. by rewrite <- app_assoc.
    + replace (Z.to_nat (n - Z.of_nat (length result))) with O by lia.
      by rewrite take_0, app_nil_r.
Qed.

(** X17: [GetLastNDays] panics when [n] is negative or beyond the largest
    slice capacity; otherwise it returns the last [n] stored days, newest
    first, or all of them when fewer are stored. *)
Theorem X17_last_n_days_are_the_newest_first (t : Tracker) (n : Z) :
  GetLastNDays maxSliceCap t n
  = if (n <? 0) || (maxSliceCap <? n) then None
    else Some (take (Z.to_nat n) (reverse (data t))).
Proof.
  unfold GetLastNDays. destruct ((n <? 0) || (maxSliceCap <? n)); [done |].
  rewrite last_days_loop_spec by lia.
  cbn [length app]. rewrite Z.sub_0_r, firstn_all. done.
Qed.

Lemma GetDay_filter cutoff date (days : Datatypes.list DayBucket) fp b fp' b' :
  GetDay (mkTracker (filter (fun d => Go.str_ge (Date d) cutoff = true) days) fp b) date
  = if Go.str_ge date cutoff then GetDay (mkTracker days fp' b') date else None.
Proof.
  unfold GetDay. cbn [data].
  induction days as [|d days IH].
  - by destruct (Go.str_ge date cutoff).
  - rewrite filter_cons.
    destruct (decide (Go.str_ge (Date d) cutoff = true)) as [Hp | Hn];
      cbn [find_day];
      destruct (String.eqb_spec (Date d) date) as [<- | Hne].
    + by rewrite Hp.
    + destruct (find_day date (filter _ days)) as [i|],
               (find_day date days) as [j|],
               (Go.str_ge date cutoff); simpl in *; done.
    + apply not_true_is_false in Hn. rewrite Hn in *. exact IH.
    + destruct (find_day date days) as [j|]; simpl in *; exact IH.
Qed.

(** X18: [Flush] never loses a day inside the window: for a date at or after
    the cut-off [GetDay] answers after the flush what it answered before,
    and the days that stay keep their order.  After a flush of a dirty
    tracker a date before the cut-off is unknown. *)
Theorem X18_flush_keeps_the_days_in_the_window
        (t : Tracker) (now : Time) (date : string) :
  let t' := (Flush json_MarshalIndent t now).1 in
  (Go.str_ge date (cutoff30 now) = true → GetDay t' date = GetDay t date)
  ∧ (dirty t = true → Go.str_ge date (cutoff30 now) = false →
     GetDay t' date = None)
  ∧ data t' `sublist_of` data t.
Proof.
  intros t'. unfold t', Flush.
  destruct (dirty t) eqn:Hd; cbn [negb fst].
  - unfold prune, cutoff30.
    pose proof (GetDay_filter (FormatDate (AddDays now (- 30))) date (data t)
                  (filePath t) false (filePath t) (dirty t)) as Hg.
    split; [| split].
    + intros Hge. rewrite Hge in Hg. destruct t. exact Hg.
    + intros _ Hlt. rewrite Hlt in Hg. exact Hg.
    + cbn [data]. apply sublist_filter.
  - split; [done |]. split; [done | reflexivity].
Qed.

End TelemetryLifeFacts.

(** ** Deleting notes *)

Section NoteDeleteFacts.
Import Notes.

Lemma find_note_filter_ne key k (notes : Datatypes.list memoryNote) :
  k ≠ key → find_note k (filter (fun n => Key n ≠ key) notes) = find_note k notes.
Proof.
  intros Hk. induction notes as [|n notes IH]; [done |].
  rewrite filter_cons. destruct (decide (Key n ≠ key)) as [Hne | Heq]; simpl.
  - by rewrite IH.
  - apply dec_stable in Heq. rewrite IH.
    destruct (String.eqb_spec (Key n) k); [congruence | done].
Qed.

Lemma existsb_key_find_note key notes :
  existsb (fun n => String.eqb (Key n) key) notes
  = bool_decide (is_Some (find_note key notes)).
Proof.
  induction notes as [|n notes IH]; simpl.
  - done.
  - destruct (String.eqb (Key n) key); simpl; done.
Qed.

(** X19: on a notes file that exists, [del] with a key removes every note
    of that key and no other: the notes left are those of the other keys, in
    their order, and what [recall] finds under any other key is unchanged.
    When no note has the key the file is left as it was. *)
Theorem X19_note_delete_removes_the_key_only
        (fp : string) (notes : Datatypes.list memoryNote) (args : gmap string value) :
  arg_string args "key" ≠ "" →
  let key := arg_string args "key" in
  let res := (del fp (Stored notes) args).1 in
  let left := decode_lenient (del fp (Stored notes) args).2 in
  (∀ n, n ∈ left ↔ n ∈ notes ∧ Key n ≠ key)
  ∧ left `sublist_of` notes
  ∧ find_note key left = None
  ∧ (∀ k, k ≠ key → find_note k left = find_note k notes)
  ∧ match find_note key notes with
    | None => (del fp (Stored notes) args).2 = Stored notes
              ∧ res = SilentResult ("No note found with key '" +:+ key +:+ "'")
    | Some _ => res = SilentResult ("Note '" +:+ key +:+ "' deleted")
    end.
Proof.
  intros Hk key res left. unfold res, left, del. fold key.
  apply eqb_false_iff in Hk. fold key in Hk. rewrite Hk. cbn [decode_lenient].
  rewrite existsb_key_find_note.
  destruct (find_note key notes) as [n0|] eqn:E.
  - rewrite bool_decide_eq_true_2 by done. cbn [fst snd decode_lenient].
    split; [| split; [| split; [| split]]].
    + intros n. rewrite list_elem_of_filter. tauto.
    + apply sublist_filter.
    + apply find_note_filter.
    + intros k Hne. by apply find_note_filter_ne.
    + done.
  - rewrite bool_decide_eq_false_2 by (by intros [? ?]). cbn [fst snd decode_lenient].
    split; [| split; [| split; [| split]]]; try done.
    intros n. split; [| tauto]. intros Hin. split; [done |].
    intros Hkey. clear Hk. induction notes as [|m notes IH]; [by apply elem_of_nil in Hin |].
    simpl in E. destruct (String.eqb_spec (Key m) key) as [Hm | Hm]; [done |].
    apply elem_of_cons in Hin as [-> | Hin]; [done | by apply IH].
Qed.

End NoteDeleteFacts.

Lemma X19_note_delete_removes_the_key_only_witness :
  let notes := Notes.decode_lenient
                 (Notes.save NoFile Notes.save_pw "2024-06-10T10:00:00Z").2 in
  let key := arg_string delete_pw "key" in
  let res := (Notes.del "memory/notes.json" (Stored notes) delete_pw).1 in
  let left := Notes.decode_lenient
                (Notes.del "memory/notes.json" (Stored notes) delete_pw).2 in
  (∀ n, n ∈ left ↔ n ∈ notes ∧ Notes.Key n ≠ key)
  ∧ left `sublist_of` notes
  ∧ Notes.find_note key left = None
  ∧ (∀ k, k ≠ key → Notes.find_note k left = Notes.find_note k notes)
  ∧ match Notes.find_note key notes with
    | None => (Notes.del "memory/notes.json" (Stored notes) delete_pw).2 = Stored notes
              ∧ res = SilentResult ("No note found with key '" +:+ key +:+ "'")
    | Some _ => res = SilentResult ("Note '" +:+ key +:+ "' deleted")
    end.
Proof.
  apply (X19_note_delete_removes_the_key_only "memory/notes.json"
           (Notes.decode_lenient
              (Notes.save NoFile Notes.save_pw "2024-06-10T10:00:00Z").2)
           delete_pw).
  vm_compute. discriminate.
Defined.

(** ** Durations with days *)

Section ParseDurationFacts.
Import Reminder.
Variable strings_ToLower : string → string.
Variable strings_TrimSpace : string → string.
Variable time_ParseDuration : string → string + Z.

Lemma digit_char_not_d m : 0 <= m <= 9 → Ascii.eqb (Go.digit_char m) "d" = false.
Proof.
  intros Hm. destruct (Ascii.eqb_spec (Go.digit_char m) "d") as [He |]; [| done].
  pose proof (digit_val_char m Hm) as Hv. rewrite He in Hv.
  vm_compute in Hv. discriminate.
Qed.

Lemma digits_fuel_no_d fuel n acc :
  has_byte "d" acc = false → has_byte "d" (Go.digits_fuel fuel n acc) = false.
Proof.
  revert n acc. induction fuel as [|fuel IH]; intros n acc Hacc; [done |].
  cbn [Go.digits_fuel].
  assert (has_byte "d" (String (Go.digit_char (n mod 10)) acc) = false) as Hstep.
  { cbn [has_byte]. rewrite digit_char_not_d, Hacc; [done |].
    pose proof (Z.mod_pos_bound n 10 ltac:(lia)). lia. }
  destruct (n <? 10); [done | by apply IH].
Qed.

Lemma itoa_no_d z : has_byte "d" (Go.itoa z) = false.
Proof.
  unfold Go.itoa, Go.utoa. destruct (z <? 0).
  - cbn [has_byte]. rewrite digits_fuel_no_d by done. reflexivity.
  - by apply digits_fuel_no_d.
Qed.

(** X20: when the trimmed, lower-cased input is a decimal number followed by
    [d], [parseDuration] takes that many days of 24 hours, multiplied in 64
    bits without an overflow check, and adds what [time.ParseDuration] makes
    of the rest when there is one (or returns its error).  Up to 106751
    days the product is exact. *)
Theorem X20_days_are_24_hours_in_64_bits (s0 rest : string) (n : Z) :
  Go.in_int64 n →
  strings_TrimSpace (strings_ToLower s0) = Go.itoa n +:+ String "d" rest →
  parseDuration strings_ToLower strings_TrimSpace time_ParseDuration s0
  = (if String.eqb (strings_TrimSpace rest) "" then inr (Go.wrap64 (n * 24 * Hour))
     else match time_ParseDuration (strings_TrimSpace rest) with
          | inl err => inl err
          | inr extra => inr (Go.add64 (Go.wrap64 (n * 24 * Hour)) extra)
          end)
  ∧ (-106751 <= n <= 106751 → Go.wrap64 (n * 24 * Hour) = n * 24 * Hour).
Proof.
  intros Hn Hs. split.
  - unfold parseDuration. rewrite Hs, split_first_complete by apply itoa_no_d.
    by rewrite Atoi_itoa.
  - intros Hsmall. apply wrap64_small.
    unfold Go.in_int64, Go.MinInt64, Go.MaxInt64, Hour. lia.
Qed.

End ParseDurationFacts.

Lemma X20_days_are_24_hours_in_64_bits_witness :
  Reminder.parseDuration id id Reminder.parse_30m "2d30m"
  = (if String.eqb (id "30m") "" then inr (Go.wrap64 (2 * 24 * Reminder.Hour))
     else match Reminder.parse_30m (id "30m") with
          | inl err => inl err
          | inr extra => inr (Go.add64 (Go.wrap64 (2 * 24 * Reminder.Hour)) extra)
          end)
  ∧ (-106751 <= 2 <= 106751 →
     Go.wrap64 (2 * 24 * Reminder.Hour) = 2 * 24 * Reminder.Hour).
Proof.
  apply (X20_days_are_24_hours_in_64_bits id id Reminder.parse_30m "2d30m" "30m" 2).
  - unfold Go.in_int64, Go.MinInt64, Go.MaxInt64. simpl. lia.
  - vm_compute. reflexivity.
Defined.

(** ** Saving a snippet twice *)

Section SnippetResaveFacts.
Import Snippets.

(** X21: a snippet saved and then saved again under the same name holds the
    second content, tags and update time but the creation time of the first
    save (or of the snippet that was there before), and the second save
    reports an update.  Neither the saves nor a later delete of the name
    change the snippet of any other name, and after the delete the name is
    gone. *)
Theorem X21_snippet_resave_keeps_creation_time
        (disk : file (gmap string snippet)) (args1 args2 : gmap string value)
        (now1 now2 other : string) :
  arg_string args1 "name" ≠ "" → arg_string args1 "content" ≠ "" →
  arg_string args2 "name" = arg_string args1 "name" →
  arg_string args2 "content" ≠ "" →
  let name := arg_string args1 "name" in
  let disk1 := (save disk args1 now1).2 in
  let disk2 := (save disk1 args2 now2).2 in
  let disk3 := (del disk2 args1).2 in
  loadSnippets disk2 !! name
  = Some {| Content := arg_string args2 "content"; Tags := arg_tags args2;
            CreatedAt := match loadSnippets disk !! name with
                         | Some old => CreatedAt old
                         | None => now1
                         end;
            UpdatedAt := now2 |}
  ∧ (save disk1 args2 now2).1 = SilentResult ("Snippet '" +:+ name +:+ "' updated")
  ∧ (other ≠ name →
     loadSnippets disk2 !! other = loadSnippets disk !! other
     ∧ loadSnippets disk3 !! other = loadSnippets disk !! other)
  ∧ loadSnippets disk3 !! name = None.
Proof.
  intros Hn Hc Hsame Hc2 name disk1 disk2 disk3.
  unfold disk3, disk2, disk1, del, save. rewrite Hsame. fold name.
  apply eqb_false_iff in Hn, Hc, Hc2. fold name in Hn.
  rewrite Hn, Hc, Hc2. cbn [orb snd fst loadSnippets].
  rewrite !lookup_insert_eq. cbn [snd fst loadSnippets CreatedAt].
  rewrite lookup_delete_eq.
  split; [done |]. split.
  - rewrite bool_decide_eq_true_2; [done | by eexists].
  - split; [| done]. intros Hne.
    rewrite lookup_delete_ne by done. rewrite !lookup_insert_ne by done. done.
Qed.

End SnippetResaveFacts.

Lemma X21_snippet_resave_keeps_creation_time_witness :
  let name := arg_string Snippets.save_sig "name" in
  let disk1 := (Snippets.save NoFile Snippets.save_sig "2024-06-10T10:00:00Z").2 in
  let disk2 := (Snippets.save disk1 Snippets.save_sig_again "2024-06-11T10:00:00Z").2 in
  let disk3 := (Snippets.del disk2 Snippets.save_sig).2 in
  Snippets.loadSnippets disk2 !! name
  = Some {| Snippets.Content := arg_string Snippets.save_sig_again "content";
            Snippets.Tags := arg_tags Snippets.save_sig_again;
            Snippets.CreatedAt :=
              match Snippets.loadSnippets NoFile !! name with
              | Some old => Snippets.CreatedAt old
              | None => "2024-06-10T10:00:00Z"
              end;
            Snippets.UpdatedAt := "2024-06-11T10:00:00Z" |}
  ∧ (Snippets.save disk1 Snippets.save_sig_again "2024-06-11T10:00:00Z").1
    = SilentResult ("Snippet '" +:+ name +:+ "' updated")
  ∧ ("other" ≠ name →
     Snippets.loadSnippets disk2 !! "other" = Snippets.loadSnippets NoFile !! "other"
     ∧ Snippets.loadSnippets disk3 !! "other" = Snippets.loadSnippets NoFile !! "other")
  ∧ Snippets.loadSnippets disk3 !! name = None.
Proof.
  apply (X21_snippet_resave_keeps_creation_time NoFile Snippets.save_sig
           Snippets.save_sig_again "2024-06-10T10:00:00Z" "2024-06-11T10:00:00Z"
           "other").
  - vm_compute. discriminate.
  - vm_compute. discriminate.
  - vm_compute. reflexivity.
  - vm_compute. discriminate.
Defined.

(** ** The bearer check, exactly *)

Section EqualFoldRunes.
Import GoStrings.
Variable simple_fold_reaches : Z → Z → bool.

Lemma runes_fuel_enough fuel1 fuel2 s :
  (String.length s <= fuel1)%nat → (String.length s <= fuel2)%nat →
  runes_fuel fuel1 s = runes_fuel fuel2 s.
Proof.
  revert fuel2 s. induction fuel1 as [|fuel1 IH]; intros fuel2 [|c s] H1 H2;
    simpl in H1, H2; try lia.
  - by destruct fuel2.
  - by destruct fuel2.
  - destruct fuel2 as [|fuel2]; [lia |]. cbn [runes_fuel].
    pose proof (decode_width c s) as Hw.
    destruct (DecodeRuneInString (String c s)) as [r size]. simpl in Hw.
    f_equal. apply IH; rewrite drop_bytes_length; simpl; lia.
Qed.

Lemma runes_nil : runes "" = [].
Proof. done. Qed.

Lemma runes_cons c s :
  runes (String c s)
  = (DecodeRuneInString (String c s)).1
    :: runes (drop_bytes (DecodeRuneInString (String c s)).2 (String c s)).
Proof.
  unfold runes. cbn [String.length runes_fuel].
  pose proof (decode_width c s) as Hw.
  destruct (DecodeRuneInString (String c s)) as [r size]. simpl in *.
  f_equal. apply runes_fuel_enough; rewrite ?drop_bytes_length; simpl; lia.
Qed.

Lemma runes_ascii c s : byte c < 128 → runes (String c s) = byte c :: runes s.
Proof. intros Hc. by rewrite runes_cons, decode_ascii. Qed.

(** The rune loop compares the two strings rune by rune. *)
Lemma equalFold_unicode_runes fuel s t :
  (String.length s <= fuel)%nat →
  equalFold_unicode simple_fold_reaches fuel s t = true
  ↔ fold_equal simple_fold_reaches s t.
Proof.
  unfold fold_equal.
  revert s t. induction fuel as [|fuel IH]; intros [|c s] t Hlen;
    simpl in Hlen; try lia.
  - destruct t as [|d t]; simpl.
    + split; [constructor | done].
    + rewrite runes_nil, runes_cons. split; [done | intros Hf; inversion Hf].
  - destruct t as [|d t]; simpl.
    + split; [constructor | done].
    + rewrite runes_nil, runes_cons. split; [done | intros Hf; inversion Hf].
  - cbn [GoStrings.equalFold_unicode]. rewrite (runes_cons c s).
    pose proof (decode_width c s) as Hw.
    destruct (DecodeRuneInString (String c s)) as [sr size]. cbn [fst snd] in *.
    destruct t as [|d t].
    + rewrite runes_nil. split; [done | intros Hf; inversion Hf].
    + rewrite (runes_cons d t).
      assert ((if byte d <? RuneSelf then (byte d, t)
               else let '(r, sz) := DecodeRuneInString (String d t) in
                    (r, drop_bytes sz (String d t)))
              = ((DecodeRuneInString (String d t)).1,
                 drop_bytes (DecodeRuneInString (String d t)).2 (String d t))) as ->.
      { destruct (Z.ltb_spec (byte d) RuneSelf) as [Hd | Hd].
        - unfold RuneSelf in Hd. by rewrite decode_ascii.
        - by destruct (DecodeRuneInString (String d t)). }
      set (tr := (DecodeRuneInString (String d t)).1).
      set (t' := drop_bytes (DecodeRuneInString (String d t)).2 (String d t)).
      specialize (IH (drop_bytes size (String c s)) t').
      rewrite drop_bytes_length in IH. cbn [String.length] in IH.
      specialize (IH ltac:(lia)).
      rewrite Forall2_cons, <- IH. unfold rune_fold_eq.
      destruct (tr =? sr), (runes_fold_equal simple_fold_reaches sr tr);
        cbn [orb]; (split; [intros Hx; by split | by intros [? ?]]).
Qed.

Lemma lor_small_l a b : 0 <= a → 0 <= b → Z.lor a b < 128 → a < 128.
Proof.
  intros Ha Hb Hl. destruct (Z.lt_ge_cases a 128) as [|Hge]; [done | exfalso].
  assert (0 < Z.lor a b) as Hpos.
  { pose proof (Z.add_lor_land a b). pose proof (proj2 (Z.land_nonneg a b) (or_introl Ha)).
    pose proof (proj2 (Z.lor_nonneg a b) (conj Ha Hb)).
    destruct (Z.eq_dec (Z.lor a b) 0) as [E | E]; [| lia].
    assert (Z.log2 (Z.lor a b) = Z.max (Z.log2 a) (Z.log2 b)) as Hm
      by (apply Z.log2_lor; lia).
    rewrite E in Hm. simpl in Hm.
    pose proof (Z.log2_le_mono 128 a Hge) as Hm'. change (Z.log2 128) with 7 in Hm'.
    lia. }
  pose proof (Z.log2_lor a b Ha Hb) as Hm.
  pose proof (Z.log2_le_mono 128 a Hge) as Hm'. change (Z.log2 128) with 7 in Hm'.
  pose proof (Z.log2_spec (Z.lor a b) Hpos) as [Hlow _].
  assert (2 ^ 7 <= 2 ^ Z.log2 (Z.lor a b)) by (apply Z.pow_le_mono_r; lia).
  change (2 ^ 7) with 128 in *. lia.
Qed.

(** [EqualFold], byte loop and rune loop together, is equality rune by
    rune up to case. *)
Lemma EqualFold_runes s t :
  EqualFold simple_fold_reaches s t = true ↔ fold_equal simple_fold_reaches s t.
Proof.
  revert t. induction s as [|c s IH]; intros [|d t].
  - unfold fold_equal. simpl. split; [constructor | done].
  - unfold fold_equal. rewrite runes_nil, runes_cons. simpl.
    split; [done | by inversion 1].
  - unfold fold_equal. rewrite runes_nil, runes_cons. simpl.
    split; [done | by inversion 1].
  - cbn [GoStrings.EqualFold].
    destruct (Z.leb_spec RuneSelf (Z.lor (byte c) (byte d))) as [Hge | Hlt].
    + by apply equalFold_unicode_runes.
    + unfold RuneSelf in Hlt.
      pose proof (byte_range c) as Hc. pose proof (byte_range d) as Hd.
      assert (byte c < 128) as Hc'
        by (apply (lor_small_l (byte c) (byte d)); lia).
      assert (byte d < 128) as Hd'
        by (apply (lor_small_l (byte d) (byte c)); [lia | lia | by rewrite Z.lor_comm]).
      unfold fold_equal. rewrite (runes_ascii c s Hc'), (runes_ascii d t Hd').
      specialize (IH t). unfold fold_equal in IH.
      rewrite Forall2_cons, <- IH.
      unfold rune_fold_eq, runes_fold_equal, RuneSelf.
      destruct (Z.ltb_spec (Z.max (byte c) (byte d)) 128); [| lia].
      destruct (byte d =? byte c),
               (ascii_case_pair (Z.min (byte c) (byte d)) (Z.max (byte c) (byte d)));
        cbn [orb]; (split; [intros Hx; by split | by intros [? ?]]).
Qed.

End EqualFoldRunes.

Section WebhookStatusFacts.
Import Webhook.
Variable simple_fold_reaches : Z → Z → bool.
Variable json_Unmarshal : string → string + webhookPayload.

Abbreviation authorized' := (authorized simple_fold_reaches).
Abbreviation handler' := (handler simple_fold_reaches json_Unmarshal).
Abbreviation inbound_of' := (inbound_of simple_fold_reaches json_Unmarshal).
Abbreviation bearer_matches' := (bearer_matches simple_fold_reaches).

(** The handler's test is the bearer check of the spec. *)
Lemma authorized_bearer_matches cfg r :
  authorized' cfg r = true ↔ bearer_matches' cfg r.
Proof.
  unfold Webhook.authorized, Webhook.bearer_matches.
  rewrite orb_true_iff, String.eqb_eq, EqualFold_runes. done.
Qed.

(** C7 as amended: the handler answers 405 to every request that is not a
    POST.  To a POST it answers 401 exactly when a secret is configured and
    the Authorization header does not equal "Bearer <secret>" rune by rune
    up to case, both read as UTF-8 with every invalid byte taken for U+FFFD;
    for ASCII headers and secrets that is: unless the two are the same up to
    the case of letters.  It answers 400 to a POST that passes this check
    and whose body cannot be read or decoded or whose content is empty, and
    200 with the body {"status":"ok"} otherwise, in which case the inbound
    message has sender "webhook:<source>", chat "webhook:<source>:<event>"
    and content "[Webhook: <source>/<event>] <content>".  Nothing is put on
    the bus unless the answer is 200. *)
Theorem C7_webhook_status_codes_by_runes (cfg : WebhookConfig) (r : Request) :
  (Method r ≠ "POST" →
   StatusCode (handler' cfg r).1 = 405 ∧ inbound_of' cfg r = None)
  ∧ (Method r = "POST" →
     (StatusCode (handler' cfg r).1 = 401 ↔ ¬ bearer_matches' cfg r)
     ∧ (¬ bearer_matches' cfg r → inbound_of' cfg r = None))
  ∧ (GoStrings.is_ascii (Authorization r) = true →
     GoStrings.is_ascii (Secret cfg) = true →
     (bearer_matches' cfg r
      ↔ Secret cfg = ""
        ∨ GoStrings.case_variant (Authorization r) ("Bearer " +:+ Secret cfg)))
  ∧ (Method r = "POST" → bearer_matches' cfg r →
     (∃ err, Body r = inl err)
     ∨ (∃ body err, Body r = inr body ∧ json_Unmarshal body = inl err)
     ∨ (∃ body payload, Body r = inr body ∧ json_Unmarshal body = inr payload
                        ∧ Content payload = "") →
     StatusCode (handler' cfg r).1 = 400 ∧ inbound_of' cfg r = None)
  ∧ (∀ body payload,
       Method r = "POST" → bearer_matches' cfg r →
       Body r = inr body → json_Unmarshal body = inr payload →
       Content payload ≠ "" →
       (handler' cfg r).1 = mkResponse 200 status_ok
       ∧ inbound_of' cfg r
         = Some (mkInbound "webhook"
                   ("webhook:" +:+ Source payload)
                   ("webhook:" +:+ Source payload +:+ ":" +:+ Event payload)
                   ("[Webhook: " +:+ Source payload +:+ "/" +:+ Event payload
                    +:+ "] " +:+ Content payload)
                   []
                   (Metadata payload
                    ∪ <["platform" := "webhook"]>
                        (<["source" := Source payload]>
                           (<["event" := Event payload]> ∅))))).
Proof.
  split; [| split; [| split; [| split]]].
  - unfold Webhook.inbound_of, Webhook.handler.
    intros Hm. apply eqb_false_iff in Hm. by rewrite Hm.
  - intros Hm. rewrite <- authorized_bearer_matches.
    unfold Webhook.inbound_of, Webhook.handler.
    rewrite Hm, String.eqb_refl. cbn [negb].
    destruct (authorized' cfg r) eqn:Ha; cbn [negb].
    + split; [| done]. split; [| done].
      destruct (Body r) as [err | body]; [done |].
      destruct (json_Unmarshal body) as [err | payload]; [done |].
      by destruct (String.eqb (Content payload) "").
    + split; [| done]. split; [done |]. intros _. simpl. done.
  - intros Hh Hs. unfold Webhook.bearer_matches. rewrite <- EqualFold_runes.
    assert (GoStrings.is_ascii ("Bearer " +:+ Secret cfg) = true) as Hbs.
    { rewrite !append_cons, append_nil_l. cbn [GoStrings.is_ascii]. by rewrite Hs. }
    split; (intros [He | Hf]; [by left | right]).
    + by apply (EqualFold_ascii_only simple_fold_reaches).
    + by apply EqualFold_case_variant.
  - intros Hm Ha Hbad. apply authorized_bearer_matches in Ha.
    unfold Webhook.inbound_of, Webhook.handler.
    rewrite Hm, String.eqb_refl, Ha. simpl.
    destruct Hbad as [(err & ->) | [(body & err & -> & ->) | (body & p & -> & -> & Hc)]];
      [done | done |]. by rewrite Hc.
  - intros body payload Hm Ha Hb Hj Hc. apply authorized_bearer_matches in Ha.
    unfold Webhook.inbound_of, Webhook.handler.
    rewrite Hm, String.eqb_refl, Ha, Hb, Hj. simpl.
    apply eqb_false_iff in Hc. by rewrite Hc.
Qed.

End WebhookStatusFacts.

(** C7 fails as stated: with the secret the single byte FE, a POST whose
    header is "Bearer " followed by the byte FF is not the secret's header
    in another case (the two bytes are no letters, and differ), yet it is
    not answered 401: both bytes are invalid UTF-8 and are compared as
    U+FFFD, so the handler answers 200, whatever the folding tables. *)
Lemma C7_invalid_bytes_pass_the_bearer_check :
  Webhook.Secret Webhook.secret_FE ≠ ""
  ∧ Webhook.Authorization Webhook.bearer_FF
    ≠ "Bearer " +:+ Webhook.Secret Webhook.secret_FE
  ∧ ¬ GoStrings.case_variant (Webhook.Authorization Webhook.bearer_FF)
        ("Bearer " +:+ Webhook.Secret Webhook.secret_FE)
  ∧ GoStrings.runes (Webhook.Authorization Webhook.bearer_FF)
    = GoStrings.runes ("Bearer " +:+ Webhook.Secret Webhook.secret_FE)
  ∧ ∀ simple_fold_reaches,
      (Webhook.handler simple_fold_reaches Webhook.decode_push
                       Webhook.secret_FE Webhook.bearer_FF).1
      = Webhook.mkResponse 200 Webhook.status_ok.
Proof.
  split; [discriminate |]. split; [vm_compute; discriminate |].
  split.
  - vm_compute. intros (_ & _ & _ & _ & _ & _ & _ & [H | H] & _); discriminate.
  - split; [vm_compute; reflexivity |].
    intros fold. vm_compute. reflexivity.
Qed.

(** A notes file that decodes with a type error: [recall] reports the
    error, while [save] and [del] drop it and go on with the notes the
    decoder left, so [save] updates the note "pw" in place and keeps the
    zero note, and [del] removes "pw" and writes the zero note back. *)
Example notes_after_a_type_error :
  let now := "2024-06-10T10:00:00Z" in
  Notes.recall Notes.half_decoded delete_pw
  = ErrorResult ("failed to load notes: "
                 +:+ "json: cannot unmarshal number into Go value of type tools.memoryNote")
  ∧ Notes.save Notes.half_decoded Notes.save_pw now
    = (SilentResult "Note 'pw' updated",
       Stored [Notes.mkNote "pw" "hunter2" ["x"] "" now; Notes.mkNote "" "" [] "" ""])
  ∧ Notes.del "memory/notes.json" Notes.half_decoded delete_pw
    = (SilentResult "Note 'pw' deleted", Stored [Notes.mkNote "" "" [] "" ""]).
Proof. repeat split; vm_compute; reflexivity. Qed.
